(** * UnoCloud sync engine: a shallow embedding and its verified properties

    The development follows the four components of the sync core:

    - [Tracker]  : the SQLite ledger of src/core/tracker.ts
                   (tables [synced_files] and [sync_jobs]);
    - [JsString], [SHAREPOINT], [Sanitize] : the JavaScript string
                   primitives, the constants and [sanitizeName];
    - [Effects]  : state passing with exceptions;
    - [Graph]    : the Graph API client (ensureFolder, small and chunked
                   upload) over an abstract remote service;
    - [Engine]   : the orchestrator (syncMapping, dryRun);
    - [Sim]      : a small in-memory drive and host on which the client
                   and the engine can be run.

    The modules of definitions come first; the modules of lemmas and
    theorems ([TrackerFacts], [SanitizeFacts], [SanitizeClaims],
    [ChunkFacts], [ChunkClaims], [FolderClaims], [EngineFacts],
    [EngineClaims]) follow.

    Conventions.  JavaScript numbers that hold sizes, offsets and counters
    are modelled as [Z] (exact integers; the rounding of doubles above 2^53
    is outside the model).  A JavaScript string is a [string] whose
    characters are code units below 256.  A table with a UNIQUE or PRIMARY
    KEY constraint is a [gmap] from the key to the row. *)

From Stdlib Require Import ZArith Ascii String List Bool Lia.
From stdpp Require Import base option gmap strings list.

Local Open Scope string_scope.
Local Open Scope Z_scope.

(* ===================================================================== *)
(** * The sync ledger (src/core/tracker.ts)                               *)
(* ===================================================================== *)

Module Tracker.

(** [SyncStatus] and [JobStatus] of the core types. *)
Inductive SyncStatus := pending | syncing | synced | failed | deleted.
Inductive JobStatus :=
  job_pending | job_running | job_completed | job_failed | job_cancelled.

#[global] Instance SyncStatus_eq_dec : EqDecision SyncStatus.
Proof. solve_decision. Defined.
#[global] Instance JobStatus_eq_dec : EqDecision JobStatus.
Proof. solve_decision. Defined.

(** A ledger row, [Omit<SyncedFile, 'id'>]: the surrogate AUTOINCREMENT
    row id is not modelled, the row is identified by its UNIQUE key
    (tenant_id, mapping_id, local_path).  [errorMessage] is optional. *)
Record SyncedFile := mkSyncedFile {
  tenantId : string;
  mappingId : string;
  localPath : string;
  remotePath : string;
  driveItemId : string;
  fileHash : string;
  fileSize : Z;
  localModifiedAt : string;
  remoteModifiedAt : string;
  syncedAt : string;
  status : SyncStatus;
  errorMessage : option string;
}.

Record SyncError := mkSyncError {
  filePath : string;
  error : string;
  timestamp : string;
  retryCount : Z;
}.

(** A row of [sync_jobs]; the [errors] column holds the JSON of the error
    list, which [mapSyncJob] parses back: the list itself is stored. *)
Record SyncJob := mkSyncJob {
  jobId : string;
  jobTenantId : string;
  jobMappingId : option string;
  jobStatus : JobStatus;
  startedAt : string;
  completedAt : option string;
  filesTotal : Z;
  filesProcessed : Z;
  filesFailed : Z;
  bytesTotal : Z;
  bytesTransferred : Z;
  errors : list SyncError;
}.

(** The key of the UNIQUE(tenant_id, mapping_id, local_path) constraint. *)
Abbreviation FileKey := (string * string * string)%type.

(** The database: both tables. *)
Record Db := mkDb {
  synced_files : gmap FileKey SyncedFile;
  sync_jobs : gmap string SyncJob;
}.

Definition emptyDb : Db := mkDb ∅ ∅.

Definition keyOf (f : SyncedFile) : FileKey :=
  (tenantId f, mappingId f, localPath f).

(** SELECT * FROM synced_files WHERE tenant_id = ? AND mapping_id = ?
    AND local_path = ? *)
Definition getSyncedFile (db : Db) (tenant mapping path : string)
  : option SyncedFile :=
  synced_files db !! (tenant, mapping, path).

(** INSERT ... ON CONFLICT(tenant_id, mapping_id, local_path) DO UPDATE:
    every other column is overwritten by the new row.  Here and below an
    optional argument that the caller leaves out is stored as NULL
    ([None]), which is what the COALESCE of [updateJobProgress] expects. *)
Definition upsertSyncedFile (db : Db) (file : SyncedFile) : Db :=
  mkDb (<[keyOf file := file]> (synced_files db)) (sync_jobs db).

(** UPDATE synced_files SET status, error_message, synced_at WHERE key. *)
Definition updateFileStatus (db : Db) (tenant mapping path : string)
    (st : SyncStatus) (msg : option string) (now : string) : Db :=
  mkDb (alter (fun r =>
          mkSyncedFile (tenantId r) (mappingId r) (localPath r)
            (remotePath r) (driveItemId r) (fileHash r) (fileSize r)
            (localModifiedAt r) (remoteModifiedAt r) now st msg)
          (tenant, mapping, path) (synced_files db))
       (sync_jobs db).

(** Check if file needs sync (based on hash comparison). *)
Definition needsSync (db : Db) (tenant mapping path currentHash : string)
  : bool :=
  match getSyncedFile db tenant mapping path with
  | None => true
  | Some existing =>
      if decide (status existing = failed) then true
      else if negb (String.eqb (fileHash existing) currentHash) then true
      else false
  end.

Definition deleteSyncedFile (db : Db) (tenant mapping path : string) : Db :=
  mkDb (delete (tenant, mapping, path) (synced_files db)) (sync_jobs db).

(** [createJob]: the id [job_<Date.now()>_<random>] and the start time come
    from the caller's environment.  The INSERT fails on an id that is
    already a PRIMARY KEY of [sync_jobs]. *)
Definition newJob (jid tenant : string) (mapping : option string)
    (now : string) : SyncJob :=
  mkSyncJob jid tenant mapping job_pending now None 0 0 0 0 0 [].

Definition createJob (db : Db) (jid tenant : string)
    (mapping : option string) (now : string) : option (SyncJob * Db) :=
  match sync_jobs db !! jid with
  | Some _ => None
  | None =>
      let job := newJob jid tenant mapping now in
      Some (job, mkDb (synced_files db) (<[jid := job]> (sync_jobs db)))
  end.

Definition alterJob (db : Db) (jid : string) (f : SyncJob -> SyncJob) : Db :=
  mkDb (synced_files db) (alter f jid (sync_jobs db)).

(** files_failed = COALESCE(?, files_failed) *)
Definition updateJobProgress (db : Db) (jid : string)
    (processed transferred : Z) (failedCount : option Z) : Db :=
  alterJob db jid (fun j =>
    mkSyncJob (jobId j) (jobTenantId j) (jobMappingId j) (jobStatus j)
      (startedAt j) (completedAt j) (filesTotal j) processed
      (default (filesFailed j) failedCount) (bytesTotal j) transferred
      (errors j)).

(** UPDATE sync_jobs SET files_total, bytes_total, status = 'running' *)
Definition setJobTotals (db : Db) (jid : string) (total bytes : Z) : Db :=
  alterJob db jid (fun j =>
    mkSyncJob (jobId j) (jobTenantId j) (jobMappingId j) job_running
      (startedAt j) (completedAt j) total (filesProcessed j)
      (filesFailed j) bytes (bytesTransferred j) (errors j)).

(** UPDATE sync_jobs SET status, completed_at, errors *)
Definition completeJob (db : Db) (jid : string) (st : JobStatus)
    (errs : list SyncError) (now : string) : Db :=
  alterJob db jid (fun j =>
    mkSyncJob (jobId j) (jobTenantId j) (jobMappingId j) st
      (startedAt j) (Some now) (filesTotal j) (filesProcessed j)
      (filesFailed j) (bytesTotal j) (bytesTransferred j) errs).

Definition getJob (db : Db) (jid : string) : option SyncJob :=
  sync_jobs db !! jid.

End Tracker.

(* ===================================================================== *)
(** * JavaScript string primitives used by the remote client              *)
(* ===================================================================== *)

Module JsString.

Definition jsLength (s : string) : Z := Z.of_nat (String.length s).

(** [s.split(sep)] for a separator of one character. *)
Fixpoint split (sep : ascii) (s : string) : list string :=
  match s with
  | EmptyString => [EmptyString]
  | String c rest =>
      if Ascii.eqb c sep then EmptyString :: split sep rest
      else match split sep rest with
           | h :: t => String c h :: t
           | [] => [String c EmptyString]
           end
  end.

(** [parts.join(glue)] *)
Fixpoint join (glue : string) (parts : list string) : string :=
  match parts with
  | [] => EmptyString
  | [p] => p
  | p :: rest => p ++ glue ++ join glue rest
  end.

Fixpoint dropWhile (p : ascii -> bool) (s : string) : string :=
  match s with
  | EmptyString => EmptyString
  | String c rest => if p c then dropWhile p rest else s
  end.

Fixpoint dropEndWhile (p : ascii -> bool) (s : string) : string :=
  match s with
  | EmptyString => EmptyString
  | String c rest =>
      match dropEndWhile p rest with
      | EmptyString => if p c then EmptyString else String c EmptyString
      | r => String c r
      end
  end.

(** WhiteSpace and LineTerminator code units below 256: TAB, LF, VT, FF,
    CR, SPACE and NO-BREAK SPACE. *)
Definition isWhiteSpace (c : ascii) : bool :=
  let n := nat_of_ascii c in
  ((9 <=? n)%nat && (n <=? 13)%nat) || (n =? 32)%nat || (n =? 160)%nat.

(** [s.trim()] *)
Definition trim (s : string) : string :=
  dropEndWhile isWhiteSpace (dropWhile isWhiteSpace s).

Definition isDot (c : ascii) : bool := Ascii.eqb c ".".

(** [s.replace(/^\.+|\.+$/g, '')]: the first alternative removes the
    leading run of dots, the second the run of dots that ends the rest. *)
Definition stripDots (s : string) : string :=
  dropEndWhile isDot (dropWhile isDot s).

(** [s.toUpperCase()] on the ASCII letters.  The other code units below
    256 are left as they are; JavaScript maps none of them to a string of
    ASCII characters that occurs in a reserved name, so the comparison with
    the (ASCII) reserved names below is not affected. *)
Definition upperChar (c : ascii) : ascii :=
  let n := nat_of_ascii c in
  if ((97 <=? n)%nat && (n <=? 122)%nat) then ascii_of_nat (n - 32) else c.

Fixpoint toUpperCase (s : string) : string :=
  match s with
  | EmptyString => EmptyString
  | String c rest => String (upperChar c) (toUpperCase rest)
  end.

(** [s.lastIndexOf(c)], -1 when [c] does not occur. *)
Fixpoint lastIndexOf (c : ascii) (s : string) : Z :=
  match s with
  | EmptyString => -1
  | String a rest =>
      let r := lastIndexOf c rest in
      if 0 <=? r then r + 1 else if Ascii.eqb a c then 0 else -1
  end.

(** Relative index of [slice]: a negative index counts from the end. *)
Definition sliceIndex (i len : Z) : Z :=
  if i <? 0 then Z.max (len + i) 0 else Z.min i len.

(** [s.slice(start, end)] *)
Definition slice (s : string) (start stop : Z) : string :=
  let len := jsLength s in
  let from := sliceIndex start len in
  let to := sliceIndex stop len in
  String.substring (Z.to_nat from) (Z.to_nat (Z.max (to - from) 0)) s.

(** [s.slice(start)] *)
Definition sliceFrom (s : string) (start : Z) : string :=
  slice s start (jsLength s).

Fixpoint contains (c : ascii) (s : string) : bool :=
  match s with
  | EmptyString => false
  | String a rest => Ascii.eqb a c || contains c rest
  end.

(** Every character of [s] satisfies [p]. *)
Fixpoint allOf (p : ascii -> bool) (s : string) : bool :=
  match s with
  | EmptyString => true
  | String c rest => p c && allOf p rest
  end.

Fixpoint mapChars (f : ascii -> ascii) (s : string) : string :=
  match s with
  | EmptyString => EmptyString
  | String c rest => String (f c) (mapChars f rest)
  end.

(** [c.repeat(n)] *)
Fixpoint repeatChar (c : ascii) (n : nat) : string :=
  match n with
  | O => EmptyString
  | S k => String c (repeatChar c k)
  end.

Definition firstChar (s : string) : option ascii :=
  match s with EmptyString => None | String c _ => Some c end.

Fixpoint lastChar (s : string) : option ascii :=
  match s with
  | EmptyString => None
  | String c EmptyString => Some c
  | String _ rest => lastChar rest
  end.

End JsString.

(* ===================================================================== *)
(** * Constants (src/utils/constants.ts)                                  *)
(* ===================================================================== *)

Module SHAREPOINT.

Definition CHUNK_SIZE : Z := 10 * 1024 * 1024.
Definition SMALL_FILE_THRESHOLD : Z := 4 * 1024 * 1024.

(** ~ # % & * { } \ : < > ? / | and the double quote (code 34). *)
Definition INVALID_CHARS : list ascii :=
  ["~"; "#"; "%"; "&"; "*"; "{"; "}"; "\"; ":"; "<"; ">"; "?"; "/"; "|";
   ascii_of_nat 34]%char.

Definition RESERVED_NAMES : list string :=
  [".lock"; "CON"; "PRN"; "AUX"; "NUL";
   "COM0"; "COM1"; "COM2"; "COM3"; "COM4"; "COM5"; "COM6"; "COM7"; "COM8";
   "COM9";
   "LPT0"; "LPT1"; "LPT2"; "LPT3"; "LPT4"; "LPT5"; "LPT6"; "LPT7"; "LPT8";
   "LPT9";
   "_vti_"; "desktop.ini"].

End SHAREPOINT.

(* ===================================================================== *)
(** * Name sanitization (GraphClient.sanitizeName)                        *)
(* ===================================================================== *)

Module Sanitize.
Import JsString.

(** for (const char of INVALID_CHARS) sanitized = sanitized.split(char).join('_') *)
Definition replaceInvalid (name : string) : string :=
  fold_left (fun sanitized char => join "_" (split char sanitized))
            SHAREPOINT.INVALID_CHARS name.

Definition isReserved (sanitized : string) : bool :=
  existsb (fun r => String.eqb (toUpperCase sanitized) (toUpperCase r))
          SHAREPOINT.RESERVED_NAMES.

Definition truncate (sanitized : string) : string :=
  if 200 <? jsLength sanitized then
    let ext := lastIndexOf "." sanitized in
    if 0 <? ext then
      let extension := sliceFrom sanitized ext in
      slice sanitized 0 (200 - jsLength extension) ++ extension
    else slice sanitized 0 200
  else sanitized.

Definition isInvalidChar (c : ascii) : bool :=
  existsb (Ascii.eqb c) SHAREPOINT.INVALID_CHARS.

(** What the replacement loop makes of one character. *)
Definition replaceChar (a : ascii) : ascii :=
  fold_left (fun x c => if Ascii.eqb x c then "_"%char else x)
            SHAREPOINT.INVALID_CHARS a.

Definition sanitizeName (name : string) : string :=
  let sanitized := replaceInvalid name in
  let sanitized := stripDots (trim sanitized) in
  let sanitized :=
    if isReserved sanitized then "_" ++ sanitized else sanitized in
  truncate sanitized.

End Sanitize.


(* ===================================================================== *)
(** * Effects: state passing with JavaScript exceptions                   *)
(* ===================================================================== *)

Module Effects.

(** A thrown error: its [message], and the [statusCode] that the Graph SDK
    attaches to a failed HTTP request ([new Error(msg)] has none). *)
Record Exn := mkExn { statusCode : option Z; message : string }.

Definition Error (msg : string) : Exn := mkExn None msg.

(** A computation over a state [S] that returns or throws. *)
Definition M (S A : Type) : Type := S -> (Exn + A) * S.

Definition ret {S A} (a : A) : M S A := fun s => (inr a, s).

Definition throw {S A} (e : Exn) : M S A := fun s => (inl e, s).

Definition bind {S A B} (m : M S A) (k : A -> M S B) : M S B :=
  fun s =>
    match m s with
    | (inl e, s') => (inl e, s')
    | (inr a, s') => k a s'
    end.

(** try { m } catch (error) { h error } *)
Definition tryCatch {S A} (m : M S A) (h : Exn -> M S A) : M S A :=
  fun s =>
    match m s with
    | (inl e, s') => h e s'
    | (inr a, s') => (inr a, s')
    end.

End Effects.

Declare Scope js_scope.
Delimit Scope js_scope with js.
Notation "x <- m ;; k" := (Effects.bind m (fun x => k))
  (at level 100, m at next level, right associativity) : js_scope.
Notation "m ;;; k" := (Effects.bind m (fun _ => k))
  (at level 100, right associativity) : js_scope.

(* ===================================================================== *)
(** * The Graph API client (src/core/graph.ts)                            *)
(* ===================================================================== *)

Module Graph.
Import Effects JsString Sanitize.

Definition Buffer : Type := list Byte.byte.

Definition bufferLength (b : Buffer) : Z := Z.of_nat (length b).

(** [buf.slice(start, end)], with the relative indices of [slice]. *)
Definition bufferSlice (b : Buffer) (start stop : Z) : Buffer :=
  let len := bufferLength b in
  let from := sliceIndex start len in
  let to := sliceIndex stop len in
  take (Z.to_nat (Z.max (to - from) 0)) (drop (Z.to_nat from) b).

Record SharePointSite := mkSite {
  siteId : string;
  siteDisplayName : string;
}.

Record SharePointDrive := mkDrive {
  driveId : string;
  driveName : string;
}.

(** The fields of a drive item that the core reads or stores. *)
Record SharePointItem := mkItem {
  itemId : string;
  itemName : string;
  webUrl : string;
  lastModifiedDateTime : string;
}.

Record UploadSession := mkSession {
  uploadUrl : string;
  expirationDateTime : string;
}.

(** Outcome of the [fetch] of one byte range: the promise rejects (or the
    body is not JSON), the response is not [ok] and carries a text, or it
    is JSON whose [id], when present, marks the completed item. *)
Inductive ChunkResponse :=
| FetchRejected (e : Exn)
| NotOk (text : string)
| OkJson (result : option SharePointItem).

(** The remote service, as seen through the SDK, and the auth manager
    with its token cache: a state [W] and one transition per kind of
    request, and one for [authManager.getAccessToken].  Responses have
    the shape that the TypeScript declarations give them. *)
Record Api (W : Type) := mkApi {
  acquireToken : string -> W -> (Exn + string) * W;
  getSiteJson : string -> W -> (Exn + SharePointSite) * W;
  getDrivesJson : string -> W -> (Exn + list SharePointDrive) * W;
  getItemJson : string -> W -> (Exn + SharePointItem) * W;
  postFolder : string -> string -> W -> (Exn + SharePointItem) * W;
  postSession : string -> string -> W -> (Exn + UploadSession) * W;
  putContent : string -> Buffer -> W -> (Exn + SharePointItem) * W;
  putRange : string -> Buffer -> Z -> Z -> Z -> W -> ChunkResponse * W;
}.
Arguments acquireToken {W}.
Arguments getSiteJson {W}.
Arguments getDrivesJson {W}.
Arguments getItemJson {W}.
Arguments postFolder {W}.
Arguments postSession {W}.
Arguments putContent {W}.
Arguments putRange {W}.

(** Every request that the client sends, in order. *)
Inductive Request :=
| GET (endpoint : string)
| POST_folder (endpoint name : string)
| POST_session (endpoint name : string)
| PUT_content (endpoint : string) (content : Buffer)
| PUT_range (url : string) (chunk : Buffer) (rangeStart rangeEnd totalSize : Z).

Record Net (W : Type) := mkNet {
  world : W;
  calls : list Request;
}.
Arguments mkNet {W}.
Arguments world {W}.
Arguments calls {W}.

(** Pure platform functions that the client and the engine call and that
    are not part of the repository: WHATWG URL parsing (hostname and
    pathname, or a TypeError) and Node's [path.join] / [path.dirname]. *)
Record Platform := mkPlatform {
  parseUrl : string -> option (string * string);
  pathJoin : string -> string -> string;
  pathDirname : string -> string;
}.

(** The lower case of a code unit below 256: the ASCII capitals and the
    Latin-1 capitals (192 to 222, without the multiplication sign 215)
    are 32 below their small letters; nothing else changes. *)
Definition lowerChar (c : ascii) : ascii :=
  let n := nat_of_ascii c in
  if ((65 <=? n)%nat && (n <=? 90)%nat)
     || ((192 <=? n)%nat && (n <=? 222)%nat && negb (n =? 215)%nat)
  then ascii_of_nat (n + 32) else c.

(** [s.toLowerCase()] *)
Fixpoint toLowerCase (s : string) : string :=
  match s with
  | EmptyString => EmptyString
  | String c rest => String (lowerChar c) (toLowerCase rest)
  end.

Definition stripPrefix (p s : string) : string :=
  if String.prefix p s
  then String.substring (String.length p) (String.length s - String.length p) s
  else s.

Section Client.
Context {W : Type} (api : Api W) (platform : Platform).

Local Open Scope js_scope.

(** One request: the remote moves and the request is logged. *)
Definition request {A} (req : Request) (step : W -> (Exn + A) * W)
  : M (Net W) A :=
  fun n =>
    let '(r, w') := step (world n) in
    (r, mkNet w' (calls n ++ [req])).

Definition apiGetItem (endpoint : string) : M (Net W) SharePointItem :=
  request (GET endpoint) (getItemJson api endpoint).

Definition apiPostFolder (endpoint name : string) : M (Net W) SharePointItem :=
  request (POST_folder endpoint name) (postFolder api endpoint name).

(** [GraphClient.forTenant]: the access token of the tenant, asked of
    the auth manager.  The client sends no request of its own here;
    whether the auth manager answers from its cache or asks the identity
    service is a matter of the world. *)
Definition forTenant (tenant : string) : M (Net W) string :=
  fun n =>
    let '(r, w') := acquireToken api tenant (world n) in
    (r, mkNet w' (calls n)).

(** [s.replace(/\/$/, '')] *)
Definition stripTrailingSlash (s : string) : string :=
  match lastChar s with
  | Some "/"%char => String.substring 0 (String.length s - 1) s
  | _ => s
  end.

Definition getSite (siteUrl : string) : M (Net W) SharePointSite :=
  match parseUrl platform siteUrl with
  | None => throw (Error "Invalid URL")
  | Some (hostname, pathname) =>
      let sitePath := stripTrailingSlash (stripPrefix "/sites/" pathname) in
      let endpoint := "/sites/" ++ hostname ++ ":/sites/" ++ sitePath in
      tryCatch (request (GET endpoint) (getSiteJson api endpoint))
               (fun _ => throw (Error ("Site not found: " ++ siteUrl)))
  end.

Definition dquote : string := String (ascii_of_nat 34) EmptyString.

Definition getDrive (site libraryName : string) : M (Net W) SharePointDrive :=
  let endpoint := "/sites/" ++ site ++ "/drives" in
  drives <- request (GET endpoint) (getDrivesJson api endpoint) ;;
  match List.find (fun d => String.eqb (toLowerCase (driveName d))
                                       (toLowerCase libraryName)) drives with
  | None =>
      throw (Error ("Document library " ++ dquote ++ libraryName ++ dquote
                    ++ " not found"))
  | Some drive => ret drive
  end.

Definition nonEmpty (s : string) : bool := negb (String.eqb s "").

(** The body of the [for (const part of parts)] loop of [ensureFolder],
    with the loop variables [currentPath] and [currentItem]. *)
Fixpoint ensureParts (drive : string) (parts : list string)
    (currentPath : string) (currentItem : option SharePointItem)
  : M (Net W) (option SharePointItem) :=
  match parts with
  | [] => ret currentItem
  | part :: rest =>
      let currentPath := currentPath ++ "/" ++ part in
      let sanitizedPart := sanitizeName part in
      item <- tryCatch
                (apiGetItem ("/drives/" ++ drive ++ "/root:" ++ currentPath))
                (fun error =>
                   if decide (statusCode error = Some 404) then
                     let joined :=
                       join "/" (removelast (split "/" currentPath)) in
                     let parentPath :=
                       if String.eqb joined "" then "/" else joined in
                     let parentEndpoint :=
                       if String.eqb parentPath "/"
                       then "/drives/" ++ drive ++ "/root/children"
                       else "/drives/" ++ drive ++ "/root:" ++ parentPath
                            ++ ":/children" in
                     apiPostFolder parentEndpoint sanitizedPart
                   else throw error) ;;
      ensureParts drive rest currentPath (Some item)
  end.

(** Get or create a folder in the drive.  The result is [currentItem!]:
    [None] stands for the [null] that is returned when the path has no
    non-empty segment. *)
Definition ensureFolder (drive folderPath : string)
  : M (Net W) (option SharePointItem) :=
  if String.eqb folderPath "" || String.eqb folderPath "/" then
    item <- apiGetItem ("/drives/" ++ drive ++ "/root") ;;
    ret (Some item)
  else
    ensureParts drive (filter nonEmpty (split "/" folderPath)) "" None.

(** The endpoint of an item addressed by parent path and sanitized name. *)
Definition itemEndpoint (drive parentPath sanitizedName action : string)
  : string :=
  if nonEmpty parentPath && negb (String.eqb parentPath "/")
  then "/drives/" ++ drive ++ "/root:" ++ parentPath ++ "/" ++ sanitizedName
       ++ action
  else "/drives/" ++ drive ++ "/root:/" ++ sanitizedName ++ action.

(** Upload a small file (< 4MB) directly. *)
Definition uploadSmallFile (drive parentPath fileName : string)
    (content : Buffer) : M (Net W) SharePointItem :=
  let sanitizedName := sanitizeName fileName in
  let endpoint := itemEndpoint drive parentPath sanitizedName ":/content" in
  request (PUT_content endpoint content) (putContent api endpoint content).

Definition createUploadSession (drive parentPath fileName : string)
  : M (Net W) UploadSession :=
  let sanitizedName := sanitizeName fileName in
  let endpoint :=
    itemEndpoint drive parentPath sanitizedName ":/createUploadSession" in
  request (POST_session endpoint sanitizedName)
          (postSession api endpoint sanitizedName).

(** Upload a chunk of a large file: the item when the upload is complete,
    [None] ([null]) when more chunks are needed. *)
Definition uploadChunk (url : string) (chunk : Buffer)
    (rangeStart rangeEnd totalSize : Z) : M (Net W) (option SharePointItem) :=
  fun n =>
    let '(resp, w') :=
      putRange api url chunk rangeStart rangeEnd totalSize (world n) in
    let n' :=
      mkNet w' (calls n
                ++ [PUT_range url chunk rangeStart rangeEnd totalSize]) in
    match resp with
    | FetchRejected e => (inl e, n')
    | NotOk text => (inl (Error ("Chunk upload failed: " ++ text)), n')
    | OkJson result => (inr result, n')
    end.

(** The [while (uploaded < totalSize)] loop of [uploadLargeFile].  [fuel]
    bounds the number of iterations; [None] means that the loop is still
    running when the fuel is spent. *)
Fixpoint uploadChunks (fuel : nat) (chunkSize : Z) (url : string)
    (content : Buffer) (totalSize uploaded : Z) (n : Net W)
  : option ((Exn + SharePointItem) * Net W) :=
  if uploaded <? totalSize then
    match fuel with
    | O => None
    | S fuel' =>
        let rangeEnd := Z.min (uploaded + chunkSize - 1) (totalSize - 1) in
        let chunk := bufferSlice content uploaded (rangeEnd + 1) in
        match uploadChunk url chunk uploaded rangeEnd totalSize n with
        | (inl e, n') => Some (inl e, n')
        | (inr (Some result), n') => Some (inr result, n')
        | (inr None, n') =>
            uploadChunks fuel' chunkSize url content totalSize
                         (rangeEnd + 1) n'
        end
    end
  else Some (inl (Error "Upload completed but no item returned"), n).

(** Upload a large file using chunked upload.  The source reads
    [chunkSize] from [SHAREPOINT.CHUNK_SIZE]; it is an argument here so
    that the range schedule can be stated for every chunk size.  A positive
    chunk size advances [uploaded] by at least one byte per iteration, so
    [totalSize] iterations are enough. *)
Definition uploadLargeFile (chunkSize : Z) (drive parentPath fileName : string)
    (content : Buffer) (n : Net W)
  : option ((Exn + SharePointItem) * Net W) :=
  match createUploadSession drive parentPath fileName n with
  | (inl e, n') => Some (inl e, n')
  | (inr session, n') =>
      let totalSize := bufferLength content in
      uploadChunks (Z.to_nat totalSize) chunkSize (uploadUrl session)
                   content totalSize 0 n'
  end.

(** Upload a file (auto-selects small or large file method).  With the
    module's chunk size the chunk loop always ends (see
    [uploadLargeFile_terminates]); the fallback branch is never taken. *)
Definition uploadFile (drive parentPath fileName : string)
    (content : Buffer) : M (Net W) SharePointItem :=
  if bufferLength content <=? SHAREPOINT.SMALL_FILE_THRESHOLD then
    uploadSmallFile drive parentPath fileName content
  else
    fun n =>
      match uploadLargeFile SHAREPOINT.CHUNK_SIZE drive parentPath fileName
                            content n with
      | Some r => r
      | None => (inl (Error "chunk loop did not end"), n)
      end.

End Client.

(** The byte ranges among a list of requests. *)
Record Range := mkRange {
  rangeStart : Z;
  rangeEnd : Z;
  body : Buffer;
}.

Definition rangeRequest (url : string) (totalSize : Z) (r : Range) : Request :=
  PUT_range url (body r) (rangeStart r) (rangeEnd r) totalSize.

(** [consecutiveFrom from rs upto]: the ranges [rs], in order, are not
    empty, the first starts at [from], each next one starts right after the
    previous one ends, and the last one ends at [upto - 1]. *)
Fixpoint consecutiveFrom (from : Z) (rs : list Range) (upto : Z) : Prop :=
  match rs with
  | [] => from = upto
  | r :: rest =>
      rangeStart r = from /\ rangeStart r <= rangeEnd r /\
      consecutiveFrom (rangeEnd r + 1) rest upto
  end.

(** The ranges that contain byte offset [b]. *)
Definition covering (b : Z) (rs : list Range) : list Range :=
  filter (fun r => rangeStart r <= b <= rangeEnd r) rs.

(** The bytes of [content] at offsets [rangeStart r .. rangeEnd r]. *)
Definition bytesAt (content : Buffer) (r : Range) : Buffer :=
  take (Z.to_nat (rangeEnd r - rangeStart r + 1))
       (drop (Z.to_nat (rangeStart r)) content).

End Graph.

(* ===================================================================== *)
(** * Core types consumed by the engine (src/types)                       *)
(* ===================================================================== *)

(** A JavaScript [Date]: a time value, given by its ISO string, or an
    Invalid Date (a time value that is NaN, as for a time stamp outside
    the range of [Date]). *)
(** A [Date] object: a time, kept as its ISO string, or the Invalid Date. *)
Module JsDate.

Inductive t :=
| Valid (iso : string)
| Invalid.

(** [d.toISOString()] throws a RangeError on an Invalid Date. *)
Definition toISOString (d : t) : Effects.Exn + string :=
  match d with
  | Valid iso => inr iso
  | Invalid => inl (Effects.Error "Invalid time value")
  end.

Definition isValid (d : t) : bool :=
  match d with
  | Valid _ => true
  | Invalid => false
  end.

(** The ISO string of a valid date. *)
Definition iso (d : t) : string :=
  match d with
  | Valid s => s
  | Invalid => EmptyString
  end.

End JsDate.

Module Scanned.
(** [ScannedFile]; the two dates are the [Date] objects of [stat]. *)
Record File := mkFile {
  path : string;
  relativePath : string;
  name : string;
  size : Z;
  hash : string;
  createdAt : JsDate.t;
  modifiedAt : JsDate.t;
  isDirectory : bool;
}.
End Scanned.

Module Mapping.
Record Destination := mkDestination {
  siteUrl : string;
  library : string;
  folder : option string;
}.
(** [SyncMapping]; the scanner alone reads the filters. *)
Record t := mkMapping {
  id : string;
  source : string;
  destination : Destination;
  enabled : bool;
}.
End Mapping.

Module Tenant.
(** [TenantConfig] with the one option that the engine reads. *)
Record Config := mkConfig {
  id : string;
  name : string;
  preserveFolderStructure : bool;
  mappings : list Mapping.t;
}.
End Tenant.

(* ===================================================================== *)
(** * The sync engine (src/core/sync.ts)                                  *)
(* ===================================================================== *)

Module Engine.
Import Effects JsString Graph Tracker.

(** The state that a run can touch: the ledger, the remote with the log
    of requests, and the number of readings of the clock so far. *)
Record Sys (W : Type) := mkSys {
  db : Db;
  net : Net W;
  ticks : nat;
}.
Arguments mkSys {W}.
Arguments db {W}.
Arguments net {W}.
Arguments ticks {W}.

(** The local machine: the outcome of [fileScanner.scan] and of
    [fs.readFileSync], the ISO time at each reading of the clock, and the
    generated job id [job_<Date.now()>_<random>]. *)
Record Host (W : Type) := mkHost {
  scan : Mapping.t -> W -> Exn + list Scanned.File;
  readFileSync : string -> W -> Exn + Buffer;
  isoTime : nat -> string;
  jobIdAt : nat -> string;
}.
Arguments scan {W}.
Arguments readFileSync {W}.
Arguments isoTime {W}.
Arguments jobIdAt {W}.

(** Which [return] of [syncMapping] was taken: nothing needed sync, the
    upload loop ran to the end, or the top-level [catch]. *)
Inductive Exit := UpToDate | Finalized | Aborted.

Record DryRunResult := mkDryRun {
  toSync : list Scanned.File;
  upToDate : Z;
  totalSize : Z;
}.

(** The loop variables [errors], [processed], [bytesTransferred]. *)
Record Progress := mkProgress {
  errorList : list SyncError;
  processed : Z;
  transferred : Z;
}.

Definition sumSizes (files : list Scanned.File) : Z :=
  fold_left (fun sum f => sum + Scanned.size f) files 0.

Section Run.
Context {W : Type} (api : Api W) (platform : Platform) (host : Host W).

Local Open Scope js_scope.

Definition liftNet {A} (m : M (Net W) A) : M (Sys W) A :=
  fun s => let '(r, n') := m (net s) in (r, mkSys (db s) n' (ticks s)).

Definition readDb {A} (f : Db -> A) : M (Sys W) A :=
  fun s => (inr (f (db s)), s).

Definition writeDb (f : Db -> Db) : M (Sys W) unit :=
  fun s => (inr tt, mkSys (f (db s)) (net s) (ticks s)).

(** [new Date().toISOString()] *)
Definition newDate : M (Sys W) string :=
  fun s => (inr (isoTime host (ticks s)), mkSys (db s) (net s) (S (ticks s))).

Definition newJobId : M (Sys W) string :=
  fun s => (inr (jobIdAt host (ticks s)), mkSys (db s) (net s) (S (ticks s))).

Definition scanSource (mapping : Mapping.t) : M (Sys W) (list Scanned.File) :=
  fun s => (scan host mapping (world (net s)), s).

Definition readFile (p : string) : M (Net W) Buffer :=
  fun n => (readFileSync host p (world n), n).

Definition when (b : bool) {S} (m : M S unit) : M S unit :=
  if b then m else ret tt.

(** An expression that returns or throws without touching the state. *)
Definition liftE {S A} (r : Exn + A) : M S A := fun s => (r, s).

(** What [toISOString] throws. *)
Definition invalidTime : Exn := Error "Invalid time value".

(** The modification time of the file is a valid date. *)
Definition dated (file : Scanned.File) : bool :=
  JsDate.isValid (Scanned.modifiedAt file).

Definition allDated (files : list Scanned.File) : bool :=
  forallb dated files.

(** Phase 2: connect to SharePoint, get site and drive, ensure that the
    destination folder exists. *)
Definition connect (tenant : Tenant.Config) (mapping : Mapping.t)
  : M (Net W) (SharePointDrive * string) :=
  _ <- forTenant api (Tenant.id tenant) ;;
  site <- getSite api platform
            (Mapping.siteUrl (Mapping.destination mapping)) ;;
  drive <- getDrive api (siteId site)
             (Mapping.library (Mapping.destination mapping)) ;;
  let destFolder := default "" (Mapping.folder (Mapping.destination mapping)) in
  when (nonEmpty destFolder)
       (_ <- ensureFolder api (driveId drive) destFolder ;; ret tt) ;;;
  ret (drive, destFolder).

(** The remote part of one iteration of the upload loop: remote path,
    parent folder, file content, upload. *)
Definition attempt (tenant : Tenant.Config) (drive : SharePointDrive)
    (destFolder : string) (file : Scanned.File)
  : M (Net W) (string * SharePointItem) :=
  let remotePath :=
    if Tenant.preserveFolderStructure tenant
    then pathJoin platform destFolder (Scanned.relativePath file)
    else pathJoin platform destFolder (Scanned.name file) in
  let remoteDir := pathDirname platform remotePath in
  when (nonEmpty remoteDir && negb (String.eqb remoteDir ".")
        && negb (String.eqb remoteDir destFolder))
       (_ <- ensureFolder api (driveId drive) remoteDir ;; ret tt) ;;;
  content <- readFile (Scanned.path file) ;;
  item <- uploadFile api (driveId drive)
            (if String.eqb remoteDir "." then "" else remoteDir)
            (Scanned.name file) content ;;
  ret (remotePath, item).

(** The two rows that the loop writes; [modified] is
    [file.modifiedAt.toISOString()]. *)
Definition syncedRecord (tenant : Tenant.Config) (mapping : Mapping.t)
    (file : Scanned.File) (remotePath : string) (item : SharePointItem)
    (modified now : string) : SyncedFile :=
  mkSyncedFile (Tenant.id tenant) (Mapping.id mapping) (Scanned.path file)
    remotePath (itemId item) (Scanned.hash file) (Scanned.size file)
    modified (lastModifiedDateTime item) now synced None.

Definition failedRecord (tenant : Tenant.Config) (mapping : Mapping.t)
    (file : Scanned.File) (msg modified now : string) : SyncedFile :=
  mkSyncedFile (Tenant.id tenant) (Mapping.id mapping) (Scanned.path file)
    "" "" (Scanned.hash file) (Scanned.size file)
    modified "" now failed (Some msg).

(** The state after an iteration on a file with a valid modification
    time whose attempt returned [r], and after one whose attempt threw
    [e]; [n1] is the remote after the attempt. *)
Definition afterSuccess (tenant : Tenant.Config) (mapping : Mapping.t)
    (jid : string) (s : Sys W) (n1 : Net W) (acc : Progress)
    (file : Scanned.File) (r : string * SharePointItem) : Sys W :=
  mkSys
    (updateJobProgress
       (upsertSyncedFile (db s)
          (syncedRecord tenant mapping file (fst r) (snd r)
                        (JsDate.iso (Scanned.modifiedAt file))
                        (isoTime host (ticks s))))
       jid (processed acc + 1) (transferred acc + Scanned.size file) None)
    n1 (S (ticks s)).

Definition afterFailure (tenant : Tenant.Config) (mapping : Mapping.t)
    (jid : string) (s : Sys W) (n1 : Net W) (acc : Progress)
    (file : Scanned.File) (e : Exn) : Sys W :=
  mkSys
    (updateJobProgress
       (upsertSyncedFile (db s)
          (failedRecord tenant mapping file (message e)
                        (JsDate.iso (Scanned.modifiedAt file))
                        (isoTime host (S (ticks s)))))
       jid (processed acc) (transferred acc)
       (Some (Z.of_nat (length (errorList acc)) + 1)))
    n1 (S (S (ticks s))).

(** One iteration of [for (const file of filesToSync)]: the [try] block
    and its [catch].  The row that is upserted is an object literal whose
    fields are evaluated in order: [file.modifiedAt.toISOString()] comes
    before [new Date()], and when it throws in the [catch] block the error
    leaves the loop. *)
Definition syncFile (tenant : Tenant.Config) (mapping : Mapping.t)
    (jid : string) (drive : SharePointDrive) (destFolder : string)
    (acc : Progress) (file : Scanned.File) : M (Sys W) Progress :=
  tryCatch
    (r <- liftNet (attempt tenant drive destFolder file) ;;
     modified <- liftE (JsDate.toISOString (Scanned.modifiedAt file)) ;;
     now <- newDate ;;
     writeDb (fun d => upsertSyncedFile d
                (syncedRecord tenant mapping file (fst r) (snd r) modified
                              now)) ;;;
     let acc' := mkProgress (errorList acc) (processed acc + 1)
                            (transferred acc + Scanned.size file) in
     writeDb (fun d => updateJobProgress d jid (processed acc')
                                         (transferred acc') None) ;;;
     ret acc')
    (fun error =>
       stamp <- newDate ;;
       let errors' :=
         (errorList acc
          ++ [mkSyncError (Scanned.path file) (message error) stamp 0])%list in
       modified <- liftE (JsDate.toISOString (Scanned.modifiedAt file)) ;;
       now <- newDate ;;
       writeDb (fun d => upsertSyncedFile d
                  (failedRecord tenant mapping file (message error) modified
                                now)) ;;;
       writeDb (fun d => updateJobProgress d jid (processed acc)
                  (transferred acc) (Some (Z.of_nat (length errors')))) ;;;
       ret (mkProgress errors' (processed acc) (transferred acc))).

Fixpoint uploadAll (tenant : Tenant.Config) (mapping : Mapping.t)
    (jid : string) (drive : SharePointDrive) (destFolder : string)
    (files : list Scanned.File) (acc : Progress) : M (Sys W) Progress :=
  match files with
  | [] => ret acc
  | file :: rest =>
      acc' <- syncFile tenant mapping jid drive destFolder acc file ;;
      uploadAll tenant mapping jid drive destFolder rest acc'
  end.

Definition finalStatus (errors filesToSync : Z) : JobStatus :=
  if errors =? 0 then job_completed
  else if errors <? filesToSync then job_completed
  else job_failed.

Definition filesNeedingSync (d : Db) (tenant : Tenant.Config)
    (mapping : Mapping.t) (files : list Scanned.File) : list Scanned.File :=
  List.filter (fun file => needsSync d (Tenant.id tenant) (Mapping.id mapping)
                             (Scanned.path file) (Scanned.hash file)) files.

(** The [try] block of [syncMapping]. *)
Definition syncBody (tenant : Tenant.Config) (mapping : Mapping.t)
    (jid : string) : M (Sys W) (Exit * option SyncJob) :=
  files <- scanSource mapping ;;
  filesToSync <- readDb (fun d => filesNeedingSync d tenant mapping files) ;;
  writeDb (fun d => setJobTotals d jid (Z.of_nat (length filesToSync))
                                 (sumSizes filesToSync)) ;;;
  if Z.of_nat (length filesToSync) =? 0 then
    now <- newDate ;;
    writeDb (fun d => completeJob d jid job_completed [] now) ;;;
    job <- readDb (fun d => getJob d jid) ;;
    ret (UpToDate, job)
  else
    conn <- liftNet (connect tenant mapping) ;;
    acc <- uploadAll tenant mapping jid (fst conn) (snd conn) filesToSync
                     (mkProgress [] 0 0) ;;
    let status := finalStatus (Z.of_nat (length (errorList acc)))
                              (Z.of_nat (length filesToSync)) in
    now <- newDate ;;
    writeDb (fun d => completeJob d jid status (errorList acc) now) ;;;
    job <- readDb (fun d => getJob d jid) ;;
    ret (Finalized, job).

(** Sync a specific mapping for a tenant.  [createJob] runs before the
    [try]: a failing INSERT rejects the whole call.  The progress callback
    only receives a copy of the job row ([getJob]) and the logger only
    writes log lines: neither is part of the state.  The top-level [catch]
    reads the clock twice: for the time stamp of its error entry, and
    inside [completeJob]. *)
Definition syncMapping (tenant : Tenant.Config) (mapping : Mapping.t)
  : M (Sys W) (Exit * option SyncJob) :=
  jid <- newJobId ;;
  started <- newDate ;;
  created <- readDb (fun d => createJob d jid (Tenant.id tenant)
                                (Some (Mapping.id mapping)) started) ;;
  match created with
  | None => throw (Error "UNIQUE constraint failed: sync_jobs.id")
  | Some (_, d') =>
      writeDb (fun _ => d') ;;;
      tryCatch (syncBody tenant mapping jid)
        (fun error =>
           stamp <- newDate ;;
           now <- newDate ;;
           writeDb (fun d => completeJob d jid job_failed
                      [mkSyncError (Mapping.source mapping) (message error)
                                   stamp 0] now) ;;;
           job <- readDb (fun d => getJob d jid) ;;
           ret (Aborted, job))
  end.

(** The loop of [dryRun] with its variables [toSync] and [upToDate]. *)
Fixpoint dryLoop (tenant : Tenant.Config) (mapping : Mapping.t)
    (files : list Scanned.File) (acc : list Scanned.File) (upToDate : Z)
  : M (Sys W) (list Scanned.File * Z) :=
  match files with
  | [] => ret (acc, upToDate)
  | file :: rest =>
      needed <- readDb (fun d => needsSync d (Tenant.id tenant)
                                   (Mapping.id mapping) (Scanned.path file)
                                   (Scanned.hash file)) ;;
      if (needed : bool)
      then dryLoop tenant mapping rest (acc ++ [file])%list upToDate
      else dryLoop tenant mapping rest acc (upToDate + 1)
  end.

(** Perform a dry run (scan only, no upload). *)
Definition dryRun (tenant : Tenant.Config) (mapping : Mapping.t)
  : M (Sys W) DryRunResult :=
  files <- scanSource mapping ;;
  r <- dryLoop tenant mapping files [] 0 ;;
  ret (mkDryRun (fst r) (snd r) (sumSizes (fst r))).

(** The state in which the top-level [catch] leaves a run that it
    entered in state [s] with the error [e]. *)
Definition aborted (mapping : Mapping.t) (jid : string) (e : Exn)
    (s : Sys W) : Sys W :=
  mkSys (completeJob (db s) jid job_failed
           [mkSyncError (Mapping.source mapping) (message e)
                        (isoTime host (ticks s)) 0]
           (isoTime host (S (ticks s))))
        (net s) (S (S (ticks s))).

(** Running the remote part of the upload loop alone, for a loop that
    runs to its end: the outcome of each file's attempt, in order. *)
Fixpoint attempts (tenant : Tenant.Config) (drive : SharePointDrive)
    (destFolder : string) (files : list Scanned.File) (n : Net W)
  : list (Exn + string * SharePointItem) * Net W :=
  match files with
  | [] => ([], n)
  | file :: rest =>
      let '(r, n1) := attempt tenant drive destFolder file n in
      let '(rs, n2) := attempts tenant drive destFolder rest n1 in
      (r :: rs, n2)
  end.

End Run.

(** The files whose attempt threw, with the error of each. *)
Fixpoint failuresOf {A : Type} (files : list Scanned.File)
    (outcomes : list (Exn + A)) : list (Scanned.File * Exn) :=
  match files, outcomes with
  | file :: files', inl e :: outcomes' =>
      (file, e) :: failuresOf files' outcomes'
  | _ :: files', inr _ :: outcomes' => failuresOf files' outcomes'
  | _, _ => []
  end.

Definition keyFor (tenant : Tenant.Config) (mapping : Mapping.t)
    (file : Scanned.File) : FileKey :=
  (Tenant.id tenant, Mapping.id mapping, Scanned.path file).

(** The error entry [err] reports the failure [fe]. *)
Definition reports (err : SyncError) (fe : Scanned.File * Exn) : Prop :=
  filePath err = Scanned.path (fst fe) /\
  error err = message (snd fe) /\
  retryCount err = 0.

(** The ledger row [r] records the outcome [o] of the attempt on [file]. *)
Definition recorded (file : Scanned.File)
    (o : Exn + string * SharePointItem) (r : SyncedFile) : Prop :=
  fileHash r = Scanned.hash file /\
  fileSize r = Scanned.size file /\
  match o with
  | inr (remote, item) =>
      status r = synced /\ remotePath r = remote /\
      driveItemId r = itemId item
  | inl e =>
      status r = failed /\ remotePath r = EmptyString /\
      driveItemId r = EmptyString /\ errorMessage r = Some (message e)
  end.

End Engine.

(* ===================================================================== *)
(** * A small drive and host, to run the client and the engine            *)
(* ===================================================================== *)

Module Sim.
Import Effects JsString Graph Engine.

(** The drive holds the addresses of its items ([/drives/d/root:/a/b]);
    [refused] lists the content endpoints that answer 503. *)
Record Remote := mkRemote {
  items : list string;
  refused : list string;
}.

Definition inList (x : string) (l : list string) : bool :=
  existsb (String.eqb x) l.

Definition stripSuffix (suffix s : string) : option string :=
  let ls := String.length s in
  let lf := String.length suffix in
  if (lf <=? ls)%nat && String.eqb (String.substring (ls - lf) lf s) suffix
  then Some (String.substring 0 (ls - lf) s)
  else None.

Definition itemAt (address : string) : SharePointItem :=
  mkItem ("id:" ++ address) address ("https://contoso.example" ++ address)
         "2024-01-01T00:00:00Z".

Definition notFound : Exn := mkExn (Some 404) "itemNotFound".
Definition nameAlreadyExists : Exn := mkExn (Some 409) "nameAlreadyExists".
Definition badRequest : Exn := mkExn (Some 400) "badRequest".
Definition serviceUnavailable : Exn := mkExn (Some 503) "serviceUnavailable".

Definition exists_ (address : string) (w : Remote) : bool :=
  inList address (items w) || bool_decide (is_Some (stripSuffix "/root" address)).

Definition simGetItem (endpoint : string) (w : Remote)
  : (Exn + SharePointItem) * Remote :=
  if exists_ endpoint w then (inr (itemAt endpoint), w)
  else (inl notFound, w).

(** Create a child folder; the conflict behaviour is "fail". *)
Definition simPostFolder (endpoint name : string) (w : Remote)
  : (Exn + SharePointItem) * Remote :=
  let child :=
    match stripSuffix "/root/children" endpoint with
    | Some base => Some (base ++ "/root:/" ++ name)
    | None =>
        match stripSuffix ":/children" endpoint with
        | Some parent =>
            if exists_ parent w then Some (parent ++ "/" ++ name) else None
        | None => None
        end
    end in
  match child with
  | None => (inl notFound, w)
  | Some address =>
      if inList address (items w) then (inl nameAlreadyExists, w)
      else (inr (itemAt address),
            mkRemote (items w ++ [address]) (refused w))
  end.

Definition simPutContent (endpoint : string) (content : Buffer) (w : Remote)
  : (Exn + SharePointItem) * Remote :=
  if inList endpoint (refused w) then (inl serviceUnavailable, w)
  else match stripSuffix ":/content" endpoint with
       | Some address =>
           (inr (itemAt address),
            mkRemote (items w ++ [address]) (refused w))
       | None => (inl badRequest, w)
       end.

(** The session stays open until the range that ends the file. *)
Definition simPutRange (url : string) (chunk : Buffer)
    (rangeStart rangeEnd totalSize : Z) (w : Remote)
  : ChunkResponse * Remote :=
  if rangeEnd + 1 <? totalSize then (OkJson None, w)
  else (OkJson (Some (itemAt url)), w).

Definition api : Api Remote :=
  mkApi Remote
    (fun tenant w => (inr ("token:" ++ tenant), w))
    (fun endpoint w => (inr (mkSite "site-1" "Team"), w))
    (fun endpoint w => (inr [mkDrive "d1" "Documents"], w))
    simGetItem
    simPostFolder
    (fun endpoint name w =>
       (inr (mkSession ("https://upload.example/" ++ name) "never"), w))
    simPutContent
    simPutRange.

(** POSIX [path.join] and [path.dirname] on paths that need no
    normalisation. *)
Definition simJoin (a b : string) : string :=
  if String.eqb a "" then b else a ++ "/" ++ b.

Definition simDirname (p : string) : string :=
  let i := lastIndexOf "/" p in
  if i <? 0 then "." else if i =? 0 then "/" else slice p 0 i.

Definition platform : Platform :=
  mkPlatform (fun url => Some ("contoso.example", "/sites/team"))
             simJoin simDirname.

Definition digit (n : nat) : string :=
  String (ascii_of_nat (48 + n mod 10)) EmptyString.

Definition host (files : list Scanned.File) : Host Remote :=
  mkHost Remote
    (fun mapping w => inr files)
    (fun p w => inr [Byte.x68; Byte.x69])
    (fun n => "2024-01-01T00:00:0" ++ digit n ++ "Z")
    (fun n => "job_" ++ digit (n / 10) ++ digit n).

Definition emptyNet : Net Remote := mkNet (mkRemote [] []) [].

Definition tenant : Tenant.Config := Tenant.mkConfig "t1" "Contoso" true [].

Definition mapping : Mapping.t :=
  Mapping.mkMapping "m1" "/data"
    (Mapping.mkDestination "https://contoso.example/sites/team" "Documents"
                           None) true.

Definition file (p : string) (sz : Z) (h : string) : Scanned.File :=
  Scanned.mkFile ("/data/" ++ p) p p sz h
                 (JsDate.Valid "2023-12-31T00:00:00Z")
                 (JsDate.Valid "2023-12-31T00:00:00Z") false.

Definition bytes (n : nat) : Buffer := repeat Byte.x61 n.

(** Three scanned files, a ledger that knows none of them, and two
    drives: one that accepts everything and one that refuses the content
    of [b.txt]. *)
Definition sample : list Scanned.File :=
  [file "a.txt" 10 "h1"; file "b.txt" 20 "h2"; file "c.txt" 30 "h3"].

Definition clean : Sys Remote :=
  mkSys Tracker.emptyDb emptyNet 0.

Definition partial : Sys Remote :=
  mkSys Tracker.emptyDb
        (mkNet (mkRemote [] ["/drives/d1/root:/b.txt:/content"]) []) 0.

Definition sync (s : Sys Remote)
  : (Exn + Exit * option Tracker.SyncJob) * Sys Remote :=
  syncMapping api platform (host sample) tenant mapping s.

Definition jobOf (r : (Exn + Exit * option Tracker.SyncJob) * Sys Remote)
  : option Tracker.SyncJob :=
  match fst r with
  | inr (_, job) => job
  | inl _ => None
  end.

(** A ledger with one row, marked [deleted]. *)
Definition deletedRow : Tracker.SyncedFile :=
  Tracker.mkSyncedFile "t1" "m1" "/data/a.txt" "a.txt" "id:a" "h1" 10
    "2023-12-31T00:00:00Z" "2024-01-01T00:00:00Z" "2024-01-01T00:00:00Z"
    Tracker.deleted None.

Definition ledgerWithDeleted : Tracker.Db :=
  Tracker.upsertSyncedFile Tracker.emptyDb deletedRow.

End Sim.

(* ===================================================================== *)
(** * Ledger queries (src/core/tracker.ts, continued)                     *)
(* ===================================================================== *)

Module Stats.
(** The result of [getStats]. *)
Record t := mkStats {
  total : Z;
  synced : Z;
  pending : Z;
  failed : Z;
}.
End Stats.

Module TrackerQueries.
Import Tracker.

(** The columns [tenant_id] and [mapping_id] of a row are the first two
    components of its key. *)
Definition ofTenant (tenant : string) (row : FileKey * SyncedFile) : Prop :=
  row.1.1.1 = tenant.

Definition ofMapping (tenant mapping : string) (row : FileKey * SyncedFile)
  : Prop :=
  row.1.1.1 = tenant /\ row.1.1.2 = mapping.

#[global] Instance ofTenant_dec (tenant : string) (row : FileKey * SyncedFile) :
  Decision (ofTenant tenant row).
Proof. unfold ofTenant. apply _. Defined.

#[global] Instance ofMapping_dec (tenant mapping : string)
    (row : FileKey * SyncedFile) : Decision (ofMapping tenant mapping row).
Proof. unfold ofMapping. apply _. Defined.

(** SELECT * FROM synced_files WHERE tenant_id = ? AND mapping_id = ?
    (the order of the rows is the storage's). *)
Definition getSyncedFilesForMapping (db : Db) (tenant mapping : string)
  : list SyncedFile :=
  (map_to_list (filter (ofMapping tenant mapping) (synced_files db))).*2.

(** COUNT( * ) and SUM(CASE WHEN status = st THEN 1 ELSE 0 END) over the
    rows of a tenant; the SUM of no row is NULL, which [|| 0] turns
    into 0. *)
Definition countRows (db : Db) (tenant : string) : Z :=
  Z.of_nat (size (filter (ofTenant tenant) (synced_files db))).

Definition countStatus (db : Db) (tenant : string) (st : SyncStatus) : Z :=
  Z.of_nat (size (filter (fun row => ofTenant tenant row /\ status row.2 = st)
                         (synced_files db))).

Definition getStats (db : Db) (tenant : string) : Stats.t :=
  Stats.mkStats (countRows db tenant)
                (countStatus db tenant synced)
                (countStatus db tenant pending)
                (countStatus db tenant failed).

End TrackerQueries.

(* ===================================================================== *)
(** * The file scanner (src/core/scanner.ts)                              *)
(* ===================================================================== *)

Module Scanner.

(** [FileFilters]; every field is optional. *)
Record FileFilters := mkFilters {
  include : option (list string);
  exclude : option (list string);
  maxFileSize : option Z;
  minFileSize : option Z;
}.

(** What the scanner finds in a directory.  A file entry carries the
    outcome of [stat] (its size and the two dates, or a failure) and of
    the digest stream; a directory entry carries the outcome of
    [readdir]; anything else (a link, a socket) is neither file nor
    directory.  The tree does not change during a scan. *)
Record FileStat := mkStat {
  statSize : Z;
  birthtime : JsDate.t;
  mtime : JsDate.t;
}.

Inductive Node :=
| FileNode (entryName : string) (stats : option FileStat)
           (digest : option string)
| DirNode (entryName : string) (entries : option (list Node))
| OtherNode (entryName : string).

Section Scan.
(** [minimatch(path, pattern, { matchBase: true })] and Node's path
    functions are library code. *)
Variable minimatch : string -> string -> bool.
Variable pathJoin : string -> string -> string.
Variable pathRelative : string -> string -> string.
Variable pathBasename : string -> string.

(** A number used as a condition: [undefined] and 0 are falsy. *)
Definition truthy (n : option Z) : bool :=
  match n with
  | Some v => negb (v =? 0)
  | None => false
  end.

Definition hasPatterns (ps : option (list string)) : bool :=
  match ps with
  | Some (_ :: _) => true
  | _ => false
  end.

Definition someMatch (relativePath : string) (ps : option (list string))
  : bool :=
  existsb (minimatch relativePath) (default [] ps).

(** Check if file matches filters. *)
Definition matchesFilters (relativePath : string) (fileSize : Z)
    (filters : option FileFilters) : bool :=
  match filters with
  | None => true
  | Some f =>
      if truthy (maxFileSize f) && (default 0 (maxFileSize f) <? fileSize)
      then false
      else if truthy (minFileSize f)
              && (fileSize <? default 0 (minFileSize f))
      then false
      else if hasPatterns (include f)
              && negb (someMatch relativePath (include f))
      then false
      else if hasPatterns (exclude f) && someMatch relativePath (exclude f)
      then false
      else true
  end.

(** Scan a single file that [stat] does not report as a directory: the
    scanned file, or [None] ([null]) when [stat] or the digest fails. *)
Definition scanFile (filePath basePath : string) (stats : option FileStat)
    (digest : option string) : option Scanned.File :=
  match stats, digest with
  | Some st, Some h =>
      Some (Scanned.mkFile filePath (pathRelative basePath filePath)
              (pathBasename filePath) (statSize st) h (birthtime st)
              (mtime st) false)
  | _, _ => None
  end.

(** Recursively scan a directory: the files and the directories found
    under [dirPath], in the order of the walk. *)
Fixpoint scanEntries (scanNode : string -> Node -> list Scanned.File * list string)
    (dirPath : string) (entries : list Node)
  : list Scanned.File * list string :=
  match entries with
  | [] => ([], [])
  | entry :: rest =>
      let here := scanNode dirPath entry in
      let there := scanEntries scanNode dirPath rest in
      ((fst here ++ fst there)%list, (snd here ++ snd there)%list)
  end.

Fixpoint scanNode (basePath : string) (filters : option FileFilters)
    (dirPath : string) (entry : Node) {struct entry}
  : list Scanned.File * list string :=
  match entry with
  | DirNode entryName entries =>
      let fullPath := pathJoin dirPath entryName in
      let relativePath := pathRelative basePath fullPath in
      let sub :=
        match entries with
        | None => ([], [])
        | Some es =>
            (fix walk (l : list Node) : list Scanned.File * list string :=
               match l with
               | [] => ([], [])
               | e :: rest =>
                   let here := scanNode basePath filters fullPath e in
                   let there := walk rest in
                   ((fst here ++ fst there)%list,
                    (snd here ++ snd there)%list)
               end) es
        end in
      (fst sub, relativePath :: snd sub)
  | FileNode entryName stats digest =>
      let fullPath := pathJoin dirPath entryName in
      let relativePath := pathRelative basePath fullPath in
      match stats with
      | None => ([], [])
      | Some st =>
          if matchesFilters relativePath (statSize st) filters then
            match scanFile fullPath basePath stats digest with
            | Some scanned => ([scanned], [])
            | None => ([], [])
            end
          else ([], [])
      end
  | OtherNode _ => ([], [])
  end.

Definition scanDirectory (basePath : string) (filters : option FileFilters)
    (dirPath : string) (entries : option (list Node))
  : list Scanned.File * list string :=
  match entries with
  | None => ([], [])
  | Some es => scanEntries (scanNode basePath filters) dirPath es
  end.

(** What [fs.existsSync] and [stat] say about the source path. *)
Inductive Source :=
| Missing
| NotDirectory
| Directory (entries : option (list Node)).

Record ScanResult := mkScanResult {
  mappingId : string;
  sourcePath : string;
  files : list Scanned.File;
  directories : list string;
  totalSize : Z;
}.

(** Scan a mapping source directory. *)
Definition scan (mapping : Mapping.t) (filters : option FileFilters)
    (source : Source) : Effects.Exn + ScanResult :=
  let sourcePath := Mapping.source mapping in
  match source with
  | Missing =>
      inl (Effects.Error ("Source path does not exist: " ++ sourcePath))
  | NotDirectory =>
      inl (Effects.Error ("Source path is not a directory: " ++ sourcePath))
  | Directory entries =>
      let r := scanDirectory sourcePath filters sourcePath entries in
      inr (mkScanResult (Mapping.id mapping) sourcePath (fst r) (snd r)
             (fold_left (fun sum f => sum + Scanned.size f) (fst r) 0))
  end.

(** The file passes the filters [f]: a size limit counts when it is set
    and not 0, the include list when it is set and not empty. *)
Definition accepted (f : FileFilters) (file : Scanned.File) : Prop :=
  (forall m, maxFileSize f = Some m -> m <> 0 -> Scanned.size file <= m) /\
  (forall m, minFileSize f = Some m -> m <> 0 -> m <= Scanned.size file) /\
  (forall ps, include f = Some ps -> ps <> [] ->
              exists p, In p ps /\
                        minimatch (Scanned.relativePath file) p = true) /\
  (forall ps p, exclude f = Some ps -> In p ps ->
                minimatch (Scanned.relativePath file) p = false) /\
  Scanned.isDirectory file = false.

End Scan.

(** A small tree, with a matcher that accepts the paths that end with
    the pattern. *)
Definition sampleMatch (p pattern : string) : bool :=
  match Sim.stripSuffix pattern p with
  | Some _ => true
  | None => false
  end.

Definition sampleRelative (base p : string) : string :=
  Graph.stripPrefix (base ++ "/") p.

Definition sampleBasename (p : string) : string :=
  JsString.sliceFrom p (JsString.lastIndexOf "/" p + 1).

Definition sampleStat (size : Z) : option FileStat :=
  Some (mkStat size (JsDate.Valid "2023-12-30T00:00:00Z")
               (JsDate.Valid "2023-12-31T00:00:00Z")).

Definition sampleTree : Source :=
  Directory
    (Some [FileNode "a.txt" (sampleStat 10) (Some "h1");
           FileNode "b.tmp" (sampleStat 20) (Some "h2");
           DirNode "sub"
             (Some [FileNode "big.txt" (sampleStat 5000) (Some "h3");
                    FileNode "c.txt" (sampleStat 30) None;
                    FileNode "d.txt" (sampleStat 40) (Some "h4")]);
           DirNode "locked" None;
           OtherNode "link"]).

Definition sampleFilters : FileFilters :=
  mkFilters (Some [".txt"; ".md"]) (Some [".tmp"]) (Some 1000) (Some 0).

End Scanner.

(* ===================================================================== *)
(** * The Graph client and the engine, continued                          *)
(* ===================================================================== *)

Module Sample.
Import Tracker.

(** Ledger rows used to run the ledger operations. *)
Definition row (p h : string) (st : SyncStatus) : SyncedFile :=
  mkSyncedFile "t1" "m1" p ("docs/" ++ p) ("id:" ++ p) h 10
    "2023-12-31T00:00:00Z" "2024-01-01T00:00:00Z" "2024-01-01T00:00:00Z"
    st None.

Definition otherTenantRow : SyncedFile :=
  mkSyncedFile "t2" "m9" "/data/z.txt" "z.txt" "id:z" "hz" 5
    "2023-12-31T00:00:00Z" "2024-01-01T00:00:00Z" "2024-01-01T00:00:00Z"
    synced None.

Definition ledger : Db :=
  upsertSyncedFile
    (upsertSyncedFile
       (upsertSyncedFile emptyDb (row "/data/a.txt" "h1" synced))
       (row "/data/b.txt" "h2" failed))
    (row "/data/c.txt" "h3" deleted).

End Sample.

(** Classes of characters, for the statements about names. *)
Module NameClasses.
Import JsString Sanitize.

Definition allAscii : list ascii := map ascii_of_nat (seq 0 256).

(** White space or a dot: what [sanitizeName] strips at the ends. *)
Definition isEdge (c : ascii) : bool := isWhiteSpace c || isDot c.

Definition sameClass (c d : ascii) : bool :=
  Bool.eqb (isInvalidChar c) (isInvalidChar d)
  && Bool.eqb (isWhiteSpace c) (isWhiteSpace d)
  && Bool.eqb (isDot c) (isDot d).

End NameClasses.

Module GraphPaths.
Import JsString Graph.

(** The values of [currentPath] in the loop of [ensureFolder]. *)
Fixpoint segmentPaths (parts : list string) (currentPath : string)
  : list string :=
  match parts with
  | [] => []
  | part :: rest =>
      (currentPath ++ "/" ++ part)
      :: segmentPaths rest (currentPath ++ "/" ++ part)
  end.

(** The call returned (it did not throw). *)
Definition returned {A : Type} (r : Effects.Exn + A) : Prop :=
  match r with
  | inr _ => True
  | inl _ => False
  end.

(** The addresses that [ensureFolder] looks up for a folder path, in
    order: the root, or one address per non-empty segment, under the raw
    names of the segments. *)
Definition lookupEndpoints (drive folderPath : string) : list string :=
  if String.eqb folderPath "" || String.eqb folderPath "/" then
    ["/drives/" ++ drive ++ "/root"]
  else
    map (fun path => "/drives/" ++ drive ++ "/root:" ++ path)
        (segmentPaths (filter nonEmpty (split "/" folderPath)) "").

(** Looking addresses up one after the other and stopping at the first
    lookup that fails: the addresses that were asked, the error of the
    failed lookup or else the item that was found last ([last] when no
    address was asked), and the service afterwards. *)
Record Lookups (W : Type) : Type := mkLookups {
  asked : list string;
  outcome : Effects.Exn + option SharePointItem;
  after : W
}.
Arguments mkLookups {W} _ _ _.
Arguments asked {W} _.
Arguments outcome {W} _.
Arguments after {W} _.

Fixpoint lookAll {W : Type} (api : Api W) (endpoints : list string)
    (last : option SharePointItem) (w : W) : Lookups W :=
  match endpoints with
  | [] => mkLookups [] (inr last) w
  | endpoint :: rest =>
      match getItemJson api endpoint w with
      | (inl e, w') => mkLookups [endpoint] (inl e) w'
      | (inr item, w') =>
          let run := lookAll api rest (Some item) w' in
          mkLookups (endpoint :: asked run) (outcome run) (after run)
      end
  end.

Definition isSlash (c : ascii) : bool := Ascii.eqb c "/".

(** The ranges that [uploadLargeFile] can send have a full chunk, or what
    is left of the content. *)
Definition wellSized (chunkSize totalSize : Z) (r : Range) : Prop :=
  rangeEnd r = Z.min (rangeStart r + chunkSize - 1) (totalSize - 1) /\
  bufferLength (body r) = rangeEnd r - rangeStart r + 1.

End GraphPaths.

(** Other services over the simulated drive: one that finds every item,
    one that never reports a completed upload, one whose sites cannot be
    read. *)
Module Services.
Import Effects Graph.

Definition populated : Api Sim.Remote :=
  mkApi Sim.Remote
    (acquireToken Sim.api) (getSiteJson Sim.api) (getDrivesJson Sim.api)
    (fun endpoint w => (inr (Sim.itemAt endpoint), w))
    (postFolder Sim.api) (postSession Sim.api) (putContent Sim.api)
    (putRange Sim.api).

(** A service that finds every item but refuses to show one folder. *)
Definition forbidden : Exn := mkExn (Some 403) "accessDenied".

Definition guarded : Api Sim.Remote :=
  mkApi Sim.Remote
    (acquireToken Sim.api) (getSiteJson Sim.api) (getDrivesJson Sim.api)
    (fun endpoint w =>
       if String.eqb endpoint "/drives/d1/root:/reports/2024"
       then (inl forbidden, w)
       else (inr (Sim.itemAt endpoint), w))
    (postFolder Sim.api) (postSession Sim.api) (putContent Sim.api)
    (putRange Sim.api).

Definition stalled : Api Sim.Remote :=
  mkApi Sim.Remote
    (acquireToken Sim.api) (getSiteJson Sim.api) (getDrivesJson Sim.api)
    (getItemJson Sim.api) (postFolder Sim.api) (postSession Sim.api)
    (putContent Sim.api)
    (fun url chunk rangeStart rangeEnd totalSize w => (OkJson None, w)).

Definition offline : Api Sim.Remote :=
  mkApi Sim.Remote
    (acquireToken Sim.api)
    (fun endpoint w => (inl Sim.serviceUnavailable, w))
    (getDrivesJson Sim.api) (getItemJson Sim.api) (postFolder Sim.api)
    (postSession Sim.api) (putContent Sim.api) (putRange Sim.api).

(** A tenant with two enabled mappings and a disabled one between them. *)
Definition archive : Mapping.t :=
  Mapping.mkMapping "m2" "/archive"
    (Mapping.mkDestination "https://contoso.example/sites/team" "Documents"
                           None) false.

Definition reportsFolder : Mapping.t :=
  Mapping.mkMapping "m3" "/reports"
    (Mapping.mkDestination "https://contoso.example/sites/team" "Documents"
                           None) true.

Definition contoso : Tenant.Config :=
  Tenant.mkConfig "t1" "Contoso" true [Sim.mapping; archive; reportsFolder].

Definition fabrikam : Tenant.Config :=
  Tenant.mkConfig "t2" "Fabrikam" false [Sim.mapping].

Definition resultsOf {A S : Type} (r : (Exn + gmap string A) * S)
  : gmap string A :=
  match fst r with
  | inr results => results
  | inl _ => ∅
  end.

(** A scan in which the second file has an Invalid Date as its
    modification time, and a run over it. *)
Definition undated : Scanned.File :=
  Scanned.mkFile "/data/b.txt" "b.txt" "b.txt" 20 "h2"
                 (JsDate.Valid "2023-12-31T00:00:00Z") JsDate.Invalid false.

Definition undatedSample : list Scanned.File :=
  [Sim.file "a.txt" 10 "h1"; undated; Sim.file "c.txt" 30 "h3"].

Definition syncUndated (s : Engine.Sys Sim.Remote)
  : (Exn + Engine.Exit * option Tracker.SyncJob) * Engine.Sys Sim.Remote :=
  Engine.syncMapping Sim.api Sim.platform (Sim.host undatedSample)
                     Sim.tenant Sim.mapping s.


End Services.

(** Views of a run of the engine, for the statements about it. *)
Module EngineViews.
Import Effects Graph Tracker Engine.

(** The files whose attempt returned. *)
Fixpoint successesOf {A : Type} (files : list Scanned.File)
    (outcomes : list (Exn + A)) : list Scanned.File :=
  match files, outcomes with
  | file :: files', inr _ :: outcomes' =>
      file :: successesOf files' outcomes'
  | _ :: files', inl _ :: outcomes' => successesOf files' outcomes'
  | _, _ => []
  end.

(** No file counted yet. *)
Definition idleJob (job : SyncJob) : Prop :=
  filesProcessed job = 0 /\ filesFailed job = 0 /\ bytesTransferred job = 0.

(** The job as the top-level [catch] of [syncMapping] leaves it after the
    error [e]: [failed], with one error entry for the source folder of the
    mapping, stamped one reading of the clock before the completion
    time. *)
Definition abortedJob {W : Type} (host : Host W) (mapping : Mapping.t)
    (job : SyncJob) (e : Exn) : Prop :=
  jobStatus job = job_failed /\
  exists t,
    errors job
    = [mkSyncError (Mapping.source mapping) (message e) (isoTime host t) 0]
    /\ completedAt job = Some (isoTime host (S t)).

(** The status is final. *)
Definition finished (job : SyncJob) : Prop :=
  (jobStatus job = job_completed \/ jobStatus job = job_failed) /\
  is_Some (completedAt job).

(** The entry that [syncTenant] pushes for the mapping [m]. *)
Definition jobFor (tenant : Tenant.Config) (m : Mapping.t)
    (entry : option SyncJob) : Prop :=
  exists job,
    entry = Some job /\
    jobTenantId job = Tenant.id tenant /\
    jobMappingId job = Some (Mapping.id m) /\
    finished job.

End EngineViews.

Module TenantSync.
Import Effects JsString Graph Tracker Engine.

Section Run.
Context {W : Type} (api : Api W) (platform : Platform) (host : Host W).

Local Open Scope js_scope.

(** The loop of [syncTenant] with its variable [jobs]. *)
Fixpoint syncMappings (tenant : Tenant.Config) (mappings : list Mapping.t)
    (jobs : list (option SyncJob)) : M (Sys W) (list (option SyncJob)) :=
  match mappings with
  | [] => ret jobs
  | mapping :: rest =>
      if negb (Mapping.enabled mapping)
      then syncMappings tenant rest jobs
      else
        r <- syncMapping api platform host tenant mapping ;;
        syncMappings tenant rest (jobs ++ [snd r])%list
  end.

(** Sync all mappings for a tenant. *)
Definition syncTenant (tenant : Tenant.Config)
  : M (Sys W) (list (option SyncJob)) :=
  syncMappings tenant (Tenant.mappings tenant) [].

(** Sync all tenants: the jobs of each tenant under its id. *)
Fixpoint syncTenants (tenants : list Tenant.Config)
    (results : gmap string (list (option SyncJob)))
  : M (Sys W) (gmap string (list (option SyncJob))) :=
  match tenants with
  | [] => ret results
  | tenant :: rest =>
      jobs <- syncTenant tenant ;;
      syncTenants rest (<[Tenant.id tenant := jobs]> results)
  end.

Definition syncAll (tenants : list Tenant.Config)
  : M (Sys W) (gmap string (list (option SyncJob))) :=
  syncTenants tenants ∅.

End Run.
End TenantSync.
(* ===================================================================== *)
(** * Properties of the ledger                                            *)
(* ===================================================================== *)

Module TrackerFacts.
Import Tracker.

(** C1. [needsSync] answers true exactly when the key (tenant, mapping,
    path) has no ledger record, or the record's status is [failed], or its
    stored hash is not [currentHash]; in every other case it answers
    false. *)
Theorem needsSync_iff (db : Db) (tenant mapping path currentHash : string) :
  needsSync db tenant mapping path currentHash = true <->
  (getSyncedFile db tenant mapping path = None \/
   exists existing,
     getSyncedFile db tenant mapping path = Some existing /\
     (status existing = failed \/ fileHash existing <> currentHash)).
Proof.
  unfold needsSync.
  destruct (getSyncedFile db tenant mapping path) as [r|] eqn:E.
  - destruct (decide (status r = failed)) as [Hf|Hf].
    + split; [intros _; right; exists r; auto | auto].
    + destruct (String.eqb (fileHash r) currentHash) eqn:Hh; simpl.
      * apply String.eqb_eq in Hh. split; [discriminate|].
        intros [Hn | (r' & Hr & [Hs | Hd])]; [discriminate| |].
        -- inversion Hr; subst; contradiction.
        -- inversion Hr; subst; contradiction.
      * apply String.eqb_neq in Hh.
        split; [intros _; right; exists r; auto | auto].
  - split; auto.
Qed.

(** C9. A record whose status is [pending], [syncing] or [deleted] and
    whose stored hash equals [currentHash] does not need sync: only
    [failed], a different hash or a missing record force a re-upload. *)
Theorem needsSync_unchanged_not_failed
    (db : Db) (tenant mapping path currentHash : string) (r : SyncedFile) :
  getSyncedFile db tenant mapping path = Some r ->
  status r = pending \/ status r = syncing \/ status r = deleted ->
  fileHash r = currentHash ->
  needsSync db tenant mapping path currentHash = false.
Proof.
  intros Hget Hst Hh. unfold needsSync. rewrite Hget.
  destruct (decide (status r = failed)) as [Hf|_].
  - rewrite Hf in Hst. destruct Hst as [?|[?|?]]; discriminate.
  - subst currentHash. now rewrite String.eqb_refl.
Qed.

Lemma needsSync_unchanged_not_failed_witness :
  needsSync Sim.ledgerWithDeleted "t1" "m1" "/data/a.txt" "h1" = false.
Proof.
  apply (needsSync_unchanged_not_failed Sim.ledgerWithDeleted "t1" "m1"
           "/data/a.txt" "h1" Sim.deletedRow).
  - vm_compute. reflexivity.
  - right. right. reflexivity.
  - reflexivity.
Defined.

End TrackerFacts.


(* ===================================================================== *)
(** * Properties of the name sanitizer                                    *)
(* ===================================================================== *)

Module SanitizeFacts.
Import JsString Sanitize.

Lemma split_not_nil (c : ascii) (s : string) : split c s <> [].
Proof.
  destruct s as [|a rest]; simpl; [discriminate|].
  destruct (Ascii.eqb a c); [discriminate|].
  destruct (split c rest); discriminate.
Qed.

Lemma join_cons_char (glue : string) (a : ascii) (h : string)
    (t : list string) :
  join glue (String a h :: t) = String a (join glue (h :: t)).
Proof. destruct t; reflexivity. Qed.

(** Splitting at a character and joining with another one replaces every
    occurrence of the first by the second. *)
Lemma join_split_replace (c g : ascii) (s : string) :
  join (String g EmptyString) (split c s)
  = mapChars (fun a => if Ascii.eqb a c then g else a) s.
Proof.
  induction s as [|a rest IH]; simpl; [reflexivity|].
  destruct (Ascii.eqb a c) eqn:E.
  - destruct (split c rest) as [|h t] eqn:Hs.
    + now apply split_not_nil in Hs.
    + simpl in *. now rewrite IH.
  - destruct (split c rest) as [|h t] eqn:Hs.
    + now apply split_not_nil in Hs.
    + rewrite join_cons_char. now rewrite IH.
Qed.

Lemma mapChars_id (f : ascii -> ascii) (s : string) :
  allOf (fun a => Ascii.eqb (f a) a) s = true -> mapChars f s = s.
Proof.
  induction s as [|a rest IH]; simpl; [reflexivity|].
  intros H. apply andb_true_iff in H as [Ha Hr].
  apply Ascii.eqb_eq in Ha. rewrite Ha. now rewrite IH.
Qed.

Lemma allOf_impl (p q : ascii -> bool) (s : string) :
  (forall a, p a = true -> q a = true) ->
  allOf p s = true -> allOf q s = true.
Proof.
  intros Hpq. induction s as [|a rest IH]; simpl; [reflexivity|].
  intros H. apply andb_true_iff in H as [Ha Hr].
  now rewrite (Hpq _ Ha), IH.
Qed.

Lemma allOf_app (p : ascii -> bool) (s t : string) :
  allOf p (s ++ t) = allOf p s && allOf p t.
Proof.
  induction s as [|a rest IH]; simpl; [reflexivity|].
  now rewrite IH, andb_assoc.
Qed.

(** A name without invalid characters goes through the replacement loop
    unchanged. *)
Lemma replaceInvalid_id (s : string) :
  allOf (fun a => negb (isInvalidChar a)) s = true -> replaceInvalid s = s.
Proof.
  unfold replaceInvalid, isInvalidChar.
  induction SHAREPOINT.INVALID_CHARS as [|c cs IH]; simpl; intros H;
    [reflexivity|].
  rewrite join_split_replace, mapChars_id.
  - apply IH. eapply allOf_impl; [|exact H].
    intros a Ha. simpl in Ha. apply negb_true_iff in Ha.
    apply orb_false_iff in Ha as [_ Ha]. now rewrite Ha.
  - eapply allOf_impl; [|exact H].
    intros a Ha. simpl in Ha. apply negb_true_iff in Ha.
    apply orb_false_iff in Ha as [Ha _]. rewrite Ha. apply Ascii.eqb_refl.
Qed.

Lemma dropWhile_all (p : ascii -> bool) (s t : string) :
  allOf p s = true -> dropWhile p (s ++ t) = dropWhile p t.
Proof.
  induction s as [|a rest IH]; simpl; [reflexivity|].
  intros H. apply andb_true_iff in H as [Ha Hr]. rewrite Ha. now apply IH.
Qed.

Lemma dropWhile_all_nil (p : ascii -> bool) (s : string) :
  allOf p s = true -> dropWhile p s = EmptyString.
Proof.
  induction s as [|a rest IH]; simpl; [reflexivity|].
  intros H. apply andb_true_iff in H as [Ha Hr]. rewrite Ha. now apply IH.
Qed.

Lemma dropWhile_none (p : ascii -> bool) (s : string) :
  allOf (fun a => negb (p a)) s = true -> dropWhile p s = s.
Proof.
  destruct s as [|a rest]; simpl; [reflexivity|].
  intros H. apply andb_true_iff in H as [Ha _].
  apply negb_true_iff in Ha. now rewrite Ha.
Qed.

Lemma dropEndWhile_all_nil (p : ascii -> bool) (s : string) :
  allOf p s = true -> dropEndWhile p s = EmptyString.
Proof.
  induction s as [|a rest IH]; simpl; [reflexivity|].
  intros H. apply andb_true_iff in H as [Ha Hr].
  now rewrite (IH Hr), Ha.
Qed.

Lemma dropEndWhile_none (p : ascii -> bool) (s : string) :
  allOf (fun a => negb (p a)) s = true -> dropEndWhile p s = s.
Proof.
  induction s as [|a rest IH]; simpl; [reflexivity|].
  intros H. apply andb_true_iff in H as [Ha Hr].
  apply negb_true_iff in Ha. rewrite (IH Hr).
  destruct rest; [now rewrite Ha | reflexivity].
Qed.

Lemma dropEndWhile_app_all (p : ascii -> bool) (s t : string) :
  allOf p t = true -> dropEndWhile p (s ++ t) = dropEndWhile p s.
Proof.
  intros Ht. induction s as [|a rest IH]; simpl.
  - now apply dropEndWhile_all_nil.
  - now rewrite IH.
Qed.

Lemma dot_not_space (a : ascii) : isDot a = true -> isWhiteSpace a = false.
Proof.
  unfold isDot. intros H. apply Ascii.eqb_eq in H. now subst a.
Qed.

Lemma blank_not_invalid (a : ascii) :
  isWhiteSpace a || isDot a = true -> negb (isInvalidChar a) = true.
Proof.
  destruct a as [[] [] [] [] [] [] [] []]; vm_compute; congruence.
Qed.

(** Trimming a run of dots that stands between two runs of white space
    leaves the dots. *)
Lemma trim_blank_dots_blank (pre dots post : string) :
  allOf isWhiteSpace pre = true -> allOf isDot dots = true ->
  allOf isWhiteSpace post = true ->
  trim (pre ++ dots ++ post) = dots.
Proof.
  intros Hpre Hdots Hpost. unfold trim.
  rewrite dropWhile_all by exact Hpre.
  assert (Hns : allOf (fun a => negb (isWhiteSpace a)) dots = true).
  { eapply allOf_impl; [|exact Hdots].
    intros a Ha. now rewrite (dot_not_space a Ha). }
  destruct dots as [|d rest].
  - simpl. rewrite dropWhile_all_nil by exact Hpost. reflexivity.
  - assert (Hd : isWhiteSpace d = false).
    { simpl in Hns. apply andb_true_iff in Hns as [Hd _].
      now apply negb_true_iff in Hd. }
    change ((String d rest ++ post)%string) with (String d (rest ++ post)).
    cbn [dropWhile]. rewrite Hd.
    change (String d (rest ++ post)) with ((String d rest ++ post)%string).
    rewrite dropEndWhile_app_all by exact Hpost.
    now apply dropEndWhile_none.
Qed.

(** What the sanitizer returns for a name made of white space, dots and
    white space. *)
Lemma sanitizeName_blank_dots_blank (pre dots post : string) :
  allOf isWhiteSpace pre = true -> allOf isDot dots = true ->
  allOf isWhiteSpace post = true ->
  sanitizeName (pre ++ dots ++ post) = EmptyString.
Proof.
  intros Hpre Hdots Hpost. unfold sanitizeName.
  rewrite replaceInvalid_id.
  - rewrite trim_blank_dots_blank by assumption.
    unfold stripDots. rewrite dropWhile_all_nil by exact Hdots. reflexivity.
  - rewrite !allOf_app.
    rewrite (allOf_impl isWhiteSpace _ pre), (allOf_impl isDot _ dots),
      (allOf_impl isWhiteSpace _ post); try assumption; try reflexivity;
      intros a Ha; apply blank_not_invalid; rewrite Ha;
      auto using orb_true_r.
Qed.

(** ** The result has no invalid character *)

Lemma mapChars_mapChars (f g : ascii -> ascii) (s : string) :
  mapChars g (mapChars f s) = mapChars (fun a => g (f a)) s.
Proof. induction s as [|a rest IH]; simpl; [reflexivity | now rewrite IH]. Qed.

Lemma mapChars_ext (f g : ascii -> ascii) (s : string) :
  (forall a, f a = g a) -> mapChars f s = mapChars g s.
Proof.
  intros H. induction s as [|a rest IH]; simpl; [reflexivity|].
  now rewrite H, IH.
Qed.

Lemma fold_replace_mapChars (cs : list ascii) :
  forall s,
    fold_left (fun sanitized char => join "_" (split char sanitized)) cs s
    = mapChars (fun a => fold_left (fun x c => if Ascii.eqb x c
                                              then "_"%char else x) cs a) s.
Proof.
  induction cs as [|c cs IH]; intros s; simpl.
  - symmetry. apply mapChars_id. induction s; simpl; [reflexivity|].
    now rewrite Ascii.eqb_refl.
  - rewrite IH, join_split_replace, mapChars_mapChars. reflexivity.
Qed.

Lemma replaceInvalid_mapChars (name : string) :
  replaceInvalid name = mapChars replaceChar name.
Proof. apply fold_replace_mapChars. Qed.

Lemma replaceChar_valid (a : ascii) : isInvalidChar (replaceChar a) = false.
Proof. destruct a as [[] [] [] [] [] [] [] []]; vm_compute; reflexivity. Qed.

Abbreviation valid := (fun c : ascii => negb (isInvalidChar c)).

Lemma allOf_mapChars (p : ascii -> bool) (f : ascii -> ascii) (s : string) :
  (forall a, p (f a) = true) -> allOf p (mapChars f s) = true.
Proof.
  intros H. induction s as [|a rest IH]; simpl; [reflexivity|].
  now rewrite H, IH.
Qed.

Lemma allOf_dropWhile (p q : ascii -> bool) (s : string) :
  allOf p s = true -> allOf p (dropWhile q s) = true.
Proof.
  induction s as [|a rest IH]; simpl; [reflexivity|]. intros H.
  destruct (q a); [apply IH; now apply andb_true_iff in H as [_ H]|exact H].
Qed.

Lemma allOf_dropEndWhile (p q : ascii -> bool) (s : string) :
  allOf p s = true -> allOf p (dropEndWhile q s) = true.
Proof.
  induction s as [|a rest IH]; simpl; [reflexivity|]. intros H.
  apply andb_true_iff in H as [Ha Hr]. specialize (IH Hr).
  destruct (dropEndWhile q rest) as [|b r'].
  - destruct (q a); simpl; [reflexivity | now rewrite Ha].
  - simpl in *. now rewrite Ha, IH.
Qed.

Lemma allOf_substring (p : ascii -> bool) (s : string) :
  forall n m, allOf p s = true -> allOf p (String.substring n m s) = true.
Proof.
  induction s as [|a rest IH]; intros n m H.
  - destruct n, m; reflexivity.
  - simpl in H. apply andb_true_iff in H as [Ha Hr].
    destruct n as [|n]; destruct m as [|m]; simpl; auto.
    now rewrite Ha, (IH 0%nat m Hr).
Qed.

Lemma allOf_slice (p : ascii -> bool) (s : string) (a b : Z) :
  allOf p s = true -> allOf p (slice s a b) = true.
Proof. intros H. unfold slice. now apply allOf_substring. Qed.

Lemma allOf_truncate (p : ascii -> bool) (s : string) :
  allOf p s = true -> allOf p (truncate s) = true.
Proof.
  intros H. unfold truncate.
  destruct (200 <? jsLength s); [|exact H].
  destruct (0 <? lastIndexOf "." s); [|now apply allOf_slice].
  rewrite allOf_app. unfold sliceFrom.
  now rewrite !allOf_slice.
Qed.

(** For every name, no character of the result is in the invalid set. *)
Lemma sanitizeName_no_invalid_char (name : string) :
  allOf (fun c => negb (isInvalidChar c)) (sanitizeName name) = true.
Proof.
  unfold sanitizeName. apply allOf_truncate.
  assert (H : allOf valid (stripDots (trim (replaceInvalid name))) = true).
  { unfold stripDots, trim.
    do 2 (apply allOf_dropEndWhile; apply allOf_dropWhile).
    rewrite replaceInvalid_mapChars. apply allOf_mapChars.
    intros a. now rewrite replaceChar_valid. }
  destruct (isReserved _); [|exact H].
  rewrite allOf_app, H. vm_compute. reflexivity.
Qed.

End SanitizeFacts.

Module SanitizeClaims.
Import Effects JsString Sanitize Graph SanitizeFacts.

(** C7 (the code at the failing inputs).  Both names contain the invalid
    character [#].  For [". a#"] the result [" a_"] starts with white
    space: [trim] runs before the dots are stripped, so the blank that
    follows the leading dot stays.  For ["a#."] followed by 300 times [x]
    the extension is longer than the limit and the result has 503
    characters. *)
Theorem sanitizeName_misses_space_and_length :
  contains "#" ". a#" = true /\
  sanitizeName ". a#" = " a_" /\
  option_map isWhiteSpace (firstChar (sanitizeName ". a#")) = Some true /\
  contains "#" ("a#." ++ repeatChar "x" 300) = true /\
  jsLength (sanitizeName ("a#." ++ repeatChar "x" 300)) = 503.
Proof. repeat split; vm_compute; reflexivity. Qed.

(** The names of white space, then dots, then white space (so the names
    whose trimmed form has dots only, like ["..."]) are sanitized to the
    empty string, and [uploadSmallFile] puts that empty string where the
    item name belongs in the endpoint of its request. *)
Lemma sanitizeName_empty_item_name {W : Type} (api : Api W)
    (pre dots post drive parentPath : string) (content : Buffer)
    (n : Net W) :
  allOf isWhiteSpace pre = true ->
  allOf isDot dots = true ->
  allOf isWhiteSpace post = true ->
  sanitizeName (pre ++ dots ++ post) = EmptyString /\
  calls (snd (uploadSmallFile api drive parentPath (pre ++ dots ++ post)
                              content n))
  = (calls n ++
     [PUT_content
        (if nonEmpty parentPath && negb (String.eqb parentPath "/")
         then "/drives/" ++ drive ++ "/root:" ++ parentPath ++ "/:/content"
         else "/drives/" ++ drive ++ "/root:/:/content")
        content])%list.
Proof.
  intros Hpre Hdots Hpost.
  pose proof (sanitizeName_blank_dots_blank pre dots post Hpre Hdots Hpost)
    as Hname.
  split; [exact Hname|].
  unfold uploadSmallFile, request. rewrite Hname.
  destruct (putContent api _ content (world n)) as [r w'].
  simpl. unfold itemEndpoint.
  destruct (nonEmpty parentPath && negb (String.eqb parentPath "/"));
    reflexivity.
Qed.

Lemma sanitizeName_empty_item_name_witness :
  sanitizeName "..." = EmptyString /\
  calls (snd (uploadSmallFile Sim.api "d1" "/docs" "..." (Sim.bytes 2)
                              Sim.emptyNet))
  = [PUT_content "/drives/d1/root:/docs/:/content" (Sim.bytes 2)].
Proof.
  exact (sanitizeName_empty_item_name Sim.api "" "..." "" "d1" "/docs"
           (Sim.bytes 2) Sim.emptyNet eq_refl eq_refl eq_refl).
Defined.

(** C10 (the code at the failing input).  The name [". ."] is not empty
    and consists of dots and white space only, yet it is not sanitized to
    the empty string: [trim] runs before the dots are stripped, so the
    blank between the two dots stays, against the comment
    "Remove leading/trailing spaces and dots" above that line, and the
    blank is the item name in the endpoint of the upload. *)
Theorem sanitizeName_dot_blank_dot_not_empty :
  nonEmpty ". ." = true /\
  allOf (fun c => isDot c || isWhiteSpace c) ". ." = true /\
  sanitizeName ". ." = " " /\
  sanitizeName ". ." <> EmptyString /\
  calls (snd (uploadSmallFile Sim.api "d1" "/docs" ". ." (Sim.bytes 2)
                              Sim.emptyNet))
  = [PUT_content "/drives/d1/root:/docs/ :/content" (Sim.bytes 2)].
Proof.
  split; [reflexivity|]. split; [reflexivity|].
  split; [vm_compute; reflexivity|].
  split; [vm_compute; discriminate|].
  vm_compute. reflexivity.
Qed.

End SanitizeClaims.

(* ===================================================================== *)
(** * Properties of the chunked upload                                    *)
(* ===================================================================== *)

Module ChunkFacts.
Import Effects JsString Graph.

Lemma consecutiveFrom_le (rs : list Range) :
  forall from upto, consecutiveFrom from rs upto -> from <= upto.
Proof.
  induction rs as [|r rs IH]; simpl; intros from upto H.
  - lia.
  - destruct H as (Hs & Hle & Hrest). apply IH in Hrest. lia.
Qed.

(** Consecutive ranges that run from [from] to [upto] contain every offset
    of [from, upto) exactly once, and no other offset. *)
Lemma consecutiveFrom_cover (rs : list Range) :
  forall from upto b,
    consecutiveFrom from rs upto ->
    length (covering b rs) =
      (if decide (from <= b < upto) then 1%nat else 0%nat).
Proof.
  induction rs as [|r rs IH]; simpl; intros from upto b H.
  - subst. destruct (decide (upto <= b < upto)); [lia | reflexivity].
  - destruct H as (Hs & Hle & Hrest).
    pose proof (consecutiveFrom_le _ _ _ Hrest) as Hup.
    unfold covering in *. rewrite filter_cons.
    specialize (IH _ _ b Hrest).
    destruct (decide (rangeStart r <= b <= rangeEnd r)) as [Hin|Hout];
      simpl; rewrite IH.
    + destruct (decide (rangeEnd r + 1 <= b < upto)); [lia|].
      destruct (decide (from <= b < upto)); [reflexivity | lia].
    + destruct (decide (rangeEnd r + 1 <= b < upto));
        destruct (decide (from <= b < upto)); try reflexivity; lia.
Qed.

Lemma consecutiveFrom_last (rs : list Range) :
  forall from upto,
    consecutiveFrom from rs upto -> from < upto ->
    exists r, last rs = Some r /\ rangeEnd r = upto - 1.
Proof.
  induction rs as [|r rs IH]; simpl; intros from upto H Hlt.
  - lia.
  - destruct H as (Hs & Hle & Hrest).
    destruct rs as [|r' rs'].
    + simpl in Hrest. exists r. split; [reflexivity | lia].
    + assert (Hlt' : rangeEnd r + 1 < upto).
      { simpl in Hrest. destruct Hrest as (Hs' & Hle' & Hrest').
        apply consecutiveFrom_le in Hrest'. lia. }
      destruct (IH _ _ Hrest Hlt') as (x & Hx & Hend).
      exists x. split; [|exact Hend]. rewrite last_cons. now rewrite Hx.
Qed.

Lemma bufferSlice_bytesAt (content : Buffer) (a b : Z) :
  0 <= a -> a <= b -> b < bufferLength content ->
  bufferSlice content a (b + 1) = bytesAt content (mkRange a b [])
  /\ bufferLength (bufferSlice content a (b + 1)) = b - a + 1.
Proof.
  intros Ha Hab Hb. unfold bufferSlice, bytesAt, sliceIndex, bufferLength in *.
  simpl.
  destruct (a <? 0) eqn:E1; [apply Z.ltb_lt in E1; lia|].
  destruct (b + 1 <? 0) eqn:E2; [apply Z.ltb_lt in E2; lia|].
  rewrite !Z.min_l by lia. rewrite Z.max_l by lia.
  replace (b + 1 - a) with (b - a + 1) by lia.
  split; [reflexivity|].
  rewrite length_take, length_drop. lia.
Qed.

Section Schedule.
Context {W : Type} (api : Api W).
Variables (chunkSize : Z) (url : string) (content : Buffer).
Hypothesis chunk_pos : 0 < chunkSize.

Let totalSize := bufferLength content.

(** The service keeps the session open until the last byte has arrived:
    a range that does not reach the end of the file is answered without an
    item. *)
Hypothesis session_continues :
  forall chunk a b w,
    b + 1 < totalSize ->
    fst (putRange api url chunk a b totalSize w) = OkJson None.

Lemma uploadChunks_schedule (fuel : nat) :
  forall uploaded n,
    0 <= uploaded <= totalSize ->
    totalSize - uploaded <= Z.of_nat fuel ->
    exists r n' ranges,
      uploadChunks api fuel chunkSize url content totalSize uploaded n
        = Some (r, n') /\
      calls n' = (calls n ++ map (rangeRequest url totalSize) ranges)%list /\
      consecutiveFrom uploaded ranges totalSize /\
      Forall (fun x => body x = bytesAt content x) ranges.
Proof.
  induction fuel as [|fuel IH]; intros uploaded n Hup Hfuel.
  - assert (uploaded = totalSize) by lia. subst uploaded.
    simpl. rewrite Z.ltb_irrefl.
    eexists _, n, []. simpl. rewrite app_nil_r. repeat split; constructor.
  - cbn [uploadChunks].
    destruct (uploaded <? totalSize) eqn:Hlt.
    2:{ apply Z.ltb_ge in Hlt. assert (uploaded = totalSize) by lia.
        eexists _, n, []. simpl. rewrite app_nil_r.
        repeat split; [lia | constructor]. }
    apply Z.ltb_lt in Hlt.
    set (rangeEnd := Z.min (uploaded + chunkSize - 1) (totalSize - 1)).
    assert (Hre : uploaded <= rangeEnd < totalSize) by (unfold rangeEnd; lia).
    destruct (bufferSlice_bytesAt content uploaded rangeEnd) as [Hbody _];
      [lia | lia | fold totalSize; lia |].
    set (chunk := bufferSlice content uploaded (rangeEnd + 1)) in *.
    set (this := mkRange uploaded rangeEnd chunk).
    unfold uploadChunk.
    destruct (putRange api url chunk uploaded rangeEnd totalSize (world n))
      as [resp w'] eqn:Hresp.
    set (n1 := mkNet w' (calls n ++ [PUT_range url chunk uploaded rangeEnd
                                               totalSize])).
    assert (Hlast : resp <> OkJson None ->
      exists ranges,
        calls n1 = (calls n ++ map (rangeRequest url totalSize) ranges)%list /\
        consecutiveFrom uploaded ranges totalSize /\
        Forall (fun x => body x = bytesAt content x) ranges).
    { intros Hne. exists [this]. simpl. split; [reflexivity|].
      destruct (decide (rangeEnd + 1 < totalSize)) as [Hmid|Hend].
      - exfalso. apply Hne.
        pose proof (session_continues chunk uploaded rangeEnd (world n) Hmid)
          as Hc.
        now rewrite Hresp in Hc.
      - repeat split; try lia. constructor; [exact Hbody | constructor]. }
    destruct resp as [e | text | [item|]].
    + destruct Hlast as (ranges & Hc & Ht & Hb); [discriminate|].
      eexists _, n1, ranges. repeat split; eauto.
    + destruct Hlast as (ranges & Hc & Ht & Hb); [discriminate|].
      eexists _, n1, ranges. repeat split; eauto.
    + destruct Hlast as (ranges & Hc & Ht & Hb); [discriminate|].
      eexists _, n1, ranges. repeat split; eauto.
    + destruct (IH (rangeEnd + 1) n1) as (r & n' & ranges & Hrun & Hc & Ht & Hb);
        [lia | lia |].
      exists r, n', (this :: ranges). repeat split; try exact Hrun; eauto.
      * rewrite Hc. simpl. now rewrite <- app_assoc.
      * simpl. lia.
Qed.

End Schedule.

End ChunkFacts.

Module ChunkClaims.
Import Effects JsString Sanitize Graph ChunkFacts.

(** With a positive chunk size the chunk loop ends within [totalSize]
    iterations, whatever the service answers. *)
Lemma uploadChunks_total {W : Type} (api : Api W) (chunkSize : Z)
    (url : string) (content : Buffer) (totalSize : Z) (fuel : nat) :
  0 < chunkSize ->
  forall uploaded n,
    totalSize - uploaded <= Z.of_nat fuel ->
    is_Some (uploadChunks api fuel chunkSize url content totalSize uploaded n).
Proof.
  intros Hpos. induction fuel as [|fuel IH]; intros uploaded n Hfuel.
  - simpl. destruct (uploaded <? totalSize) eqn:E; [|eauto].
    apply Z.ltb_lt in E. lia.
  - cbn [uploadChunks]. destruct (uploaded <? totalSize) eqn:E; [|eauto].
    apply Z.ltb_lt in E.
    destruct (uploadChunk api url _ uploaded _ totalSize n)
      as [[e|[item|]] n1]; eauto.
    apply IH. lia.
Qed.

(** Whatever the service answers, the ranges sent so far are consecutive
    and each chunk is the slice of the content at its range: an upload
    that is cut short has sent a prefix of the schedule. *)
Lemma uploadChunks_any_service {W : Type} (api : Api W) (chunkSize : Z)
    (url : string) (content : Buffer) (fuel : nat) :
  0 < chunkSize ->
  forall uploaded n r n',
    0 <= uploaded ->
    uploadChunks api fuel chunkSize url content (bufferLength content)
                 uploaded n = Some (r, n') ->
    exists ranges stop,
      calls n' = (calls n ++ map (rangeRequest url (bufferLength content))
                                 ranges)%list /\
      consecutiveFrom uploaded ranges stop /\
      stop <= Z.max uploaded (bufferLength content) /\
      Forall (fun x => body x = bytesAt content x) ranges.
Proof.
  intros Hpos. induction fuel as [|fuel IH];
    intros uploaded n r n' Hup Hrun.
  - simpl in Hrun. destruct (uploaded <? bufferLength content);
      [discriminate|]. injection Hrun as _ <-.
    exists [], uploaded. simpl. rewrite app_nil_r.
    repeat split; [lia | constructor].
  - cbn [uploadChunks] in Hrun.
    destruct (uploaded <? bufferLength content) eqn:Hlt.
    2:{ injection Hrun as _ <-. exists [], uploaded. simpl.
        rewrite app_nil_r. repeat split; [lia | constructor]. }
    apply Z.ltb_lt in Hlt.
    set (rangeEnd := Z.min (uploaded + chunkSize - 1)
                           (bufferLength content - 1)) in *.
    assert (Hre : uploaded <= rangeEnd < bufferLength content)
      by (unfold rangeEnd; lia).
    destruct (bufferSlice_bytesAt content uploaded rangeEnd) as [Hbody _];
      [lia | lia | lia |].
    set (chunk := bufferSlice content uploaded (rangeEnd + 1)) in *.
    set (this := mkRange uploaded rangeEnd chunk).
    unfold uploadChunk in Hrun.
    destruct (putRange api url chunk uploaded rangeEnd
                       (bufferLength content) (world n)) as [resp w'].
    assert (Hone :
      exists ranges stop,
        (calls n ++ [PUT_range url chunk uploaded rangeEnd
                               (bufferLength content)])%list
        = (calls n ++ map (rangeRequest url (bufferLength content))
                          ranges)%list /\
        consecutiveFrom uploaded ranges stop /\
        stop <= Z.max uploaded (bufferLength content) /\
        Forall (fun x => body x = bytesAt content x) ranges).
    { exists [this], (rangeEnd + 1). simpl. repeat split; try lia.
      constructor; [exact Hbody | constructor]. }
    destruct resp as [e | text | [item|]];
      try (injection Hrun as _ <-; exact Hone).
    apply IH in Hrun as (ranges & stop & Hc & Ht & Hs & Hb); [|lia].
    exists (this :: ranges), stop. cbn [calls] in Hc.
    split; [rewrite Hc; simpl; now rewrite <- app_assoc|].
    split; [simpl; repeat split; [lia | exact Ht]|].
    split; [lia|]. constructor; [exact Hbody | exact Hb].
Qed.

Lemma uploadLargeFile_terminates {W : Type} (api : Api W)
    (drive parentPath fileName : string) (content : Buffer) (n : Net W) :
  is_Some (uploadLargeFile api SHAREPOINT.CHUNK_SIZE drive parentPath
                           fileName content n).
Proof.
  unfold uploadLargeFile.
  destruct (createUploadSession api drive parentPath fileName n)
    as [[e|session] n1]; [eauto|].
  apply uploadChunks_total; [reflexivity|].
  unfold bufferLength. lia.
Qed.

(** C5.  For a content of size S > 0 and a chunk size C > 0, once the
    upload session exists and the service keeps it open until the last
    byte, the ranges that [uploadLargeFile] sends are consecutive from 0
    (each starts right after the previous one ends, so they neither
    overlap nor leave a gap), every offset of [0, S) lies in exactly one
    of them and no other offset in any, each chunk is the slice of the
    content at its range, and the last range ends at S - 1. *)
Theorem uploadLargeFile_ranges_tile {W : Type} (api : Api W)
    (chunkSize : Z) (drive parentPath fileName : string) (content : Buffer)
    (n : Net W) (session : UploadSession) (w1 : W) :
  0 < chunkSize ->
  0 < bufferLength content ->
  postSession api
    (itemEndpoint drive parentPath (sanitizeName fileName)
                  ":/createUploadSession")
    (sanitizeName fileName) (world n) = (inr session, w1) ->
  (forall chunk a b w,
      b + 1 < bufferLength content ->
      fst (putRange api (uploadUrl session) chunk a b
                    (bufferLength content) w) = OkJson None) ->
  exists result n' ranges,
    uploadLargeFile api chunkSize drive parentPath fileName content n
      = Some (result, n') /\
    calls n'
      = (calls n ++
         POST_session
           (itemEndpoint drive parentPath (sanitizeName fileName)
                         ":/createUploadSession")
           (sanitizeName fileName)
         :: map (rangeRequest (uploadUrl session) (bufferLength content))
                ranges)%list /\
    consecutiveFrom 0 ranges (bufferLength content) /\
    (forall b, length (covering b ranges)
               = if decide (0 <= b < bufferLength content)
                 then 1%nat else 0%nat) /\
    Forall (fun r => body r = bytesAt content r) ranges /\
    (exists r, last ranges = Some r /\ rangeEnd r = bufferLength content - 1).
Proof.
  intros Hc Hs Hsession Hopen.
  unfold uploadLargeFile, createUploadSession, request.
  rewrite Hsession.
  set (n1 := mkNet w1 _).
  destruct (uploadChunks_schedule api chunkSize (uploadUrl session) content
              Hc Hopen (Z.to_nat (bufferLength content)) 0 n1)
    as (r & n' & ranges & Hrun & Hcalls & Htile & Hbody); [lia | lia |].
  exists r, n', ranges. split; [exact Hrun|].
  split.
  { rewrite Hcalls. unfold n1. simpl. now rewrite <- app_assoc. }
  split; [exact Htile|].
  split; [intros b; now apply consecutiveFrom_cover|].
  split; [exact Hbody|].
  now apply (consecutiveFrom_last ranges 0).
Qed.

Lemma uploadLargeFile_ranges_tile_witness :
  exists result n' ranges,
    uploadLargeFile Sim.api 2 "d1" "" "big.bin" (Sim.bytes 5) Sim.emptyNet
      = Some (result, n') /\
    calls n'
      = (calls Sim.emptyNet ++
         POST_session
           (itemEndpoint "d1" "" (sanitizeName "big.bin")
                         ":/createUploadSession")
           (sanitizeName "big.bin")
         :: map (rangeRequest "https://upload.example/big.bin" 5) ranges)%list
    /\
    consecutiveFrom 0 ranges 5 /\
    (forall b, length (covering b ranges)
               = if decide (0 <= b < 5) then 1%nat else 0%nat) /\
    Forall (fun r => body r = bytesAt (Sim.bytes 5) r) ranges /\
    (exists r, last ranges = Some r /\ rangeEnd r = 5 - 1).
Proof.
  apply (uploadLargeFile_ranges_tile Sim.api 2 "d1" "" "big.bin"
           (Sim.bytes 5) Sim.emptyNet
           (mkSession "https://upload.example/big.bin" "never")
           (Sim.mkRemote [] [])).
  - reflexivity.
  - reflexivity.
  - reflexivity.
  - intros chunk a b w Hb. simpl. unfold Sim.simPutRange.
    change (bufferLength (Sim.bytes 5)) with 5 in *.
    destruct (b + 1 <? 5) eqn:E; [reflexivity|].
    apply Z.ltb_ge in E. lia.
Defined.

End ChunkClaims.

(* ===================================================================== *)
(** * ensureFolder on names that the sanitizer changes                    *)
(* ===================================================================== *)

Module FolderClaims.
Import Effects JsString Sanitize Graph.

Lemma split_no_separator (c : ascii) (s : string) :
  contains c s = false -> split c s = [s].
Proof.
  induction s as [|a rest IH]; simpl; [reflexivity|].
  intros H. apply orb_false_iff in H as [Ha Hr].
  now rewrite Ha, (IH Hr).
Qed.

(** For any remote: when the lookup of a one-segment path under its raw
    name answers 404, [ensureFolder] posts the creation of the sanitized
    name under the root and returns or throws what that request does. *)
Lemma ensureFolder_one_segment {W : Type} (api : Api W)
    (drive part : string) (n : Net W) (e : Exn) (w1 : W) :
  nonEmpty part = true ->
  contains "/" part = false ->
  getItemJson api ("/drives/" ++ drive ++ "/root:/" ++ part) (world n)
    = (inl e, w1) ->
  statusCode e = Some 404 ->
  ensureFolder api drive part n
  = let '(r, w2) := postFolder api ("/drives/" ++ drive ++ "/root/children")
                               (sanitizeName part) w1 in
    (match r with inl e' => inl e' | inr item => inr (Some item) end,
     mkNet w2 (calls n
               ++ [GET ("/drives/" ++ drive ++ "/root:/" ++ part);
                   POST_folder ("/drives/" ++ drive ++ "/root/children")
                               (sanitizeName part)])%list).
Proof.
  intros Hne Hslash Hget H404. unfold ensureFolder.
  assert (Hp : String.eqb part "" = false).
  { unfold nonEmpty in Hne. now apply negb_true_iff in Hne. }
  assert (Hs : String.eqb part "/" = false).
  { apply String.eqb_neq. intros ->. discriminate. }
  rewrite Hp, Hs. cbn [orb].
  rewrite (split_no_separator _ _ Hslash).
  rewrite filter_cons, decide_True by (now rewrite Hne).
  rewrite filter_nil.
  cbn [ensureParts]. unfold bind, tryCatch, apiGetItem, request.
  change (("" ++ "/" ++ part)%string) with (String "/" part).
  replace ("/drives/" ++ drive ++ "/root:" ++ String "/" part)%string
    with ("/drives/" ++ drive ++ "/root:/" ++ part)%string by reflexivity.
  rewrite Hget. rewrite decide_True by exact H404.
  cbn [split Ascii.eqb Bool.eqb]. rewrite (split_no_separator _ _ Hslash).
  cbn [removelast join String.eqb].
  unfold apiPostFolder, request. cbn [world calls].
  destruct (postFolder api _ (sanitizeName part) w1) as [[e'|item] w2];
    cbn [ret]; rewrite <- app_assoc; reflexivity.
Qed.

(** C6 (the code at the failing input).  On an empty drive the first
    [ensureFolder "d1" "R&D"] looks up [/R&D], gets 404 and creates the
    folder under its sanitized name [R_D].  The second call with the same
    arguments looks up [/R&D] again, gets 404 again, posts the creation of
    [R_D] once more and fails with the conflict that the service
    reports.  On the same drive a path that the sanitizer leaves alone,
    [docs/2024], behaves as the claim says: the second call only fetches
    the two segments and returns the item of the full path. *)
Theorem ensureFolder_second_call_fails :
  let first := ensureFolder Sim.api "d1" "R&D" Sim.emptyNet in
  let second := ensureFolder Sim.api "d1" "R&D" (snd first) in
  let plain := ensureFolder Sim.api "d1" "docs/2024" Sim.emptyNet in
  let again := ensureFolder Sim.api "d1" "docs/2024" (snd plain) in
  fst first = inr (Some (Sim.itemAt "/drives/d1/root:/R_D")) /\
  Sim.items (world (snd first)) = ["/drives/d1/root:/R_D"] /\
  fst second = inl Sim.nameAlreadyExists /\
  calls (snd second)
  = (calls (snd first) ++
     [GET "/drives/d1/root:/R&D";
      POST_folder "/drives/d1/root/children" "R_D"])%list /\
  fst again = inr (Some (Sim.itemAt "/drives/d1/root:/docs/2024")) /\
  calls (snd again)
  = (calls (snd plain) ++
     [GET "/drives/d1/root:/docs"; GET "/drives/d1/root:/docs/2024"])%list.
Proof. repeat split; vm_compute; reflexivity. Qed.

End FolderClaims.

(* ===================================================================== *)
(** * Properties of the engine                                            *)
(* ===================================================================== *)

Module EngineFacts.
Import Effects JsString Graph Tracker Engine.

Section Loop.
Context {W : Type} (api : Api W) (platform : Platform) (host : Host W).
Variables (tenant : Tenant.Config) (mapping : Mapping.t) (jid : string).
Variables (drive : SharePointDrive) (destFolder : string).

Lemma toISOString_dated (file : Scanned.File) :
  dated file = true ->
  JsDate.toISOString (Scanned.modifiedAt file)
  = inr (JsDate.iso (Scanned.modifiedAt file)).
Proof. unfold dated. now destruct (Scanned.modifiedAt file). Qed.

Lemma toISOString_undated (file : Scanned.File) :
  dated file = false ->
  JsDate.toISOString (Scanned.modifiedAt file) = inl invalidTime.
Proof. unfold dated. now destruct (Scanned.modifiedAt file). Qed.

Lemma syncFile_success (s : Sys W) (acc : Progress) (file : Scanned.File)
    (r : string * SharePointItem) (n1 : Net W) :
  dated file = true ->
  attempt api platform host tenant drive destFolder file (net s)
    = (inr r, n1) ->
  syncFile api platform host tenant mapping jid drive destFolder acc file s
  = (inr (mkProgress (errorList acc) (processed acc + 1)
                     (transferred acc + Scanned.size file)),
     afterSuccess host tenant mapping jid s n1 acc file r).
Proof.
  intros Hd Hatt. unfold syncFile, tryCatch, bind, liftNet, liftE.
  rewrite Hatt, (toISOString_dated file Hd). reflexivity.
Qed.

Lemma syncFile_failure (s : Sys W) (acc : Progress) (file : Scanned.File)
    (e : Exn) (n1 : Net W) :
  dated file = true ->
  attempt api platform host tenant drive destFolder file (net s)
    = (inl e, n1) ->
  syncFile api platform host tenant mapping jid drive destFolder acc file s
  = (inr (mkProgress
            (errorList acc
             ++ [mkSyncError (Scanned.path file) (message e)
                             (isoTime host (ticks s)) 0])%list
            (processed acc) (transferred acc)),
     afterFailure host tenant mapping jid s n1 acc file e).
Proof.
  intros Hd Hatt. unfold syncFile, tryCatch, bind, liftNet, liftE.
  rewrite Hatt, (toISOString_dated file Hd). unfold afterFailure. simpl.
  rewrite length_app. simpl.
  replace (Z.of_nat (length (errorList acc) + 1))
    with (Z.of_nat (length (errorList acc)) + 1) by lia.
  reflexivity.
Qed.

(** A file whose modification time is an Invalid Date: whatever its
    attempt gives, the [catch] block of the iteration throws. *)
Lemma syncFile_undated (s : Sys W) (acc : Progress) (file : Scanned.File) :
  dated file = false ->
  syncFile api platform host tenant mapping jid drive destFolder acc file s
  = (inl invalidTime,
     mkSys (db s)
           (snd (attempt api platform host tenant drive destFolder file
                         (net s)))
           (S (ticks s))).
Proof.
  intros Hd. unfold syncFile, tryCatch, bind, liftNet, liftE.
  rewrite (toISOString_undated file Hd).
  destruct (attempt api platform host tenant drive destFolder file (net s))
    as [[e|r] n1]; reflexivity.
Qed.

Local Abbreviation run_attempt file n :=
  (attempt api platform host tenant drive destFolder file n).
Local Abbreviation run_attempts files n :=
  (attempts api platform host tenant drive destFolder files n).
Local Abbreviation run_uploadAll files acc s :=
  (uploadAll api platform host tenant mapping jid drive destFolder files
             acc s).

Lemma uploadAll_step (file : Scanned.File) (rest : list Scanned.File)
    (acc : Progress) (s : Sys W) :
  run_uploadAll (file :: rest) acc s =
  if dated file then
    match run_attempt file (net s) with
    | (inr r, n1) =>
        run_uploadAll rest
          (mkProgress (errorList acc) (processed acc + 1)
                      (transferred acc + Scanned.size file))
          (afterSuccess host tenant mapping jid s n1 acc file r)
    | (inl e, n1) =>
        run_uploadAll rest
          (mkProgress
             (errorList acc
              ++ [mkSyncError (Scanned.path file) (message e)
                              (isoTime host (ticks s)) 0])%list
             (processed acc) (transferred acc))
          (afterFailure host tenant mapping jid s n1 acc file e)
    end
  else
    (inl invalidTime,
     mkSys (db s) (snd (run_attempt file (net s))) (S (ticks s))).
Proof.
  cbn [uploadAll]. unfold bind at 1.
  destruct (dated file) eqn:Hd.
  - destruct (run_attempt file (net s)) as [[e|r] n1] eqn:Hatt.
    + now rewrite (syncFile_failure s acc file e n1 Hd Hatt).
    + now rewrite (syncFile_success s acc file r n1 Hd Hatt).
  - now rewrite (syncFile_undated s acc file Hd).
Qed.

Lemma uploadAll_cons (file : Scanned.File) (rest : list Scanned.File)
    (acc : Progress) (s : Sys W) :
  dated file = true ->
  run_uploadAll (file :: rest) acc s =
  match run_attempt file (net s) with
  | (inr r, n1) =>
      run_uploadAll rest
        (mkProgress (errorList acc) (processed acc + 1)
                    (transferred acc + Scanned.size file))
        (afterSuccess host tenant mapping jid s n1 acc file r)
  | (inl e, n1) =>
      run_uploadAll rest
        (mkProgress
           (errorList acc
            ++ [mkSyncError (Scanned.path file) (message e)
                            (isoTime host (ticks s)) 0])%list
           (processed acc) (transferred acc))
        (afterFailure host tenant mapping jid s n1 acc file e)
  end.
Proof. intros Hd. now rewrite uploadAll_step, Hd. Qed.

(** A loop that runs to its end has met valid modification times only. *)
Lemma uploadAll_head_dated (file : Scanned.File) (rest : list Scanned.File)
    (acc acc' : Progress) (s s' : Sys W) :
  run_uploadAll (file :: rest) acc s = (inr acc', s') -> dated file = true.
Proof.
  rewrite uploadAll_step. destruct (dated file); [reflexivity|discriminate].
Qed.

Lemma uploadAll_cons_inr (file : Scanned.File) (rest : list Scanned.File)
    (acc acc' : Progress) (s s' : Sys W) :
  run_uploadAll (file :: rest) acc s = (inr acc', s') ->
  match run_attempt file (net s) with
  | (inr r, n1) =>
      run_uploadAll rest
        (mkProgress (errorList acc) (processed acc + 1)
                    (transferred acc + Scanned.size file))
        (afterSuccess host tenant mapping jid s n1 acc file r)
  | (inl e, n1) =>
      run_uploadAll rest
        (mkProgress
           (errorList acc
            ++ [mkSyncError (Scanned.path file) (message e)
                            (isoTime host (ticks s)) 0])%list
           (processed acc) (transferred acc))
        (afterFailure host tenant mapping jid s n1 acc file e)
  end = (inr acc', s').
Proof.
  intros Hrun. pose proof (uploadAll_head_dated _ _ _ _ _ _ Hrun) as Hd.
  now rewrite (uploadAll_cons _ _ _ _ Hd) in Hrun.
Qed.

Lemma uploadAll_dated (files : list Scanned.File) :
  forall acc s acc' s',
    run_uploadAll files acc s = (inr acc', s') -> allDated files = true.
Proof.
  induction files as [|file rest IH]; intros acc s acc' s' Hrun;
    [reflexivity|].
  cbn [allDated forallb].
  rewrite (uploadAll_head_dated _ _ _ _ _ _ Hrun). cbn [andb].
  apply uploadAll_cons_inr in Hrun.
  destruct (run_attempt file (net s)) as [[e|r] n1]; eapply IH; eauto.
Qed.

(** The loop throws only what [toISOString] throws, for a file whose
    modification time is an Invalid Date. *)
Lemma uploadAll_throws (files : list Scanned.File) :
  forall acc s e s',
    run_uploadAll files acc s = (inl e, s') ->
    e = invalidTime /\
    exists file, file ∈ files /\ dated file = false.
Proof.
  induction files as [|file rest IH]; intros acc s e s' Hrun;
    [discriminate|].
  rewrite uploadAll_step in Hrun. destruct (dated file) eqn:Hd.
  - destruct (run_attempt file (net s)) as [[e0|r] n1];
      apply IH in Hrun as (-> & g & Hg & Hgd);
      (split; [reflexivity|]); exists g; split; auto; now constructor.
  - injection Hrun as <- _. split; [reflexivity|].
    exists file. split; [constructor | exact Hd].
Qed.

Lemma attempts_cons (file : Scanned.File) (rest : list Scanned.File)
    (n : Net W) :
  run_attempts (file :: rest) n =
  (fst (run_attempt file n) :: fst (run_attempts rest (snd (run_attempt file n))),
   snd (run_attempts rest (snd (run_attempt file n)))).
Proof.
  cbn [attempts]. destruct (run_attempt file n) as [r n1]. simpl.
  now destruct (run_attempts rest n1).
Qed.

(** With valid modification times the upload loop never throws: every
    error of an attempt is caught per file. *)
Lemma uploadAll_returns (files : list Scanned.File) :
  allDated files = true ->
  forall acc s, exists acc' s', run_uploadAll files acc s = (inr acc', s').
Proof.
  induction files as [|file rest IH]; intros Hall acc s.
  - now exists acc, s.
  - cbn [allDated forallb] in Hall. apply andb_prop in Hall as [Hd Hall].
    rewrite (uploadAll_cons _ _ _ _ Hd).
    destruct (run_attempt file (net s)) as [[e|r] n1]; now apply IH.
Qed.

(** The remote after the loop, the errors that the loop appended and the
    counter of processed files. *)
Lemma uploadAll_progress (files : list Scanned.File) :
  forall acc s acc' s',
    run_uploadAll files acc s = (inr acc', s') ->
    net s' = snd (run_attempts files (net s)) /\
    (exists added,
        errorList acc' = (errorList acc ++ added)%list /\
        Forall2 reports added
                (failuresOf files (fst (run_attempts files (net s))))) /\
    processed acc' + Z.of_nat (length (errorList acc'))
      = processed acc + Z.of_nat (length (errorList acc))
        + Z.of_nat (length files) /\
    processed acc <= processed acc'.
Proof.
  induction files as [|file rest IH]; intros acc s acc' s' Hrun.
  - inversion Hrun; subst. simpl. split; [reflexivity|].
    split; [|split; lia].
    exists []. split; [now rewrite app_nil_r | constructor].
  - apply uploadAll_cons_inr in Hrun. rewrite attempts_cons.
    destruct (run_attempt file (net s)) as [[e|r] n1] eqn:Hatt;
      apply IH in Hrun as (Hnet & (added & Herr & Hrep) & Hcount & Hmono);
      cbn [net afterFailure afterSuccess errorList processed fst snd] in *.
    + split; [exact Hnet|]. split; [|split].
      * eexists (_ :: added). rewrite Herr, <- app_assoc. split; [reflexivity|].
        cbn [failuresOf]. constructor; [|exact Hrep].
        repeat split.
      * rewrite Hcount, length_app. simpl. lia.
      * exact Hmono.
    + split; [exact Hnet|]. split; [|split].
      * exists added. split; [exact Herr | exact Hrep].
      * rewrite Hcount. simpl. lia.
      * lia.
Qed.

(** The loop only touches the row of its own job, and leaves the totals
    and the status of that row alone; after each iteration the row holds
    the current count of processed files. *)
Lemma uploadAll_job (files : list Scanned.File) :
  forall acc s acc' s' j,
    run_uploadAll files acc s = (inr acc', s') ->
    sync_jobs (db s) !! jid = Some j ->
    filesProcessed j = processed acc ->
    exists j',
      sync_jobs (db s') !! jid = Some j' /\
      filesProcessed j' = processed acc' /\
      filesTotal j' = filesTotal j /\
      jobStatus j' = jobStatus j /\
      jobId j' = jobId j.
Proof.
  induction files as [|file rest IH]; intros acc s acc' s' j Hrun Hj Hp.
  - inversion Hrun; subst. exists j. auto.
  - apply uploadAll_cons_inr in Hrun.
    destruct (run_attempt file (net s)) as [[e|r] n1] eqn:Hatt.
    + destruct (IH _ _ _ _
                  (mkSyncJob (jobId j) (jobTenantId j) (jobMappingId j)
                     (jobStatus j) (startedAt j) (completedAt j)
                     (filesTotal j) (processed acc)
                     (Z.of_nat (length (errorList acc)) + 1)
                     (bytesTotal j) (transferred acc) (errors j))
                  Hrun)
        as (j' & Hj' & Hp' & Ht & Hs & Hi).
      * cbn. rewrite lookup_alter_eq, Hj. reflexivity.
      * reflexivity.
      * exists j'. auto.
    + destruct (IH _ _ _ _
                  (mkSyncJob (jobId j) (jobTenantId j) (jobMappingId j)
                     (jobStatus j) (startedAt j) (completedAt j)
                     (filesTotal j) (processed acc + 1) (filesFailed j)
                     (bytesTotal j)
                     (transferred acc + Scanned.size file) (errors j))
                  Hrun)
        as (j' & Hj' & Hp' & Ht & Hs & Hi).
      * cbn. rewrite lookup_alter_eq, Hj. reflexivity.
      * reflexivity.
      * exists j'. auto.
Qed.

Lemma keyFor_inj (f g : Scanned.File) :
  keyFor tenant mapping f = keyFor tenant mapping g ->
  Scanned.path f = Scanned.path g.
Proof. unfold keyFor. now intros [= ->]. Qed.

(** Rows of other keys are not touched by the loop, however it ends. *)
Lemma uploadAll_ledger_frame (files : list Scanned.File) :
  forall acc s r s' k,
    run_uploadAll files acc s = (r, s') ->
    (forall file, file ∈ files -> k <> keyFor tenant mapping file) ->
    synced_files (db s') !! k = synced_files (db s) !! k.
Proof.
  induction files as [|file rest IH]; intros acc s r s' k Hrun Hk.
  - now inversion Hrun; subst.
  - rewrite uploadAll_step in Hrun.
    assert (Hne : keyFor tenant mapping file <> k).
    { intros Heq. apply (Hk file); [constructor | now symmetry]. }
    assert (Hrest : forall f, f ∈ rest -> k <> keyFor tenant mapping f).
    { intros f Hf. apply Hk. now constructor. }
    destruct (dated file); [|now injection Hrun as _ <-].
    destruct (run_attempt file (net s)) as [[e|r0] n1] eqn:Hatt;
      rewrite (IH _ _ _ _ k Hrun Hrest); cbn;
      now rewrite lookup_insert_ne.
Qed.

(** With one scanned file per path, the loop leaves for each file the
    row that records the outcome of its attempt. *)
Lemma uploadAll_ledger_recorded (files : list Scanned.File) :
  forall acc s acc' s',
    run_uploadAll files acc s = (inr acc', s') ->
    NoDup (Scanned.path <$> files) ->
    forall i file o,
      files !! i = Some file ->
      fst (run_attempts files (net s)) !! i = Some o ->
      exists r,
        synced_files (db s') !! keyFor tenant mapping file = Some r /\
        recorded file o r.
Proof.
  induction files as [|file0 rest IH];
    intros acc s acc' s' Hrun Hnd i file o Hfile Hout.
  - discriminate.
  - apply uploadAll_cons_inr in Hrun. rewrite attempts_cons in Hout.
    rewrite fmap_cons in Hnd. apply NoDup_cons in Hnd as [Hnotin Hnd].
    destruct i as [|i].
    + simpl in Hfile, Hout. injection Hfile as <-. injection Hout as <-.
      assert (Hfresh :
        forall f, f ∈ rest -> keyFor tenant mapping file0
                              <> keyFor tenant mapping f).
      { intros f Hf Heq. apply Hnotin. apply keyFor_inj in Heq.
        rewrite Heq. apply list_elem_of_fmap. now exists f. }
      destruct (run_attempt file0 (net s)) as [[e|r] n1] eqn:Hatt;
        rewrite (uploadAll_ledger_frame _ _ _ _ _ _ Hrun Hfresh); cbn;
        rewrite lookup_insert_eq; eexists; split; try reflexivity.
      * repeat split.
      * destruct r as [remote item]. repeat split.
    + simpl in Hfile, Hout.
      destruct (run_attempt file0 (net s)) as [[e|r] n1] eqn:Hatt;
        simpl in Hout; eapply IH; eauto.
Qed.

Lemma attempts_length (files : list Scanned.File) :
  forall n, length (fst (run_attempts files n)) = length files.
Proof.
  induction files as [|file rest IH]; intros n; [reflexivity|].
  rewrite attempts_cons. cbn [fst length]. now rewrite IH.
Qed.

End Loop.


Lemma NoDup_fmap_filter {A B : Type} (f : A -> B) (p : A -> bool)
    (l : list A) :
  NoDup (f <$> l) -> NoDup (f <$> List.filter p l).
Proof.
  induction l as [|x l IH]; cbn; intros Hnd; [constructor|].
  apply NoDup_cons in Hnd as [Hx Hnd].
  destruct (p x); [|now apply IH].
  cbn. apply NoDup_cons. split; [|now apply IH].
  intros Hin. apply Hx.
  apply list_elem_of_fmap in Hin as (y & -> & Hy).
  apply list_elem_of_fmap. exists y. split; [reflexivity|].
  apply list_elem_of_In in Hy. apply filter_In in Hy as [Hy _].
  now apply list_elem_of_In.
Qed.

Lemma NoDup_fmap_eq {A B : Type} (f : A -> B) (l : list A) (x y : A) :
  NoDup (f <$> l) -> x ∈ l -> y ∈ l -> f x = f y -> x = y.
Proof.
  induction l as [|z l IH]; intros Hnd Hx Hy Heq.
  - now apply elem_of_nil in Hx.
  - cbn in Hnd. apply NoDup_cons in Hnd as [Hz Hnd].
    apply elem_of_cons in Hx as [->|Hx]; apply elem_of_cons in Hy as [->|Hy].
    + reflexivity.
    + exfalso. apply Hz. rewrite Heq. apply list_elem_of_fmap. now exists y.
    + exfalso. apply Hz. rewrite <- Heq. apply list_elem_of_fmap.
      now exists x.
    + now apply IH.
Qed.

Lemma filter_nil_false {A : Type} (p : A -> bool) (l : list A) :
  List.filter p l = [] <-> forall x, x ∈ l -> p x = false.
Proof.
  induction l as [|y l IH]; cbn.
  - split; [intros _ x Hx; now apply elem_of_nil in Hx | reflexivity].
  - destruct (p y) eqn:Hy.
    + split; [discriminate|]. intros H.
      rewrite (H y) in Hy; [discriminate | constructor].
    + rewrite IH. split.
      * intros H x Hx. apply elem_of_cons in Hx as [->|Hx]; auto.
      * intros H x Hx. apply H. now constructor.
Qed.

(** No failure: every outcome is a success. *)
Lemma failuresOf_nil {A : Type} (files : list Scanned.File) :
  forall (outcomes : list (Exn + A)),
    length outcomes = length files ->
    failuresOf files outcomes = [] ->
    forall i o, outcomes !! i = Some o -> exists r, o = inr r.
Proof.
  induction files as [|file rest IH]; intros outcomes Hlen Hnil i o Ho.
  - destruct outcomes; [discriminate | discriminate].
  - destruct outcomes as [|o0 outs]; [discriminate|].
    destruct o0 as [e|r0]; [discriminate|].
    destruct i as [|i].
    + simpl in Ho. injection Ho as <-. now exists r0.
    + simpl in Ho. eapply (IH outs); eauto.
Qed.

Section Runs.
Context {W : Type} (api : Api W) (platform : Platform) (host : Host W).
Variables (tenant : Tenant.Config) (mapping : Mapping.t).

Local Abbreviation run_sync s := (syncMapping api platform host tenant mapping s).
Local Abbreviation needing s files := (filesNeedingSync (db s) tenant mapping files).

(** How the primitive steps of the engine run. *)

Lemma bind_readDb {A B} (f : Db -> A) (k : A -> M (Sys W) B) (s : Sys W) :
  bind (readDb f) k s = k (f (db s)) s.
Proof. reflexivity. Qed.

Lemma bind_writeDb {B} (f : Db -> Db) (k : unit -> M (Sys W) B) (s : Sys W) :
  bind (writeDb f) k s = k tt (mkSys (f (db s)) (net s) (ticks s)).
Proof. reflexivity. Qed.

Lemma bind_newDate {B} (k : string -> M (Sys W) B) (s : Sys W) :
  bind (newDate host) k s
  = k (isoTime host (ticks s)) (mkSys (db s) (net s) (S (ticks s))).
Proof. reflexivity. Qed.

Lemma bind_newJobId {B} (k : string -> M (Sys W) B) (s : Sys W) :
  bind (newJobId host) k s
  = k (jobIdAt host (ticks s)) (mkSys (db s) (net s) (S (ticks s))).
Proof. reflexivity. Qed.

Lemma bind_scanSource {B} (k : list Scanned.File -> M (Sys W) B)
    (s : Sys W) :
  bind (scanSource host mapping) k s
  = match scan host mapping (world (net s)) with
    | inl e => (inl e, s)
    | inr files => k files s
    end.
Proof. unfold bind, scanSource. now destruct (scan host mapping _). Qed.

Lemma bind_liftNet {A B} (m : M (Net W) A) (k : A -> M (Sys W) B)
    (s : Sys W) :
  bind (liftNet m) k s
  = match m (net s) with
    | (inl e, n1) => (inl e, mkSys (db s) n1 (ticks s))
    | (inr a, n1) => k a (mkSys (db s) n1 (ticks s))
    end.
Proof. unfold bind, liftNet. now destruct (m (net s)) as [[e|a] n1]. Qed.

Lemma bind_ret {S A B} (a : A) (k : A -> M S B) (s : S) :
  bind (ret a) k s = k a s.
Proof. reflexivity. Qed.

Ltac run_steps :=
  repeat first
    [ rewrite bind_readDb | rewrite bind_writeDb | rewrite bind_newDate
    | rewrite bind_newJobId | rewrite bind_ret
    | progress cbn [db net ticks world fst snd] ].

(** [syncMapping] up to the [try] block. *)
Lemma run_start (s : Sys W) :
  run_sync s
  = let jid := jobIdAt host (ticks s) in
    match sync_jobs (db s) !! jid with
    | Some _ => (inl (Error "UNIQUE constraint failed: sync_jobs.id"),
                 mkSys (db s) (net s) (S (S (ticks s))))
    | None =>
        let s1 :=
          mkSys (mkDb (synced_files (db s))
                   (<[jid := newJob jid (Tenant.id tenant)
                               (Some (Mapping.id mapping))
                               (isoTime host (S (ticks s)))]>
                      (sync_jobs (db s))))
                (net s) (S (S (ticks s))) in
        match syncBody api platform host tenant mapping jid s1 with
        | (inl e, s2) =>
            (inr (Aborted, getJob (db (aborted host mapping jid e s2)) jid),
             aborted host mapping jid e s2)
        | (inr r, s2) => (inr r, s2)
        end
    end.
Proof.
  unfold syncMapping. run_steps. unfold createJob.
  destruct (sync_jobs (db s) !! jobIdAt host (ticks s)); [reflexivity|].
  cbn zeta. run_steps. unfold tryCatch.
  destruct (syncBody api platform host tenant mapping _ _) as [[e|r] s2];
    [|reflexivity].
  run_steps. reflexivity.
Qed.

(** The [try] block, entered in a state [s1]. *)
Lemma body_run (jid : string) (s1 : Sys W) :
  syncBody api platform host tenant mapping jid s1
  = match scan host mapping (world (net s1)) with
    | inl e => (inl e, s1)
    | inr files =>
        let filesToSync := needing s1 files in
        let d2 := setJobTotals (db s1) jid (Z.of_nat (length filesToSync))
                               (sumSizes filesToSync) in
        match filesToSync with
        | [] =>
            let d3 := completeJob d2 jid job_completed []
                                  (isoTime host (ticks s1)) in
            (inr (UpToDate, getJob d3 jid),
             mkSys d3 (net s1) (S (ticks s1)))
        | _ :: _ =>
            match connect api platform tenant mapping (net s1) with
            | (inl e, n1) => (inl e, mkSys d2 n1 (ticks s1))
            | (inr conn, n1) =>
                match uploadAll api platform host tenant mapping jid
                        (fst conn) (snd conn) filesToSync
                        (mkProgress [] 0 0) (mkSys d2 n1 (ticks s1)) with
                | (inl e, s3) => (inl e, s3)
                | (inr acc, s3) =>
                    let d4 :=
                      completeJob (db s3) jid
                        (finalStatus (Z.of_nat (length (errorList acc)))
                                     (Z.of_nat (length filesToSync)))
                        (errorList acc) (isoTime host (ticks s3)) in
                    (inr (Finalized, getJob d4 jid),
                     mkSys d4 (net s3) (S (ticks s3)))
                end
            end
        end
    end.
Proof.
  unfold syncBody. rewrite bind_scanSource.
  destruct (scan host mapping (world (net s1))) as [e|files]; [reflexivity|].
  run_steps. cbn zeta.
  destruct (needing s1 files) as [|f fts] eqn:Hfts.
  - cbn [length Z.of_nat Z.eqb]. run_steps. reflexivity.
  - replace (Z.of_nat (length (f :: fts)) =? 0) with false
      by (symmetry; apply Z.eqb_neq; simpl length; lia).
    rewrite bind_liftNet. cbn [db net ticks].
    destruct (connect api platform tenant mapping (net s1)) as [[e|conn] n1];
      [reflexivity|].
    unfold bind at 1.
    destruct (uploadAll _ _ _ _ _ _ _ _ _ _ _) as [[e|acc] s3];
      [reflexivity|].
    run_steps. reflexivity.
Qed.

Lemma dryLoop_run (files : list Scanned.File) :
  forall (acc : list Scanned.File) (n : Z) (s : Sys W),
    dryLoop tenant mapping files acc n s
    = (inr ((acc ++ needing s files)%list,
            n + (Z.of_nat (length files)
                 - Z.of_nat (length (needing s files)))), s).
Proof.
  induction files as [|file rest IH]; intros acc n s.
  - cbn. unfold ret. rewrite app_nil_r. repeat f_equal. lia.
  - cbn [dryLoop]. rewrite bind_readDb.
    unfold filesNeedingSync. cbn [List.filter].
    destruct (needsSync (db s) _ _ _ _).
    + rewrite IH. unfold filesNeedingSync. rewrite <- app_assoc.
      cbn [app length]. do 3 f_equal. lia.
    + rewrite IH. unfold filesNeedingSync.
      cbn [length]. do 3 f_equal. lia.
Qed.

Lemma sumSizes_foldr (files : list Scanned.File) :
  sumSizes files = foldr Z.add 0 (Scanned.size <$> files).
Proof.
  unfold sumSizes.
  assert (H : forall a, fold_left (fun sum f => sum + Scanned.size f) files a
                        = a + foldr Z.add 0 (Scanned.size <$> files)).
  { induction files as [|f rest IH]; intros a; cbn; [lia|].
    rewrite IH. lia. }
  now rewrite H.
Qed.

Lemma needsSync_ext (d d' : Db) (t m p h : string) :
  synced_files d !! (t, m, p) = synced_files d' !! (t, m, p) ->
  needsSync d t m p h = needsSync d' t m p h.
Proof. intros H. unfold needsSync, getSyncedFile. now rewrite H. Qed.

Lemma needing_ext (d d' : Db) (files : list Scanned.File) :
  synced_files d = synced_files d' ->
  filesNeedingSync d tenant mapping files
  = filesNeedingSync d' tenant mapping files.
Proof.
  intros H. unfold filesNeedingSync. apply filter_ext. intros f.
  apply needsSync_ext. now rewrite H.
Qed.

(** The row of the job when the upload loop starts. *)
Lemma started_row (d : Db) (jid : string) (j : SyncJob) (total bytes : Z) :
  sync_jobs d !! jid = Some j ->
  sync_jobs (setJobTotals d jid total bytes) !! jid
  = Some (mkSyncJob (jobId j) (jobTenantId j) (jobMappingId j) job_running
            (startedAt j) (completedAt j) total (filesProcessed j)
            (filesFailed j) bytes (bytesTransferred j) (errors j)).
Proof. intros Hj. cbn. now rewrite lookup_alter_eq, Hj. Qed.

Lemma completed_row (d : Db) (jid : string) (st : JobStatus)
    (errs : list SyncError) (now : string) :
  getJob (completeJob d jid st errs now) jid
  = (fun j => mkSyncJob (jobId j) (jobTenantId j) (jobMappingId j) st
                (startedAt j) (Some now) (filesTotal j) (filesProcessed j)
                (filesFailed j) (bytesTotal j) (bytesTransferred j) errs)
    <$> sync_jobs d !! jid.
Proof. unfold getJob. cbn. now rewrite lookup_alter_eq. Qed.

Lemma finalStatus_cases (errs total : Z) :
  0 <= errs <= total -> 0 < total ->
  (errs = 0 -> finalStatus errs total = job_completed) /\
  (errs < total -> finalStatus errs total = job_completed) /\
  (finalStatus errs total = job_failed <-> errs = total) /\
  (finalStatus errs total = job_completed
   \/ finalStatus errs total = job_failed).
Proof.
  intros Hrange Hpos. unfold finalStatus.
  destruct (errs =? 0) eqn:E0; [apply Z.eqb_eq in E0|apply Z.eqb_neq in E0].
  - repeat split; auto; try discriminate. intros; lia.
  - destruct (errs <? total) eqn:E1;
      [apply Z.ltb_lt in E1|apply Z.ltb_ge in E1].
    + repeat split; auto; try discriminate; intros; lia.
    + repeat split; auto; try discriminate; intros; lia.
Qed.

End Runs.
End EngineFacts.

Module EngineClaims.
Import Effects JsString Graph Tracker Engine EngineFacts.

Section Claims.
Context {W : Type} (api : Api W) (platform : Platform) (host : Host W).
Variables (tenant : Tenant.Config) (mapping : Mapping.t).

Local Abbreviation run_sync s := (syncMapping api platform host tenant mapping s).
Local Abbreviation needing s files := (filesNeedingSync (db s) tenant mapping files).

(** C8.  [dryRun] leaves the whole state as it found it: no row of
    [synced_files] or [sync_jobs] changes, no request is sent and the
    remote does not move.  When the scan succeeds it returns the scanned
    files for which [needsSync] holds, in scan order, the number of the
    other scanned files, and the sum of the sizes of the returned files;
    when the scan throws, so does [dryRun]. *)
Theorem dryRun_reads_only (s : Sys W) :
  snd (dryRun host tenant mapping s) = s /\
  fst (dryRun host tenant mapping s)
  = match scan host mapping (world (net s)) with
    | inl e => inl e
    | inr files =>
        let candidates :=
          List.filter
            (fun file => needsSync (db s) (Tenant.id tenant)
                           (Mapping.id mapping) (Scanned.path file)
                           (Scanned.hash file)) files in
        inr (mkDryRun candidates
               (Z.of_nat (length files) - Z.of_nat (length candidates))
               (foldr Z.add 0 (Scanned.size <$> candidates)))
    end.
Proof.
  unfold dryRun. rewrite (bind_scanSource host mapping).
  destruct (scan host mapping (world (net s))) as [e|files];
    [split; reflexivity|].
  unfold bind. rewrite dryLoop_run. cbn [fst snd app].
  rewrite sumSizes_foldr. split; reflexivity.
Qed.

(** C4.  When a run of [syncMapping] reaches the finalization after the
    upload loop, the job it returns is the row it wrote; the number of
    processed files and the number of errors add up to the (positive)
    number of files in the batch; the status is [completed] when the error
    list is empty and when there are fewer errors than files, and it is
    [failed] exactly when there are as many errors as files, that is when
    every file of the batch failed. *)
Theorem syncMapping_final_status (s s' : Sys W) (oj : option SyncJob) :
  run_sync s = (inr (Finalized, oj), s') ->
  exists job,
    oj = Some job /\
    getJob (db s') (jobIdAt host (ticks s)) = Some job /\
    0 < filesTotal job /\
    filesProcessed job + Z.of_nat (length (errors job)) = filesTotal job /\
    (errors job = [] -> jobStatus job = job_completed) /\
    (Z.of_nat (length (errors job)) < filesTotal job ->
     jobStatus job = job_completed) /\
    (jobStatus job = job_failed <->
     Z.of_nat (length (errors job)) = filesTotal job) /\
    (jobStatus job = job_completed \/ jobStatus job = job_failed).
Proof.
  intros Hrun. rewrite run_start in Hrun. cbn zeta in Hrun.
  set (jid := jobIdAt host (ticks s)) in *.
  destruct (sync_jobs (db s) !! jid) eqn:Hfresh; [discriminate|].
  rewrite body_run in Hrun. cbn [db net ticks world] in Hrun.
  destruct (scan host mapping (world (net s))) as [e|files];
    [discriminate|].
  cbn zeta in Hrun.
  match type of Hrun with
  | context [filesNeedingSync ?d tenant mapping files] =>
      destruct (filesNeedingSync d tenant mapping files) as [|f batch]
  end; [discriminate|].
  destruct (connect api platform tenant mapping (net s)) as [[e|conn] n1];
    [discriminate|].
  match type of Hrun with
  | context [uploadAll api platform host tenant mapping jid ?a ?b ?c ?d ?e] =>
      destruct (uploadAll api platform host tenant mapping jid a b c d e)
        as [[e'|acc] s3] eqn:Hup
  end; [discriminate|].
  injection Hrun as <- <-.
  pose proof Hup as Hcount.
  apply uploadAll_progress in Hcount as (_ & _ & Hcount & Hmono).
  cbn [processed errorList length] in Hcount, Hmono.
  eapply uploadAll_job in Hup as (j3 & Hj3 & Hp3 & Ht3 & _ & _);
    [| cbn [db]; apply started_row; apply lookup_insert_eq | reflexivity].
  cbn [filesTotal] in Ht3.
  rewrite completed_row, Hj3. cbn [fmap option_fmap option_map].
  eexists. split; [reflexivity|].
  cbn [db]. rewrite completed_row, Hj3. cbn [fmap option_fmap option_map].
  split; [reflexivity|].
  cbn [filesTotal filesProcessed errors jobStatus].
  rewrite Ht3, Hp3.
  simpl length in *.
  split; [lia|].
  split; [lia|].
  destruct (finalStatus_cases (Z.of_nat (length (errorList acc)))
              (Z.of_nat (S (length batch))))
    as (H0 & Hlt & Hfail & Hterm); [lia | lia |].
  split; [intros Hnil; apply H0; now rewrite Hnil|].
  split; [exact Hlt|]. split; [exact Hfail | exact Hterm].
Qed.


(** C2.  Let a first run of [syncMapping] end with a job that is
    [completed] with an empty error list (every upload succeeded), over a
    scan that lists each path once, and let the next scan find the same
    files.  Then [needsSync] is false in the resulting ledger for every
    scanned file, and the next run (with a job id that is not taken)
    returns at once: its job is [completed] with zero files in total and no
    error, no request is sent, and no ledger row changes. *)
Theorem syncMapping_idempotent (s0 s1 : Sys W) (exit1 : Exit)
    (job1 : SyncJob) (files : list Scanned.File) :
  run_sync s0 = (inr (exit1, Some job1), s1) ->
  jobStatus job1 = job_completed ->
  errors job1 = [] ->
  scan host mapping (world (net s0)) = inr files ->
  scan host mapping (world (net s1)) = inr files ->
  NoDup (Scanned.path <$> files) ->
  sync_jobs (db s1) !! jobIdAt host (ticks s1) = None ->
  (forall file,
      file ∈ files ->
      needsSync (db s1) (Tenant.id tenant) (Mapping.id mapping)
                (Scanned.path file) (Scanned.hash file) = false) /\
  exists job2 s2,
    run_sync s1 = (inr (UpToDate, Some job2), s2) /\
    jobStatus job2 = job_completed /\
    filesTotal job2 = 0 /\
    errors job2 = [] /\
    net s2 = net s1 /\
    synced_files (db s2) = synced_files (db s1).
Proof.
  intros Hrun1 Hst Herrs Hscan0 Hscan1 Hnd Hfresh2.
  assert (Hfalse : forall file,
             file ∈ files ->
             needsSync (db s1) (Tenant.id tenant) (Mapping.id mapping)
                       (Scanned.path file) (Scanned.hash file) = false).
  { rewrite run_start in Hrun1. cbn zeta in Hrun1.
    set (jid := jobIdAt host (ticks s0)) in *.
    destruct (sync_jobs (db s0) !! jid) eqn:Hfresh; [discriminate|].
    rewrite body_run in Hrun1. cbn [db net ticks world] in Hrun1.
    rewrite Hscan0 in Hrun1. cbn zeta in Hrun1.
    rewrite (needing_ext tenant mapping _ (db s0) files) in Hrun1
      by reflexivity.
    pose proof (NoDup_fmap_filter Scanned.path
                  (fun file => needsSync (db s0) (Tenant.id tenant)
                                 (Mapping.id mapping) (Scanned.path file)
                                 (Scanned.hash file)) files Hnd) as Hndb.
    fold (needing s0 files) in Hndb.
    destruct (needing s0 files) as [|f0 rest] eqn:Hbatch.
    - (* nothing needed sync *)
      injection Hrun1 as _ _ <-. intros file Hfile. cbn [db].
      rewrite (needsSync_ext _ (db s0)) by reflexivity.
      unfold filesNeedingSync in Hbatch.
      now apply (proj1 (filter_nil_false _ _) Hbatch).
    - set (batch := f0 :: rest) in *.
      assert (Hin : forall file, file ∈ batch <->
                 file ∈ files /\
                 needsSync (db s0) (Tenant.id tenant) (Mapping.id mapping)
                           (Scanned.path file) (Scanned.hash file) = true).
      { intros file. rewrite <- Hbatch. unfold filesNeedingSync.
        rewrite !list_elem_of_In. apply filter_In. }
      clearbody batch.
      destruct (connect api platform tenant mapping (net s0))
        as [[e|conn] n1].
      { injection Hrun1 as _ Hjob _. rewrite completed_row in Hjob.
        erewrite started_row in Hjob by apply lookup_insert_eq.
        cbn [fmap option_fmap option_map] in Hjob.
        injection Hjob as <-. discriminate. }
      match type of Hrun1 with
      | context [uploadAll api platform host tenant mapping jid ?a ?b ?c ?d
                           ?s2] =>
          destruct (uploadAll api platform host tenant mapping jid a b c d
                              s2) as [[e|acc] s3] eqn:Hup
      end.
      { (* the loop threw: the job is failed *)
        injection Hrun1 as _ Hjob _. rewrite completed_row in Hjob.
        destruct (sync_jobs (db s3) !! jid);
          cbn [fmap option_fmap option_map] in Hjob; [|discriminate].
        injection Hjob as <-. discriminate. }
      injection Hrun1 as _ Hjob <-.
      rewrite completed_row in Hjob.
      destruct (sync_jobs (db s3) !! jid);
        cbn [fmap option_fmap option_map] in Hjob; [|discriminate].
      injection Hjob as <-. cbn [errors] in Herrs.
      pose proof Hup as Hprog.
      apply uploadAll_progress in Hprog as (_ & (added & Hadd & Hrep) & _).
      cbn [errorList net app] in Hadd, Hrep. rewrite Herrs in Hadd.
      subst added. apply Forall2_nil_inv_l in Hrep.
      intros file Hfile. cbn [db].
      destruct (needsSync (db s0) (Tenant.id tenant) (Mapping.id mapping)
                          (Scanned.path file) (Scanned.hash file)) eqn:Hneed.
      + (* the file was in the batch: it has a synced row now *)
        assert (Hb : file ∈ batch) by (apply Hin; auto).
        apply list_elem_of_lookup in Hb as (i & Hi).
        destruct (lookup_lt_is_Some_2
                    (fst (attempts api platform host tenant (fst conn)
                                   (snd conn) batch n1)) i) as (o & Ho).
        { rewrite attempts_length. now apply lookup_lt_Some in Hi. }
        destruct (failuresOf_nil batch _ (attempts_length _ _ _ _ _ _ _ _)
                    Hrep i o Ho) as ((remote & item) & ->).
        destruct (uploadAll_ledger_recorded api platform host tenant mapping
                    jid _ _ batch _ _ _ _ Hup Hndb i file _ Hi Ho)
          as (r & Hr & Hh & _ & Hsy & _).
        unfold needsSync, getSyncedFile. cbn [synced_files completeJob alterJob].
        unfold keyFor in Hr. rewrite Hr, Hsy, Hh.
        rewrite String.eqb_refl. reflexivity.
      + (* the file was up to date: its row is untouched *)
        rewrite <- Hneed. apply needsSync_ext.
        cbn [synced_files completeJob alterJob].
        rewrite (uploadAll_ledger_frame api platform host tenant mapping jid
                   _ _ batch _ _ _ _
                   (Tenant.id tenant, Mapping.id mapping, Scanned.path file)
                   Hup); [reflexivity|].
        intros g Hg Hkey. apply Hin in Hg as [Hg Hgneed].
        assert (file = g).
        { apply (NoDup_fmap_eq Scanned.path files); auto.
          now injection Hkey. }
        subst g. congruence. }
  split; [exact Hfalse|].
  assert (Hnone : needing s1 files = []).
  { unfold filesNeedingSync. apply filter_nil_false. exact Hfalse. }
  rewrite run_start. cbn zeta. set (jid := jobIdAt host (ticks s1)) in *.
  rewrite Hfresh2. rewrite body_run. cbn [db net ticks world].
  rewrite Hscan1. cbn zeta.
  rewrite (needing_ext tenant mapping _ (db s1) files) by reflexivity.
  rewrite Hnone. rewrite completed_row.
  erewrite started_row by apply lookup_insert_eq.
  cbn [fmap option_fmap option_map].
  eexists _, _. split; [reflexivity|].
  repeat split.
Qed.

End Claims.

Lemma syncMapping_final_status_witness :
  exists job,
    Sim.jobOf (Sim.sync Sim.partial) = Some job /\
    getJob (db (snd (Sim.sync Sim.partial)))
           (jobIdAt (Sim.host Sim.sample) (ticks Sim.partial)) = Some job /\
    0 < filesTotal job /\
    filesProcessed job + Z.of_nat (length (errors job)) = filesTotal job /\
    (errors job = [] -> jobStatus job = job_completed) /\
    (Z.of_nat (length (errors job)) < filesTotal job ->
     jobStatus job = job_completed) /\
    (jobStatus job = job_failed <->
     Z.of_nat (length (errors job)) = filesTotal job) /\
    (jobStatus job = job_completed \/ jobStatus job = job_failed).
Proof.
  apply (syncMapping_final_status Sim.api Sim.platform (Sim.host Sim.sample)
           Sim.tenant Sim.mapping Sim.partial (snd (Sim.sync Sim.partial))
           (Sim.jobOf (Sim.sync Sim.partial))).
  vm_compute. reflexivity.
Defined.


Lemma syncMapping_idempotent_witness :
  (forall file,
      file ∈ Sim.sample ->
      needsSync (db (snd (Sim.sync Sim.clean))) "t1" "m1"
                (Scanned.path file) (Scanned.hash file) = false) /\
  exists job2 s2,
    Sim.sync (snd (Sim.sync Sim.clean)) = (inr (UpToDate, Some job2), s2) /\
    jobStatus job2 = job_completed /\
    filesTotal job2 = 0 /\
    errors job2 = [] /\
    net s2 = net (snd (Sim.sync Sim.clean)) /\
    synced_files (db s2) = synced_files (db (snd (Sim.sync Sim.clean))).
Proof.
  destruct (Sim.jobOf (Sim.sync Sim.clean)) as [job1|] eqn:Hjob;
    [|vm_compute in Hjob; discriminate].
  apply (syncMapping_idempotent Sim.api Sim.platform (Sim.host Sim.sample)
           Sim.tenant Sim.mapping Sim.clean (snd (Sim.sync Sim.clean))
           Finalized job1 Sim.sample).
  - vm_compute in Hjob. injection Hjob as <-. vm_compute. reflexivity.
  - vm_compute in Hjob. injection Hjob as <-. reflexivity.
  - vm_compute in Hjob. injection Hjob as <-. reflexivity.
  - reflexivity.
  - reflexivity.
  - refine (@bool_decide_unpack _ (NoDup_dec _) _). vm_compute. exact I.
  - vm_compute. reflexivity.
Defined.

End EngineClaims.

(* ===================================================================== *)
(** * Further properties of the ledger                                    *)
(* ===================================================================== *)

Module TrackerExtras.
Import Tracker TrackerQueries.

(** X1.  After a row has been upserted, its file needs sync for every
    digest when the row is [failed], and otherwise exactly for the digests
    that differ from the stored one; the answer for every other key is
    what it was before. *)
Theorem needsSync_after_upsert (db : Db) (f : SyncedFile)
    (t m p h : string) :
  needsSync (upsertSyncedFile db f) t m p h
  = if decide ((t, m, p) = keyOf f)
    then (if decide (status f = failed) then true
          else negb (String.eqb (fileHash f) h))
    else needsSync db t m p h.
Proof.
  unfold needsSync, getSyncedFile, upsertSyncedFile. cbn [synced_files].
  destruct (decide ((t, m, p) = keyOf f)) as [->|Hne].
  - rewrite lookup_insert_eq.
    destruct (decide (status f = failed)); [reflexivity|].
    now destruct (String.eqb (fileHash f) h).
  - rewrite lookup_insert_ne by congruence. reflexivity.
Qed.

(** X2.  [updateFileStatus] keeps the digest of the row: afterwards the
    file needs sync when there is no row (the update then changes
    nothing), when the new status is [failed], or when the stored digest
    differs from the current one. *)
Theorem needsSync_after_updateFileStatus (db : Db) (t m p : string)
    (st : SyncStatus) (msg : option string) (now h : string) :
  needsSync (updateFileStatus db t m p st msg now) t m p h
  = match getSyncedFile db t m p with
    | None => true
    | Some r =>
        if decide (st = failed) then true
        else negb (String.eqb (fileHash r) h)
    end
  /\ (getSyncedFile db t m p = None ->
      updateFileStatus db t m p st msg now = db).
Proof.
  split.
  - unfold needsSync, getSyncedFile, updateFileStatus. cbn [synced_files].
    rewrite lookup_alter_eq.
    destruct (synced_files db !! (t, m, p)) as [r|]; cbn; [|reflexivity].
    destruct (decide (st = failed)); [reflexivity|].
    now destruct (String.eqb (fileHash r) h).
  - unfold getSyncedFile, updateFileStatus. intros Hnone.
    rewrite alter_id' by exact Hnone. now destruct db.
Qed.

Lemma needsSync_after_updateFileStatus_witness :
  needsSync (updateFileStatus emptyDb "t1" "m1" "/data/a.txt" synced None
                              "2024-01-02T00:00:00Z")
            "t1" "m1" "/data/a.txt" "h1"
  = match getSyncedFile emptyDb "t1" "m1" "/data/a.txt" with
    | None => true
    | Some r =>
        if decide (synced = failed) then true
        else negb (String.eqb (fileHash r) "h1")
    end
  /\ updateFileStatus emptyDb "t1" "m1" "/data/a.txt" synced None
                      "2024-01-02T00:00:00Z" = emptyDb.
Proof.
  destruct (needsSync_after_updateFileStatus emptyDb "t1" "m1" "/data/a.txt"
              synced None "2024-01-02T00:00:00Z" "h1") as [H1 H2].
  split; [exact H1 | apply H2; reflexivity].
Defined.

(** X3.  [deleteSyncedFile] removes the row of its key, whether or not
    there was one: afterwards no row is found under the key and its file
    needs sync whatever its digest.  The row and the answer of [needsSync]
    under every other key are as before, and so are the jobs.  Deleting
    the row that was upserted under a key that had none gives back the
    ledger as it was. *)
Theorem deleteSyncedFile_forgets (db : Db) (t m p : string) :
  getSyncedFile (deleteSyncedFile db t m p) t m p = None /\
  (forall h, needsSync (deleteSyncedFile db t m p) t m p h = true) /\
  (forall t' m' p' h,
      (t', m', p') <> (t, m, p) ->
      getSyncedFile (deleteSyncedFile db t m p) t' m' p'
      = getSyncedFile db t' m' p' /\
      needsSync (deleteSyncedFile db t m p) t' m' p' h
      = needsSync db t' m' p' h) /\
  sync_jobs (deleteSyncedFile db t m p) = sync_jobs db /\
  (forall f,
      keyOf f = (t, m, p) ->
      getSyncedFile db t m p = None ->
      deleteSyncedFile (upsertSyncedFile db f) t m p = db).
Proof.
  assert (Hgone : getSyncedFile (deleteSyncedFile db t m p) t m p = None).
  { unfold getSyncedFile, deleteSyncedFile. cbn [synced_files].
    apply lookup_delete_eq. }
  assert (Hkept : forall t' m' p',
             (t', m', p') <> (t, m, p) ->
             getSyncedFile (deleteSyncedFile db t m p) t' m' p'
             = getSyncedFile db t' m' p').
  { intros t' m' p' Hne. unfold getSyncedFile, deleteSyncedFile.
    cbn [synced_files]. apply lookup_delete_ne. congruence. }
  split; [exact Hgone|].
  split; [intros h; unfold needsSync; now rewrite Hgone|].
  split.
  { intros t' m' p' h Hne. split; [now apply Hkept|].
    unfold needsSync. now rewrite Hkept. }
  split; [reflexivity|].
  intros f Hkey Hnone. unfold deleteSyncedFile, upsertSyncedFile.
  cbn [synced_files sync_jobs]. rewrite Hkey.
  rewrite delete_insert_eq, delete_id by exact Hnone. now destruct db.
Qed.

Lemma deleteSyncedFile_forgets_witness :
  getSyncedFile Sample.ledger "t1" "m1" "/data/a.txt"
  = Some (Sample.row "/data/a.txt" "h1" synced) /\
  needsSync Sample.ledger "t1" "m1" "/data/a.txt" "h1" = false /\
  getSyncedFile (deleteSyncedFile Sample.ledger "t1" "m1" "/data/a.txt")
                "t1" "m1" "/data/a.txt" = None /\
  needsSync (deleteSyncedFile Sample.ledger "t1" "m1" "/data/a.txt")
            "t1" "m1" "/data/a.txt" "h1" = true /\
  getSyncedFile (deleteSyncedFile Sample.ledger "t1" "m1" "/data/a.txt")
                "t1" "m1" "/data/c.txt"
  = Some (Sample.row "/data/c.txt" "h3" deleted) /\
  deleteSyncedFile
    (upsertSyncedFile (deleteSyncedFile Sample.ledger "t1" "m1" "/data/a.txt")
                      (Sample.row "/data/a.txt" "h9" pending))
    "t1" "m1" "/data/a.txt"
  = deleteSyncedFile Sample.ledger "t1" "m1" "/data/a.txt".
Proof.
  destruct (deleteSyncedFile_forgets Sample.ledger "t1" "m1" "/data/a.txt")
    as (Hgone & Hneeds & Hkept & _ & _).
  destruct (deleteSyncedFile_forgets
              (deleteSyncedFile Sample.ledger "t1" "m1" "/data/a.txt")
              "t1" "m1" "/data/a.txt")
    as (_ & _ & _ & _ & Hback).
  split; [reflexivity|]. split; [reflexivity|].
  split; [exact Hgone|]. split; [exact (Hneeds "h1")|].
  split.
  - destruct (Hkept "t1" "m1" "/data/c.txt" "h3") as [-> _];
      [discriminate | reflexivity].
  - apply Hback; [reflexivity | exact Hgone].
Defined.

(** X4.  The ledger holds one row per key: upserting a second row under
    the key of the first replaces it, with the same result as upserting
    the second row alone, and the number of rows does not grow. *)
Theorem upsert_same_key_overwrites (db : Db) (f g : SyncedFile) :
  keyOf f = keyOf g ->
  upsertSyncedFile (upsertSyncedFile db f) g = upsertSyncedFile db g /\
  getSyncedFile (upsertSyncedFile (upsertSyncedFile db f) g)
                (tenantId f) (mappingId f) (localPath f) = Some g /\
  size (synced_files (upsertSyncedFile (upsertSyncedFile db f) g))
  = size (synced_files (upsertSyncedFile db f)).
Proof.
  intros Hkey. unfold upsertSyncedFile, getSyncedFile.
  cbn [synced_files sync_jobs]. rewrite Hkey.
  split; [now rewrite insert_insert_eq|].
  split.
  - change (tenantId f, mappingId f, localPath f) with (keyOf f).
    rewrite Hkey. apply lookup_insert_eq.
  - apply map_size_insert_Some. rewrite lookup_insert_eq. eauto.
Qed.

Lemma upsert_same_key_overwrites_witness :
  upsertSyncedFile
    (upsertSyncedFile emptyDb (Sample.row "/data/a.txt" "h1" failed))
    (Sample.row "/data/a.txt" "h2" synced)
  = upsertSyncedFile emptyDb (Sample.row "/data/a.txt" "h2" synced) /\
  getSyncedFile
    (upsertSyncedFile
       (upsertSyncedFile emptyDb (Sample.row "/data/a.txt" "h1" failed))
       (Sample.row "/data/a.txt" "h2" synced))
    "t1" "m1" "/data/a.txt"
  = Some (Sample.row "/data/a.txt" "h2" synced) /\
  size (synced_files
          (upsertSyncedFile
             (upsertSyncedFile emptyDb (Sample.row "/data/a.txt" "h1" failed))
             (Sample.row "/data/a.txt" "h2" synced)))
  = size (synced_files
            (upsertSyncedFile emptyDb
               (Sample.row "/data/a.txt" "h1" failed))).
Proof.
  apply (upsert_same_key_overwrites emptyDb
           (Sample.row "/data/a.txt" "h1" failed)
           (Sample.row "/data/a.txt" "h2" synced)).
  reflexivity.
Defined.

(** X5.  The three job updates address a row by its id: for an id that
    has no row they change nothing, and [createJob] refuses an id that
    has one. *)
Theorem job_updates_need_the_row (db : Db) (jid : string) :
  getJob db jid = None ->
  (forall total bytes, setJobTotals db jid total bytes = db) /\
  (forall processed transferred failedCount,
      updateJobProgress db jid processed transferred failedCount = db) /\
  (forall st errs now, completeJob db jid st errs now = db) /\
  (forall tenant mapping now job db',
      createJob db jid tenant mapping now = Some (job, db') ->
      getJob db' jid = Some (newJob jid tenant mapping now) /\
      createJob db' jid tenant mapping now = None).
Proof.
  intros Hnone. unfold getJob in Hnone.
  unfold setJobTotals, updateJobProgress, completeJob, alterJob.
  repeat split; intros; try (rewrite alter_id' by exact Hnone; now destruct db).
  - unfold createJob in *. rewrite Hnone in *.
    match goal with H : Some _ = Some _ |- _ => injection H as <- <- end.
    unfold getJob. cbn. apply lookup_insert_eq.
  - unfold createJob in *. rewrite Hnone in *.
    match goal with H : Some _ = Some _ |- _ => injection H as <- <- end.
    cbn. now rewrite lookup_insert_eq.
Qed.

Lemma job_updates_need_the_row_witness :
  (forall total bytes, setJobTotals emptyDb "job_1" total bytes = emptyDb) /\
  (forall processed transferred failedCount,
      updateJobProgress emptyDb "job_1" processed transferred failedCount
      = emptyDb) /\
  (forall st errs now, completeJob emptyDb "job_1" st errs now = emptyDb) /\
  (forall tenant mapping now job db',
      createJob emptyDb "job_1" tenant mapping now = Some (job, db') ->
      getJob db' "job_1" = Some (newJob "job_1" tenant mapping now) /\
      createJob db' "job_1" tenant mapping now = None).
Proof.
  apply (job_updates_need_the_row emptyDb "job_1"). reflexivity.
Defined.

(** Counting the rows that satisfy [P] after a row has been added under
    a key that had none. *)
Lemma size_filter_insert_fresh (P : FileKey * SyncedFile -> Prop)
    `{!forall x, Decision (P x)} (m : gmap FileKey SyncedFile)
    (k : FileKey) (r : SyncedFile) :
  m !! k = None ->
  size (filter P (<[k := r]> m))
  = (if decide (P (k, r)) then S (size (filter P m)) else size (filter P m)).
Proof.
  intros Hk. rewrite map_filter_insert.
  destruct (decide (P (k, r))).
  - apply map_size_insert_None. apply map_lookup_filter_None_2. now left.
  - now rewrite delete_id.
Qed.

(** X6.  The counts of [getStats] partition the rows of the tenant by
    status: the total is the sum of the synced, pending and failed counts
    and of the rows that are syncing or deleted, so the three reported
    counts never add up to more than the total. *)
Theorem getStats_partition (db : Db) (tenant : string) :
  Stats.total (getStats db tenant)
  = Stats.synced (getStats db tenant) + Stats.pending (getStats db tenant)
    + Stats.failed (getStats db tenant)
    + countStatus db tenant syncing + countStatus db tenant deleted
  /\ Stats.synced (getStats db tenant) + Stats.pending (getStats db tenant)
     + Stats.failed (getStats db tenant)
     <= Stats.total (getStats db tenant).
Proof.
  assert (H : countRows db tenant
              = countStatus db tenant synced + countStatus db tenant pending
                + countStatus db tenant failed
                + countStatus db tenant syncing
                + countStatus db tenant deleted).
  { unfold countRows, countStatus.
    induction (synced_files db) as [|k r m Hk _ IH] using map_first_key_ind.
    - rewrite !map_filter_empty, !map_size_empty. reflexivity.
    - rewrite !size_filter_insert_fresh by exact Hk.
      destruct (decide (ofTenant tenant (k, r))) as [Ht|Ht].
      + destruct (status r) eqn:Hst; cbn [snd]; rewrite ?Hst;
          repeat first
            [ rewrite decide_True by (split; [exact Ht | reflexivity])
            | rewrite decide_False by (intros [_ ?]; discriminate) ];
          lia.
      + repeat rewrite decide_False by (intros [? _]; contradiction).
        lia. }
  cbn [getStats Stats.total Stats.synced Stats.pending Stats.failed].
  split; [exact H|].
  rewrite H. unfold countStatus. lia.
Qed.

(** X7.  The statistics of a tenant do not depend on the rows of the
    others: upserting or deleting a row of another tenant leaves them as
    they are. *)
Theorem getStats_other_tenant (db : Db) (f : SyncedFile) (tenant : string) :
  tenantId f <> tenant ->
  getStats (upsertSyncedFile db f) tenant = getStats db tenant /\
  getStats (deleteSyncedFile db (tenantId f) (mappingId f) (localPath f))
           tenant
  = getStats db tenant.
Proof.
  intros Hne.
  assert (Hins : forall (P : FileKey * SyncedFile -> Prop)
                        `{!forall x, Decision (P x)},
             (forall x, P x -> ofTenant tenant x) ->
             filter P (<[keyOf f := f]> (synced_files db))
             = filter P (synced_files db)).
  { intros P ? HP. apply map_filter_insert_not. intros y Hy.
    apply HP in Hy. unfold ofTenant, keyOf in Hy. cbn in Hy. congruence. }
  assert (Hdel : forall (P : FileKey * SyncedFile -> Prop)
                        `{!forall x, Decision (P x)},
             (forall x, P x -> ofTenant tenant x) ->
             filter P (delete (keyOf f) (synced_files db))
             = filter P (synced_files db)).
  { intros P ? HP. apply map_filter_delete_not. intros y _ Hy.
    apply HP in Hy. unfold ofTenant, keyOf in Hy. cbn in Hy. congruence. }
  unfold getStats, countRows, countStatus, upsertSyncedFile,
    deleteSyncedFile. cbn [synced_files].
  change (tenantId f, mappingId f, localPath f) with (keyOf f).
  split.
  - rewrite !Hins; [reflexivity | | | |]; tauto.
  - rewrite !Hdel; [reflexivity | | | |]; tauto.
Qed.

Lemma getStats_other_tenant_witness :
  getStats (upsertSyncedFile Sample.ledger Sample.otherTenantRow) "t1"
  = getStats Sample.ledger "t1" /\
  getStats (deleteSyncedFile Sample.ledger "t2" "m9" "/data/z.txt") "t1"
  = getStats Sample.ledger "t1".
Proof.
  apply (getStats_other_tenant Sample.ledger Sample.otherTenantRow "t1").
  discriminate.
Defined.

(** X8.  [getSyncedFilesForMapping] returns the rows of the mapping and
    only them: a row is in the result exactly when [getSyncedFile] finds
    it under the tenant, the mapping and some path; and it lists as many
    rows as the mapping has keys. *)
Theorem getSyncedFilesForMapping_rows (db : Db) (tenant mapping : string)
    (r : SyncedFile) :
  (r ∈ getSyncedFilesForMapping db tenant mapping <->
   exists p, getSyncedFile db tenant mapping p = Some r) /\
  length (getSyncedFilesForMapping db tenant mapping)
  = size (filter (ofMapping tenant mapping) (synced_files db)).
Proof.
  unfold getSyncedFilesForMapping, getSyncedFile. split.
  - rewrite list_elem_of_fmap. split.
    + intros ([[[t m] p] r'] & -> & Hin).
      apply elem_of_map_to_list in Hin.
      apply map_lookup_filter_Some in Hin as [Hr [Ht Hm]].
      cbn in Ht, Hm. subst. now exists p.
    + intros (p & Hp). exists ((tenant, mapping, p), r).
      split; [reflexivity|]. apply elem_of_map_to_list.
      apply map_lookup_filter_Some. split; [exact Hp|]. now split.
  - rewrite length_fmap. apply length_map_to_list.
Qed.

End TrackerExtras.

(* ===================================================================== *)
(** * Further properties of the Graph client                              *)
(* ===================================================================== *)

Module GraphExtras.
Import Effects JsString Sanitize Graph GraphPaths ChunkFacts ChunkClaims.

Section Client.
Context {W : Type} (api : Api W).

(** Where a run of lookups ends. *)
Lemma lookAll_returned (endpoints : list string) :
  forall last w,
    returned (outcome (lookAll api endpoints last w)) ->
    asked (lookAll api endpoints last w) = endpoints.
Proof.
  induction endpoints as [|endpoint rest IH]; intros last w Hret;
    [reflexivity|].
  cbn [lookAll] in *.
  destruct (getItemJson api endpoint w) as [[e|item] w1];
    cbn [asked outcome] in *; [destruct Hret|].
  f_equal. now apply IH.
Qed.

Lemma lookAll_thrown (endpoints : list string) :
  forall last w e,
    outcome (lookAll api endpoints last w) = inl e ->
    exists front endpoint back,
      endpoints = (front ++ endpoint :: back)%list /\
      asked (lookAll api endpoints last w) = (front ++ [endpoint])%list /\
      returned (outcome (lookAll api front last w)) /\
      getItemJson api endpoint (after (lookAll api front last w))
      = (inl e, after (lookAll api endpoints last w)).
Proof.
  induction endpoints as [|endpoint rest IH]; intros last w e Hout;
    [discriminate Hout|].
  cbn [lookAll] in *.
  destruct (getItemJson api endpoint w) as [[e1|item] w1] eqn:Hget;
    cbn [asked outcome after] in *.
  - injection Hout as ->. exists [], endpoint, rest.
    cbn [lookAll app outcome after returned]. auto.
  - destruct (IH (Some item) w1 e Hout)
      as (front & failed & back & Hsplit & Hasked & Hret & Hfail).
    exists (endpoint :: front), failed, back.
    cbn [lookAll app]. rewrite Hget. cbn [asked outcome after].
    rewrite Hsplit at 1. rewrite Hasked. auto.
Qed.

(** The loop of [ensureFolder] when no lookup answers 404. *)
Lemma ensureParts_lookups_only (drive : string) (parts : list string) :
  (forall endpoint w e w',
      getItemJson api endpoint w = (inl e, w') -> statusCode e <> Some 404) ->
  forall currentPath currentItem n,
    ensureParts api drive parts currentPath currentItem n
    = let run :=
        lookAll api
          (map (fun path => "/drives/" ++ drive ++ "/root:" ++ path)%string
               (segmentPaths parts currentPath))
          currentItem (world n) in
      (outcome run, mkNet (after run) (calls n ++ map GET (asked run))).
Proof.
  intros Hno404. induction parts as [|part rest IH];
    intros currentPath currentItem n.
  - cbn. rewrite app_nil_r. now destruct n.
  - cbn [ensureParts segmentPaths map lookAll].
    unfold bind, tryCatch, apiGetItem, request.
    destruct (getItemJson api _ (world n)) as [[e|item] w1] eqn:Hget.
    + pose proof (Hno404 _ _ _ _ Hget) as Hne.
      rewrite decide_False by exact Hne. reflexivity.
    + rewrite IH. cbn zeta. cbn [world calls asked outcome after map].
      now rewrite <- app_assoc.
Qed.

(** Every range that the chunk loop sends has a full chunk or the rest of
    the content, whatever the service answers. *)
Lemma uploadChunks_sizes (chunkSize : Z) (url : string) (content : Buffer)
    (fuel : nat) :
  0 < chunkSize ->
  forall uploaded n r n',
    0 <= uploaded ->
    uploadChunks api fuel chunkSize url content (bufferLength content)
                 uploaded n = Some (r, n') ->
    exists ranges stop,
      calls n' = (calls n ++ map (rangeRequest url (bufferLength content))
                                 ranges)%list /\
      consecutiveFrom uploaded ranges stop /\
      stop <= Z.max uploaded (bufferLength content) /\
      Forall (wellSized chunkSize (bufferLength content)) ranges.
Proof.
  intros Hpos. induction fuel as [|fuel IH];
    intros uploaded n r n' Hup Hrun.
  - simpl in Hrun. destruct (uploaded <? bufferLength content);
      [discriminate|]. injection Hrun as _ <-.
    exists [], uploaded. simpl. rewrite app_nil_r.
    repeat split; [lia | constructor].
  - cbn [uploadChunks] in Hrun.
    destruct (uploaded <? bufferLength content) eqn:Hlt.
    2:{ injection Hrun as _ <-. exists [], uploaded. simpl.
        rewrite app_nil_r. repeat split; [lia | constructor]. }
    apply Z.ltb_lt in Hlt.
    set (rangeEnd := Z.min (uploaded + chunkSize - 1)
                           (bufferLength content - 1)) in *.
    assert (Hre : uploaded <= rangeEnd < bufferLength content)
      by (unfold rangeEnd; lia).
    destruct (bufferSlice_bytesAt content uploaded rangeEnd) as [_ Hlen];
      [lia | lia | lia |].
    set (chunk := bufferSlice content uploaded (rangeEnd + 1)) in *.
    set (this := mkRange uploaded rangeEnd chunk).
    assert (Hthis : wellSized chunkSize (bufferLength content) this).
    { split; [reflexivity | exact Hlen]. }
    unfold uploadChunk in Hrun.
    destruct (putRange api url chunk uploaded rangeEnd
                       (bufferLength content) (world n)) as [resp w'].
    assert (Hone :
      exists ranges stop,
        (calls n ++ [PUT_range url chunk uploaded rangeEnd
                               (bufferLength content)])%list
        = (calls n ++ map (rangeRequest url (bufferLength content))
                          ranges)%list /\
        consecutiveFrom uploaded ranges stop /\
        stop <= Z.max uploaded (bufferLength content) /\
        Forall (wellSized chunkSize (bufferLength content)) ranges).
    { exists [this], (rangeEnd + 1). simpl. repeat split; try lia.
      constructor; [exact Hthis | constructor]. }
    destruct resp as [e | text | [item|]];
      try (injection Hrun as _ <-; exact Hone).
    apply IH in Hrun as (ranges & stop & Hc & Ht & Hs & Hb); [|lia].
    exists (this :: ranges), stop. cbn [calls] in Hc.
    split; [rewrite Hc; simpl; now rewrite <- app_assoc|].
    split; [simpl; repeat split; [lia | exact Ht]|].
    split; [lia|]. constructor; [exact Hthis | exact Hb].
Qed.

End Client.

(** Consecutive well-sized ranges: there are at most as many as chunks
    fit between the first offset and the end of the content, and exactly
    that many when they reach the end. *)
Lemma wellSized_count (chunkSize totalSize : Z) (ranges : list Range) :
  0 < chunkSize ->
  forall from stop,
    consecutiveFrom from ranges stop ->
    Forall (wellSized chunkSize totalSize) ranges ->
    from <= totalSize ->
    Z.of_nat (length ranges) <= (totalSize - from + chunkSize - 1) / chunkSize
    /\ (stop = totalSize ->
        Z.of_nat (length ranges)
        = (totalSize - from + chunkSize - 1) / chunkSize).
Proof.
  intros Hpos. induction ranges as [|r rest IH]; intros from stop Hc Hw Hfrom.
  - simpl in Hc. subst stop. cbn [length Z.of_nat]. split.
    + apply Z.div_pos; lia.
    + intros ->. replace (totalSize - totalSize + chunkSize - 1)
        with (chunkSize - 1) by lia.
      symmetry. apply Z.div_small. lia.
  - simpl in Hc. destruct Hc as (Hs & Hle & Hrest).
    apply Forall_cons_1 in Hw as [[Hend _] Hw].
    assert (Hlt : from < totalSize) by lia.
    destruct (IH (rangeEnd r + 1) stop Hrest Hw) as [IHle IHeq]; [lia|].
    cbn [length]. rewrite Nat2Z.inj_succ.
    destruct (Z_le_gt_dec (from + chunkSize) totalSize) as [Hfull|Hlast].
    + assert (Hnext : rangeEnd r + 1 = from + chunkSize) by lia.
      rewrite Hnext in *.
      replace (totalSize - from + chunkSize - 1)
        with ((totalSize - (from + chunkSize) + chunkSize - 1)
              + 1 * chunkSize) by lia.
      rewrite Z.div_add by lia. split; [lia|]. intros Hstop.
      specialize (IHeq Hstop). lia.
    + assert (Hnext : rangeEnd r + 1 = totalSize) by lia.
      rewrite Hnext in *.
      replace (totalSize - totalSize + chunkSize - 1)
        with (chunkSize - 1) in * by lia.
      rewrite Z.div_small in * by lia.
      assert (Hq : (totalSize - from + chunkSize - 1) / chunkSize = 1).
      { symmetry. apply (Z.div_unique _ _ 1 (totalSize - from - 1)); lia. }
      rewrite Hq. split; [lia|]. intros Hstop. specialize (IHeq Hstop). lia.
Qed.

Lemma rangeRequest_inj (url : string) (totalSize : Z) (l1 l2 : list Range) :
  map (rangeRequest url totalSize) l1 = map (rangeRequest url totalSize) l2 ->
  l1 = l2.
Proof.
  revert l2. induction l1 as [|[a b c] l1 IH]; intros [|[a' b' c'] l2] H;
    try discriminate; [reflexivity|].
  cbn in H. injection H as -> -> -> H. f_equal. now apply IH.
Qed.

Lemma consecutiveFrom_end (rs : list Range) :
  forall from stop stop',
    consecutiveFrom from rs stop -> consecutiveFrom from rs stop' ->
    stop = stop'.
Proof.
  induction rs as [|r rs IH]; simpl; intros from stop stop' H H'.
  - congruence.
  - destruct H as (_ & _ & H), H' as (_ & _ & H'). eauto.
Qed.

Section Uploads.
Context {W : Type} (api : Api W).

(** Whatever the service answers, [uploadLargeFile] with a positive chunk
    size ends after the session request and at most ceil(S / C) range
    requests, each with a full chunk or the rest of the content. *)
Lemma uploadLargeFile_sizes (chunkSize : Z)
    (drive parentPath fileName : string) (content : Buffer) (n : Net W) :
  0 < chunkSize ->
  exists r n' url ranges,
    uploadLargeFile api chunkSize drive parentPath fileName content n
      = Some (r, n') /\
    calls n'
      = (calls n ++
         POST_session
           (itemEndpoint drive parentPath (sanitizeName fileName)
                         ":/createUploadSession")
           (sanitizeName fileName)
         :: map (rangeRequest url (bufferLength content)) ranges)%list /\
    Forall (fun x =>
              wellSized chunkSize (bufferLength content) x /\
              0 < bufferLength (body x) <= chunkSize) ranges /\
    Z.of_nat (length ranges)
      <= (bufferLength content + chunkSize - 1) / chunkSize.
Proof.
  intros Hpos. unfold uploadLargeFile, createUploadSession, request.
  destruct (postSession api _ (sanitizeName fileName) (world n))
    as [[e|session] w1].
  - exists (inl e), (mkNet w1 (calls n ++ [POST_session
              (itemEndpoint drive parentPath (sanitizeName fileName)
                            ":/createUploadSession")
              (sanitizeName fileName)])%list), EmptyString, [].
    split; [reflexivity|]. split; [reflexivity|]. split; [constructor|].
    cbn [length Z.of_nat]. apply Z.div_pos; unfold bufferLength; lia.
  - set (n1 := mkNet w1 _).
    destruct (uploadChunks_total api chunkSize (uploadUrl session) content
                (bufferLength content) (Z.to_nat (bufferLength content))
                Hpos 0 n1) as [[r n'] Hrun]; [lia|].
    destruct (uploadChunks_sizes api chunkSize (uploadUrl session) content _
                Hpos 0 n1 r n' (Z.le_refl 0) Hrun)
      as (ranges & stop & Hc & Ht & Hs & Hw).
    exists r, n', (uploadUrl session), ranges.
    split; [exact Hrun|].
    split; [rewrite Hc; unfold n1; cbn [calls]; now rewrite <- app_assoc|].
    split.
    + clear -Hw Ht Hpos. revert Ht. generalize 0 at 1. intros from Ht.
      revert from Ht. induction Hw as [|x l [Hend Hlen] Hw IH];
        intros from Ht; constructor.
      * simpl in Ht. destruct Ht as (Hs & Hle & _).
        split; [now split|]. rewrite Hlen. lia.
      * simpl in Ht. destruct Ht as (_ & _ & Ht). eauto.
    + replace (bufferLength content + chunkSize - 1)
        with (bufferLength content - 0 + chunkSize - 1) by lia.
      apply (wellSized_count chunkSize (bufferLength content) ranges Hpos
               0 stop Ht Hw).
      unfold bufferLength. lia.
Qed.

(** X9.  When the service never reports a completed item,
    [uploadLargeFile] sends the session request and the whole schedule of
    ceil(S / C) ranges (none for an empty content) and then throws "Upload
    completed but no item returned". *)
Theorem uploadLargeFile_without_item (chunkSize : Z)
    (drive parentPath fileName : string) (content : Buffer) (n : Net W)
    (session : UploadSession) (w1 : W) :
  0 < chunkSize ->
  postSession api
    (itemEndpoint drive parentPath (sanitizeName fileName)
                  ":/createUploadSession")
    (sanitizeName fileName) (world n) = (inr session, w1) ->
  (forall chunk a b w,
      fst (putRange api (uploadUrl session) chunk a b
                    (bufferLength content) w) = OkJson None) ->
  exists n' ranges,
    uploadLargeFile api chunkSize drive parentPath fileName content n
      = Some (inl (Error "Upload completed but no item returned"), n') /\
    calls n'
      = (calls n ++
         POST_session
           (itemEndpoint drive parentPath (sanitizeName fileName)
                         ":/createUploadSession")
           (sanitizeName fileName)
         :: map (rangeRequest (uploadUrl session) (bufferLength content))
                ranges)%list /\
    consecutiveFrom 0 ranges (bufferLength content) /\
    Z.of_nat (length ranges)
      = (bufferLength content + chunkSize - 1) / chunkSize.
Proof.
  intros Hpos Hsession Hnone.
  unfold uploadLargeFile, createUploadSession, request. rewrite Hsession.
  set (n1 := mkNet w1 _).
  assert (Hrun : forall fuel uploaded m,
             0 <= uploaded ->
             bufferLength content - uploaded <= Z.of_nat fuel ->
             exists m',
               uploadChunks api fuel chunkSize (uploadUrl session) content
                            (bufferLength content) uploaded m
               = Some (inl (Error "Upload completed but no item returned"),
                       m')).
  { induction fuel as [|fuel IH]; intros uploaded m Hu Hf.
    - simpl. destruct (uploaded <? bufferLength content) eqn:E; [|eauto].
      apply Z.ltb_lt in E. lia.
    - cbn [uploadChunks].
      destruct (uploaded <? bufferLength content) eqn:E; [|eauto].
      apply Z.ltb_lt in E. unfold uploadChunk.
      match goal with
      | |- context [putRange api ?u ?c ?a ?b ?t ?w] =>
          pose proof (Hnone c a b w) as Hresp;
          destruct (putRange api u c a b t w) as [resp w']
      end.
      cbn [fst] in Hresp. subst resp. apply IH; lia. }
  destruct (Hrun (Z.to_nat (bufferLength content)) 0 n1) as [n' Hn'];
    [lia | unfold bufferLength; lia |].
  assert (Hcont : forall chunk a b w,
             b + 1 < bufferLength content ->
             fst (putRange api (uploadUrl session) chunk a b
                           (bufferLength content) w) = OkJson None)
    by (intros; apply Hnone).
  destruct (uploadChunks_schedule api chunkSize (uploadUrl session) content
              Hpos Hcont (Z.to_nat (bufferLength content)) 0 n1)
    as (r & n'' & ranges & Hrun' & Hc & Ht & _);
    [unfold bufferLength; lia | lia |].
  rewrite Hn' in Hrun'. injection Hrun' as <- <-.
  destruct (uploadChunks_sizes api chunkSize (uploadUrl session) content _
              Hpos 0 n1 _ n' (Z.le_refl 0) Hn')
    as (ranges' & stop & Hc' & Ht' & _ & Hw).
  assert (ranges' = ranges).
  { rewrite Hc in Hc'. apply app_inv_head in Hc'.
    symmetry. now apply rangeRequest_inj in Hc'. }
  subst ranges'.
  exists n', ranges. split; [exact Hn'|].
  split; [rewrite Hc; unfold n1; cbn [calls]; now rewrite <- app_assoc|].
  split; [exact Ht|].
  replace (bufferLength content + chunkSize - 1)
    with (bufferLength content - 0 + chunkSize - 1) by lia.
  apply (wellSized_count chunkSize (bufferLength content) ranges Hpos 0
           (bufferLength content) Ht Hw); [unfold bufferLength; lia|].
  reflexivity.
Qed.

End Uploads.
Section Files.
Context {W : Type} (api : Api W).

(** X10.  [uploadFile] sends a content of at most 4 MiB in one request,
    whole; for a larger content it never sends a content request: it opens
    a session and sends at most ceil(S / CHUNK_SIZE) ranges, none empty
    and none longer than CHUNK_SIZE, and the chunk loop ends whatever the
    service answers. *)
Theorem uploadFile_requests (drive parentPath fileName : string)
    (content : Buffer) (n : Net W) :
  if bufferLength content <=? SHAREPOINT.SMALL_FILE_THRESHOLD then
    calls (snd (uploadFile api drive parentPath fileName content n))
    = (calls n ++
       [PUT_content
          (itemEndpoint drive parentPath (sanitizeName fileName) ":/content")
          content])%list
  else
    exists url ranges,
      uploadLargeFile api SHAREPOINT.CHUNK_SIZE drive parentPath fileName
                      content n
        = Some (uploadFile api drive parentPath fileName content n) /\
      calls (snd (uploadFile api drive parentPath fileName content n))
        = (calls n ++
           POST_session
             (itemEndpoint drive parentPath (sanitizeName fileName)
                           ":/createUploadSession")
             (sanitizeName fileName)
           :: map (rangeRequest url (bufferLength content)) ranges)%list /\
      Forall (fun x => 0 < bufferLength (body x) <= SHAREPOINT.CHUNK_SIZE)
             ranges /\
      Z.of_nat (length ranges)
        <= (bufferLength content + SHAREPOINT.CHUNK_SIZE - 1)
           / SHAREPOINT.CHUNK_SIZE.
Proof.
  unfold uploadFile.
  destruct (bufferLength content <=? SHAREPOINT.SMALL_FILE_THRESHOLD).
  - unfold uploadSmallFile, request.
    destruct (putContent api _ content (world n)) as [r w']. reflexivity.
  - destruct (uploadLargeFile_sizes api SHAREPOINT.CHUNK_SIZE drive
                parentPath fileName content n)
      as (r & n' & url & ranges & Hrun & Hc & Hw & Hcount); [reflexivity|].
    rewrite Hrun. exists url, ranges.
    split; [reflexivity|]. split; [exact Hc|]. split; [|exact Hcount].
    eapply Forall_impl; [exact Hw|]. intros x [_ Hx]. exact Hx.
Qed.

(** X11.  As long as no lookup is answered with status 404,
    [ensureFolder] creates nothing and is a run of lookups: it asks for
    the addresses of the path in order (the root, or one address per
    non-empty segment, under the raw segment names) and stops at the first
    lookup that fails.  When it throws, every lookup before the last one
    had returned, the last request is the lookup that failed, and what is
    thrown is the error of that lookup as it is; when it returns, it has
    asked for every address and returns the item found last. *)
Theorem ensureFolder_lookups_only (drive folderPath : string) (n : Net W) :
  (forall endpoint w e w',
      getItemJson api endpoint w = (inl e, w') -> statusCode e <> Some 404) ->
  let endpoints := lookupEndpoints drive folderPath in
  let run := lookAll api endpoints None (world n) in
  ensureFolder api drive folderPath n
  = (outcome run, mkNet (after run) (calls n ++ map GET (asked run))) /\
  (returned (outcome run) -> asked run = endpoints) /\
  (forall e,
      outcome run = inl e ->
      exists front endpoint back,
        endpoints = (front ++ endpoint :: back)%list /\
        asked run = (front ++ [endpoint])%list /\
        returned (outcome (lookAll api front None (world n))) /\
        getItemJson api endpoint (after (lookAll api front None (world n)))
        = (inl e, after run)).
Proof.
  intros Hno404 endpoints run.
  split; [|split; [apply lookAll_returned | apply lookAll_thrown]].
  unfold run, endpoints, ensureFolder, lookupEndpoints.
  destruct (String.eqb folderPath "" || String.eqb folderPath "/").
  - cbn [lookAll]. unfold bind, apiGetItem, request, ret.
    destruct (getItemJson api _ (world n)) as [[e|item] w'];
      reflexivity.
  - apply (ensureParts_lookups_only api drive _ Hno404).
Qed.

Lemma split_only_slashes (s : string) :
  allOf isSlash s = true -> filter nonEmpty (split "/" s) = [].
Proof.
  induction s as [|c rest IH]; intros Hall; [reflexivity|].
  simpl in Hall. apply andb_prop in Hall as [Hc Hrest].
  unfold isSlash in Hc. cbn [split]. rewrite Hc.
  rewrite filter_cons_False by (simpl; tauto). now apply IH.
Qed.

(** X12.  A folder path of two or more slashes and nothing else has no
    segment: [ensureFolder] sends no request and returns the [null] that
    its loop variable started with. *)
Theorem ensureFolder_only_slashes (drive folderPath : string) (n : Net W) :
  allOf isSlash folderPath = true ->
  (2 <= String.length folderPath)%nat ->
  ensureFolder api drive folderPath n = (inr None, n).
Proof.
  intros Hall Hlen. unfold ensureFolder.
  destruct folderPath as [|a [|b rest]]; simpl in Hlen; [lia | lia |].
  replace (String.eqb (String a (String b rest)) "") with false
    by reflexivity.
  replace (String.eqb (String a (String b rest)) "/") with false
    by (cbn [String.eqb]; destruct (Ascii.eqb a "/"); reflexivity).
  cbn [orb]. now rewrite split_only_slashes.
Qed.

End Files.

Section Sites.
Context {W : Type} (api : Api W) (platform : Platform).

(** X13.  Whatever makes the site request fail (its status code and
    message included), [getSite] throws a plain error "Site not found:"
    followed by the URL as given, after exactly one request, to the
    address built from the host name and the path without its "/sites/"
    prefix and without a trailing slash. *)
Theorem getSite_masks_failure (siteUrl hostname pathname : string)
    (n n' : Net W) (e : Exn) :
  parseUrl platform siteUrl = Some (hostname, pathname) ->
  getSite api platform siteUrl n = (inl e, n') ->
  e = Error ("Site not found: " ++ siteUrl) /\
  statusCode e = None /\
  calls n'
  = (calls n ++
     [GET ("/sites/" ++ hostname ++ ":/sites/"
           ++ stripTrailingSlash (stripPrefix "/sites/" pathname))])%list.
Proof.
  intros Hurl. unfold getSite. rewrite Hurl. unfold tryCatch, request.
  destruct (getSiteJson api _ (world n)) as [[e0|site] w']; [|discriminate].
  unfold throw. intros H. injection H as <- <-. repeat split.
Qed.

End Sites.

(** Witnesses, on the simulated drive. *)

Lemma uploadLargeFile_without_item_witness :
  exists n' ranges,
    uploadLargeFile Services.stalled 2 "d1" "" "big.bin" (Sim.bytes 5)
                    Sim.emptyNet
      = Some (inl (Error "Upload completed but no item returned"), n') /\
    calls n'
      = (calls Sim.emptyNet ++
         POST_session
           (itemEndpoint "d1" "" (sanitizeName "big.bin")
                         ":/createUploadSession")
           (sanitizeName "big.bin")
         :: map (rangeRequest "https://upload.example/big.bin"
                              (bufferLength (Sim.bytes 5))) ranges)%list /\
    consecutiveFrom 0 ranges (bufferLength (Sim.bytes 5)) /\
    Z.of_nat (length ranges) = (bufferLength (Sim.bytes 5) + 2 - 1) / 2.
Proof.
  apply (uploadLargeFile_without_item Services.stalled 2 "d1" "" "big.bin"
           (Sim.bytes 5) Sim.emptyNet
           (mkSession "https://upload.example/big.bin" "never")
           (Sim.mkRemote [] [])).
  - reflexivity.
  - vm_compute. reflexivity.
  - intros chunk a b w. reflexivity.
Defined.

Lemma ensureFolder_lookups_only_witness :
  lookupEndpoints "d1" "/reports/2024/q1"
  = ["/drives/d1/root:/reports"; "/drives/d1/root:/reports/2024";
     "/drives/d1/root:/reports/2024/q1"] /\
  ensureFolder Services.guarded "d1" "/reports/2024/q1" Sim.emptyNet
  = (inl Services.forbidden,
     mkNet (world Sim.emptyNet)
           [GET "/drives/d1/root:/reports";
            GET "/drives/d1/root:/reports/2024"]) /\
  ensureFolder Services.populated "d1" "/reports/2024" Sim.emptyNet
  = (inr (Some (Sim.itemAt "/drives/d1/root:/reports/2024")),
     mkNet (world Sim.emptyNet)
           [GET "/drives/d1/root:/reports";
            GET "/drives/d1/root:/reports/2024"]).
Proof.
  split; [reflexivity|]. split.
  - refine (proj1 (ensureFolder_lookups_only Services.guarded "d1"
                     "/reports/2024/q1" Sim.emptyNet _)).
    intros endpoint w e w' H. cbn in H.
    destruct (String.eqb endpoint "/drives/d1/root:/reports/2024");
      [injection H as <- _; discriminate | discriminate H].
  - refine (proj1 (ensureFolder_lookups_only Services.populated "d1"
                     "/reports/2024" Sim.emptyNet _)).
    intros endpoint w e w' H. discriminate H.
Defined.

Lemma ensureFolder_only_slashes_witness :
  ensureFolder Sim.api "d1" "//" Sim.emptyNet = (inr None, Sim.emptyNet).
Proof.
  apply (ensureFolder_only_slashes Sim.api "d1" "//" Sim.emptyNet).
  - reflexivity.
  - simpl. lia.
Defined.

Lemma getSite_masks_failure_witness :
  Error "Site not found: https://contoso.example/sites/team/"
  = Error ("Site not found: " ++ "https://contoso.example/sites/team/") /\
  statusCode (Error "Site not found: https://contoso.example/sites/team/")
  = None /\
  calls (snd (getSite Services.offline Sim.platform
                      "https://contoso.example/sites/team/" Sim.emptyNet))
  = (calls Sim.emptyNet ++
     [GET ("/sites/" ++ "contoso.example" ++ ":/sites/"
           ++ stripTrailingSlash (stripPrefix "/sites/" "/sites/team"))])%list.
Proof.
  apply (getSite_masks_failure Services.offline Sim.platform
           "https://contoso.example/sites/team/" "contoso.example"
           "/sites/team" Sim.emptyNet).
  - reflexivity.
  - vm_compute. reflexivity.
Defined.

End GraphExtras.

(* ===================================================================== *)
(** * More on name sanitization                                           *)
(* ===================================================================== *)

Module SanitizeExtras.
Import JsString Sanitize SanitizeFacts NameClasses.

Lemma dropWhile_first (p : ascii -> bool) (s : string) :
  (forall c, firstChar s = Some c -> p c = false) -> dropWhile p s = s.
Proof.
  destruct s as [|a rest]; intros H; [reflexivity|].
  simpl. now rewrite (H a eq_refl).
Qed.

Lemma dropEndWhile_last (p : ascii -> bool) (s : string) :
  (forall c, lastChar s = Some c -> p c = false) -> dropEndWhile p s = s.
Proof.
  induction s as [|a rest IH]; intros H; [reflexivity|].
  cbn [dropEndWhile]. destruct rest as [|b rest'].
  - simpl. now rewrite (H a eq_refl).
  - rewrite IH by (intros c Hc; apply H; exact Hc). reflexivity.
Qed.

Lemma firstChar_dropWhile (p : ascii -> bool) (s : string) (c : ascii) :
  firstChar (dropWhile p s) = Some c -> p c = false.
Proof.
  induction s as [|a rest IH]; simpl; [discriminate|].
  destruct (p a) eqn:E; [exact IH|]. simpl. intros [= <-]. exact E.
Qed.

Lemma firstChar_dropEndWhile (p : ascii -> bool) (s : string) (c : ascii) :
  firstChar (dropEndWhile p s) = Some c -> firstChar s = Some c.
Proof.
  destruct s as [|a rest]; [simpl; discriminate|].
  cbn [dropEndWhile].
  destruct (dropEndWhile p rest); [destruct (p a)|]; simpl;
    first [discriminate | auto].
Qed.

Lemma lastChar_dropEndWhile (p : ascii -> bool) (s : string) (c : ascii) :
  lastChar (dropEndWhile p s) = Some c -> p c = false.
Proof.
  induction s as [|a rest IH]; [discriminate|]. cbn [dropEndWhile].
  destruct (dropEndWhile p rest) as [|b r] eqn:E.
  - destruct (p a) eqn:Ea; [discriminate|]. simpl. intros [= <-]. exact Ea.
  - change (lastChar (String b r) = Some c -> p c = false). exact IH.
Qed.

Lemma length_mapChars (f : ascii -> ascii) (s : string) :
  String.length (mapChars f s) = String.length s.
Proof. induction s as [|a s IH]; [reflexivity|]. simpl. now rewrite IH. Qed.

Lemma length_toUpperCase (s : string) :
  String.length (toUpperCase s) = String.length s.
Proof. induction s as [|a s IH]; [reflexivity|]. simpl. now rewrite IH. Qed.

Lemma length_dropWhile (p : ascii -> bool) (s : string) :
  (String.length (dropWhile p s) <= String.length s)%nat.
Proof.
  induction s as [|a rest IH]; simpl; [lia|].
  destruct (p a); simpl; lia.
Qed.

Lemma length_dropEndWhile (p : ascii -> bool) (s : string) :
  (String.length (dropEndWhile p s) <= String.length s)%nat.
Proof.
  induction s as [|a rest IH]; [simpl; lia|]. cbn [dropEndWhile].
  destruct (dropEndWhile p rest); [destruct (p a)|]; simpl in *; lia.
Qed.

Lemma length_app (s t : string) :
  String.length (s ++ t) = (String.length s + String.length t)%nat.
Proof. induction s as [|a s IH]; [reflexivity|]. simpl. now rewrite IH. Qed.

(** The name before the reserved-name test and the truncation. *)
Local Abbreviation stripped name := (stripDots (trim (replaceInvalid name))).

Lemma stripped_length (name : string) :
  jsLength (stripped name) <= jsLength name.
Proof.
  unfold jsLength, stripDots, trim. rewrite replaceInvalid_mapChars.
  pose proof (length_dropEndWhile isDot
    (dropWhile isDot (dropEndWhile isWhiteSpace (dropWhile isWhiteSpace
       (mapChars replaceChar name))))).
  pose proof (length_dropWhile isDot
    (dropEndWhile isWhiteSpace (dropWhile isWhiteSpace
       (mapChars replaceChar name)))).
  pose proof (length_dropEndWhile isWhiteSpace
    (dropWhile isWhiteSpace (mapChars replaceChar name))).
  pose proof (length_dropWhile isWhiteSpace (mapChars replaceChar name)).
  pose proof (length_mapChars replaceChar name). lia.
Qed.

Lemma stripped_firstChar (name : string) :
  firstChar (stripped name) <> Some "."%char.
Proof.
  intros H. unfold stripDots in H.
  apply firstChar_dropEndWhile, firstChar_dropWhile in H. discriminate H.
Qed.

Lemma stripped_lastChar (name : string) :
  lastChar (stripped name) <> Some "."%char.
Proof.
  intros H. unfold stripDots in H.
  apply lastChar_dropEndWhile in H. discriminate H.
Qed.

Lemma isReserved_length (s : string) :
  isReserved s = true -> (String.length s <= 11)%nat.
Proof.
  unfold isReserved. rewrite existsb_exists. intros (r & Hin & Heq).
  apply String.eqb_eq in Heq.
  assert (Hlen : String.length s = String.length r).
  { rewrite <- (length_toUpperCase s), Heq. apply length_toUpperCase. }
  rewrite Hlen. clear -Hin. unfold SHAREPOINT.RESERVED_NAMES in Hin.
  simpl in Hin.
  repeat (destruct Hin as [<-|Hin]; [simpl; lia|]). destruct Hin.
Qed.

Lemma truncate_short (s : string) : jsLength s <= 200 -> truncate s = s.
Proof.
  intros H. unfold truncate.
  destruct (200 <? jsLength s) eqn:E; [apply Z.ltb_lt in E; lia|reflexivity].
Qed.

(** A name that is valid as it stands. *)
Lemma valid_name_stripped (name : string) :
  allOf (fun c => negb (isInvalidChar c)) name = true ->
  (forall c, firstChar name = Some c -> isWhiteSpace c || isDot c = false) ->
  (forall c, lastChar name = Some c -> isWhiteSpace c || isDot c = false) ->
  stripped name = name.
Proof.
  intros Hvalid Hfirst Hlast.
  rewrite (replaceInvalid_id name Hvalid). unfold trim, stripDots.
  rewrite (dropWhile_first isWhiteSpace name)
    by (intros c Hc; apply Hfirst in Hc; now apply orb_false_elim in Hc).
  rewrite (dropEndWhile_last isWhiteSpace name)
    by (intros c Hc; apply Hlast in Hc; now apply orb_false_elim in Hc).
  rewrite (dropWhile_first isDot name)
    by (intros c Hc; apply Hfirst in Hc; now apply orb_false_elim in Hc).
  apply dropEndWhile_last.
  intros c Hc; apply Hlast in Hc; now apply orb_false_elim in Hc.
Qed.

(** X14.  A name that SharePoint accepts is left as it is: no invalid
    character, no white space or dot at either end, not a reserved name,
    at most 200 characters. *)
Theorem sanitizeName_valid_name_unchanged (name : string) :
  allOf (fun c => negb (isInvalidChar c)) name = true ->
  (forall c, firstChar name = Some c -> isWhiteSpace c || isDot c = false) ->
  (forall c, lastChar name = Some c -> isWhiteSpace c || isDot c = false) ->
  isReserved name = false ->
  jsLength name <= 200 ->
  sanitizeName name = name.
Proof.
  intros Hvalid Hfirst Hlast Hres Hlen. unfold sanitizeName.
  rewrite (valid_name_stripped name Hvalid Hfirst Hlast), Hres.
  now apply truncate_short.
Qed.

Lemma sanitizeName_valid_name_unchanged_witness :
  sanitizeName "Report 2024.final.docx" = "Report 2024.final.docx".
Proof.
  apply (sanitizeName_valid_name_unchanged "Report 2024.final.docx").
  - reflexivity.
  - intros c [= <-]. reflexivity.
  - intros c [= <-]. reflexivity.
  - reflexivity.
  - vm_compute. discriminate.
Defined.

(** X15.  For a name of at most 200 characters the result has at most
    200 characters and does not begin with a dot. *)
Theorem sanitizeName_short_name (name : string) :
  jsLength name <= 200 ->
  jsLength (sanitizeName name) <= 200 /\
  firstChar (sanitizeName name) <> Some "."%char.
Proof.
  intros Hlen. unfold sanitizeName.
  pose proof (stripped_length name) as Hs.
  pose proof (stripped_firstChar name) as Hf.
  destruct (isReserved (stripped name)) eqn:Hres.
  - apply isReserved_length in Hres.
    assert (Hp : jsLength ("_" ++ stripped name) <= 200).
    { unfold jsLength. rewrite length_app.
      change (String.length "_") with 1%nat. lia. }
    rewrite truncate_short by exact Hp.
    split; [exact Hp|]. cbn [String.append firstChar]. discriminate.
  - rewrite truncate_short by lia. split; [lia | exact Hf].
Qed.

Lemma sanitizeName_short_name_witness :
  jsLength (sanitizeName "..hidden?.txt") <= 200 /\
  firstChar (sanitizeName "..hidden?.txt") <> Some "."%char.
Proof.
  apply (sanitizeName_short_name "..hidden?.txt").
  vm_compute. discriminate.
Defined.


(** ** Truncation *)

Lemma substring_whole (s : string) :
  String.substring 0 (String.length s) s = s.
Proof. induction s as [|a s IH]; [reflexivity|]. simpl. now rewrite IH. Qed.

Lemma substring_suffix (n : nat) :
  forall s,
    (n <= String.length s)%nat ->
    exists pre,
      s = pre ++ String.substring n (String.length s - n) s /\
      String.length pre = n.
Proof.
  induction n as [|n IH]; intros s Hn.
  - exists EmptyString. rewrite Nat.sub_0_r, substring_whole. now split.
  - destruct s as [|a rest]; [simpl in Hn; lia|].
    destruct (IH rest) as (pre & Heq & Hlen); [simpl in Hn; lia|].
    exists (String a pre). split; [|simpl; now rewrite Hlen].
    change (String a rest
            = String a (pre ++ String.substring n (String.length rest - n)
                                                rest)).
    now rewrite <- Heq.
Qed.

Lemma length_substring0 (k : nat) :
  forall s, (k <= String.length s)%nat ->
            String.length (String.substring 0 k s) = k.
Proof.
  induction k as [|k IH]; intros s Hk; [now destruct s|].
  destruct s as [|a rest]; [simpl in Hk; lia|].
  cbn [String.substring String.length]. rewrite IH; [reflexivity|].
  simpl in Hk. lia.
Qed.

Lemma prefix_substring0 (k : nat) :
  forall s, String.prefix (String.substring 0 k s) s = true.
Proof.
  induction k as [|k IH]; intros s; [now destruct s|].
  destruct s as [|a rest]; [reflexivity|].
  cbn [String.substring String.prefix].
  destruct (ascii_dec a a); [apply IH | congruence].
Qed.

Lemma append_nil_inv (s t : string) : s ++ t = EmptyString -> t = EmptyString.
Proof. destruct s; [auto | discriminate]. Qed.

Lemma lastChar_app (s t : string) :
  t <> EmptyString -> lastChar (s ++ t) = lastChar t.
Proof.
  intros Ht. induction s as [|a s IH]; [reflexivity|].
  change (lastChar (String a (s ++ t)) = lastChar t).
  destruct (s ++ t) as [|b r] eqn:E.
  - apply append_nil_inv in E. contradiction.
  - rewrite <- IH. reflexivity.
Qed.

Lemma allOf_lastChar (p : ascii -> bool) (s : string) (c : ascii) :
  allOf p s = true -> lastChar s = Some c -> p c = true.
Proof.
  induction s as [|a rest IH]; [discriminate|].
  cbn [allOf]. intros Hall. apply andb_prop in Hall as [Ha Hrest].
  destruct rest as [|b r].
  - intros [= <-]. exact Ha.
  - change (lastChar (String b r) = Some c -> p c = true). now apply IH.
Qed.

Lemma lastIndexOf_range (c : ascii) (s : string) :
  -1 <= lastIndexOf c s < jsLength s \/ (s = EmptyString /\ lastIndexOf c s = -1).
Proof.
  induction s as [|a rest IH]; [right; now split|]. left.
  cbn [lastIndexOf]. unfold jsLength in *. cbn [String.length].
  rewrite Nat2Z.inj_succ.
  destruct (0 <=? lastIndexOf c rest) eqn:E.
  - apply Z.leb_le in E. destruct IH as [IH|[-> IH]]; [lia|simpl in E; lia].
  - destruct (Ascii.eqb a c); lia.
Qed.

Lemma lastIndexOf_none (c : ascii) (s : string) :
  lastIndexOf c s < 0 -> allOf (fun a => negb (Ascii.eqb a c)) s = true.
Proof.
  induction s as [|a rest IH]; [reflexivity|]. cbn [lastIndexOf allOf].
  destruct (0 <=? lastIndexOf c rest) eqn:E.
  - apply Z.leb_le in E. lia.
  - apply Z.leb_gt in E. destruct (Ascii.eqb a c); [lia|].
    intros _. now rewrite IH.
Qed.

Lemma lastIndexOf_zero (c : ascii) (s : string) :
  lastIndexOf c s = 0 -> firstChar s = Some c.
Proof.
  destruct s as [|a rest]; [simpl; lia|]. cbn [lastIndexOf firstChar].
  destruct (0 <=? lastIndexOf c rest) eqn:E.
  - apply Z.leb_le in E. lia.
  - destruct (Ascii.eqb a c) eqn:Ea; [|lia].
    apply Ascii.eqb_eq in Ea. now subst.
Qed.

(** [s.slice(ext)] for an index inside the string. *)
Lemma sliceFrom_suffix (s : string) (ext : Z) :
  0 <= ext < jsLength s ->
  sliceFrom s ext
  = String.substring (Z.to_nat ext) (String.length s - Z.to_nat ext) s /\
  exists pre,
    s = pre ++ sliceFrom s ext /\ jsLength pre = ext /\
    sliceFrom s ext <> EmptyString /\
    jsLength (sliceFrom s ext) = jsLength s - ext.
Proof.
  intros Hext. unfold jsLength in *.
  assert (Heq : sliceFrom s ext
                = String.substring (Z.to_nat ext)
                    (String.length s - Z.to_nat ext) s).
  { unfold sliceFrom, slice, sliceIndex, jsLength.
    replace (ext <? 0) with false by (symmetry; apply Z.ltb_ge; lia).
    replace (Z.of_nat (String.length s) <? 0) with false
      by (symmetry; apply Z.ltb_ge; lia).
    rewrite !Z.min_l, Z.max_l by lia. f_equal. lia. }
  split; [exact Heq|].
  destruct (substring_suffix (Z.to_nat ext) s) as (pre & Hs & Hlen); [lia|].
  rewrite <- Heq in Hs. exists pre.
  assert (Hl : String.length s
               = (String.length pre + String.length (sliceFrom s ext))%nat)
    by (rewrite Hs at 1; apply length_app).
  split; [exact Hs|]. split; [lia|]. split; [|lia].
  intros Hnil. rewrite Hnil in Hl. simpl in Hl. lia.
Qed.

Lemma slice_prefix (s : string) (k : Z) :
  0 <= k <= jsLength s ->
  slice s 0 k = String.substring 0 (Z.to_nat k) s.
Proof.
  intros Hk. unfold slice, sliceIndex.
  replace (0 <? 0) with false by reflexivity.
  replace (k <? 0) with false by (symmetry; apply Z.ltb_ge; lia).
  rewrite (Z.min_l 0), (Z.min_l k), Z.max_l by (unfold jsLength in *; lia).
  f_equal. lia.
Qed.

(** Truncation keeps the last character off a dot. *)
Lemma truncate_lastChar (s : string) :
  firstChar s <> Some "."%char -> lastChar s <> Some "."%char ->
  lastChar (truncate s) <> Some "."%char.
Proof.
  intros Hfirst Hlast. unfold truncate.
  destruct (200 <? jsLength s) eqn:Hlong; [|exact Hlast].
  apply Z.ltb_lt in Hlong.
  destruct (0 <? lastIndexOf "." s) eqn:Hext.
  - apply Z.ltb_lt in Hext.
    destruct (lastIndexOf_range "." s) as [Hr|[-> _]];
      [|unfold jsLength in Hlong; simpl in Hlong; lia].
    destruct (sliceFrom_suffix s (lastIndexOf "." s))
      as (_ & pre & Hs & _ & Hne & _); [lia|].
    rewrite lastChar_app by exact Hne.
    rewrite Hs in Hlast at 1. now rewrite lastChar_app in Hlast by exact Hne.
  - apply Z.ltb_ge in Hext.
    assert (Hnone : lastIndexOf "." s < 0).
    { destruct (Z.eq_dec (lastIndexOf "." s) 0) as [E|E]; [|lia].
      apply lastIndexOf_zero in E. contradiction. }
    apply lastIndexOf_none in Hnone.
    intros H. eapply allOf_lastChar in H; [|apply allOf_slice; exact Hnone].
    discriminate H.
Qed.

(** X16.  Whatever the name, the result of [sanitizeName] does not end
    with a dot. *)
Theorem sanitizeName_never_ends_with_dot (name : string) :
  lastChar (sanitizeName name) <> Some "."%char.
Proof.
  unfold sanitizeName.
  pose proof (stripped_firstChar name) as Hf.
  pose proof (stripped_lastChar name) as Hl.
  destruct (isReserved (stripped name)).
  - apply truncate_lastChar; [cbn [String.append firstChar]; discriminate|].
    destruct (stripped name) as [|a rest] eqn:E.
    + cbn. discriminate.
    + rewrite lastChar_app by discriminate. exact Hl.
  - now apply truncate_lastChar.
Qed.

(** X17.  A valid name of more than 200 characters whose extension (the
    part from the last dot on) has at most 200 characters, or which has
    no dot, is cut to exactly 200 characters: a prefix of the name,
    followed by the whole extension when there is one. *)
Theorem sanitizeName_long_valid_name (name : string) :
  allOf (fun c => negb (isInvalidChar c)) name = true ->
  (forall c, firstChar name = Some c -> isWhiteSpace c || isDot c = false) ->
  (forall c, lastChar name = Some c -> isWhiteSpace c || isDot c = false) ->
  200 < jsLength name ->
  jsLength name - lastIndexOf "." name <= 200 \/ lastIndexOf "." name < 0 ->
  jsLength (sanitizeName name) = 200 /\
  exists stem,
    String.prefix stem name = true /\
    sanitizeName name
    = stem ++ (if 0 <? lastIndexOf "." name
               then sliceFrom name (lastIndexOf "." name) else EmptyString).
Proof.
  intros Hvalid Hfirst Hlast Hlong Hext. unfold sanitizeName.
  rewrite (valid_name_stripped name Hvalid Hfirst Hlast).
  destruct (isReserved name) eqn:Hres.
  { apply isReserved_length in Hres. unfold jsLength in Hlong. lia. }
  unfold truncate. cbv zeta. replace (200 <? jsLength name) with true
    by (symmetry; apply Z.ltb_lt; lia).
  destruct (lastIndexOf_range "." name) as [Hr|[-> _]];
    [|unfold jsLength in Hlong; simpl in Hlong; lia].
  destruct (0 <? lastIndexOf "." name) eqn:Hpos.
  - apply Z.ltb_lt in Hpos.
    destruct (sliceFrom_suffix name (lastIndexOf "." name))
      as (_ & pre & Hs & Hpre & Hne & Hlen); [lia|].
    rewrite Hlen.
    rewrite slice_prefix by lia.
    split.
    + unfold jsLength in *. rewrite length_app, length_substring0 by lia.
      lia.
    + eexists. split; [apply prefix_substring0 | reflexivity].
  - apply Z.ltb_ge in Hpos. rewrite slice_prefix by lia. split.
    + unfold jsLength. rewrite length_substring0
        by (unfold jsLength in *; lia). reflexivity.
    + exists (String.substring 0 (Z.to_nat 200) name).
      split; [apply prefix_substring0|].
      clear. generalize (String.substring 0 (Z.to_nat 200) name).
      intros s. induction s as [|a s IH]; [reflexivity|].
      change (String a s = String a (s ++ EmptyString)). now rewrite <- IH.
Qed.

Lemma sanitizeName_long_valid_name_witness :
  jsLength (sanitizeName (repeatChar "a" 250 ++ ".docx")) = 200 /\
  exists stem,
    String.prefix stem (repeatChar "a" 250 ++ ".docx") = true /\
    sanitizeName (repeatChar "a" 250 ++ ".docx")
    = stem ++ (if 0 <? lastIndexOf "." (repeatChar "a" 250 ++ ".docx")
               then sliceFrom (repeatChar "a" 250 ++ ".docx")
                              (lastIndexOf "." (repeatChar "a" 250 ++ ".docx"))
               else EmptyString).
Proof.
  apply (sanitizeName_long_valid_name (repeatChar "a" 250 ++ ".docx")).
  - vm_compute. reflexivity.
  - intros c H. vm_compute in H. injection H as <-. reflexivity.
  - intros c H. vm_compute in H. injection H as <-. reflexivity.
  - vm_compute. reflexivity.
  - left. vm_compute. discriminate.
Defined.

(** ** Reserved names *)

Lemma allAscii_complete (c : ascii) : In c allAscii.
Proof.
  unfold allAscii. rewrite <- (ascii_nat_embedding c).
  apply in_map, in_seq. pose proof (nat_ascii_bounded c). lia.
Qed.

(** A letter and its upper case are both valid, and neither is white
    space or a dot; [toUpperCase] changes no other character. *)
Lemma sameClass_upper (c : ascii) : sameClass c (upperChar c) = true.
Proof.
  assert (Hall : forallb (fun c => sameClass c (upperChar c)) allAscii = true)
    by (vm_compute; reflexivity).
  rewrite forallb_forall in Hall. apply Hall, allAscii_complete.
Qed.

Lemma sameClass_elim (c d : ascii) :
  sameClass c d = true ->
  isInvalidChar c = isInvalidChar d /\ isWhiteSpace c = isWhiteSpace d /\
  isDot c = isDot d.
Proof.
  unfold sameClass. intros H.
  apply andb_prop in H as [H H3]. apply andb_prop in H as [H1 H2].
  apply Bool.eqb_prop in H1, H2, H3. auto.
Qed.

Lemma upperChar_class (c d : ascii) :
  upperChar c = upperChar d ->
  isInvalidChar c = isInvalidChar d /\ isWhiteSpace c = isWhiteSpace d /\
  isDot c = isDot d.
Proof.
  intros Heq.
  destruct (sameClass_elim _ _ (sameClass_upper c)) as (H1 & H2 & H3).
  destruct (sameClass_elim _ _ (sameClass_upper d)) as (H1' & H2' & H3').
  rewrite H1, H2, H3, H1', H2', H3', Heq. auto.
Qed.

Lemma upper_allOf (P : ascii -> bool) :
  (forall c d, upperChar c = upperChar d -> P c = P d) ->
  forall s r, toUpperCase s = toUpperCase r -> allOf P s = allOf P r.
Proof.
  intros HP. induction s as [|a s IH]; intros [|b r] H;
    try discriminate; [reflexivity|].
  cbn [toUpperCase] in H. injection H as Hab Hsr.
  cbn [allOf]. now rewrite (HP a b Hab), (IH r Hsr).
Qed.

Lemma upper_edges (P : ascii -> bool) :
  (forall c d, upperChar c = upperChar d -> P c = P d) ->
  forall s r,
    toUpperCase s = toUpperCase r ->
    option_map P (firstChar s) = option_map P (firstChar r) /\
    option_map P (lastChar s) = option_map P (lastChar r).
Proof.
  intros HP. induction s as [|a s IH]; intros [|b r] H;
    try discriminate; [now split|].
  cbn [toUpperCase] in H. injection H as Hab Hsr.
  split; [cbn [firstChar option_map]; now rewrite (HP a b Hab)|].
  destruct (IH r Hsr) as [_ Hlast].
  destruct s as [|a' s'], r as [|b' r']; try discriminate.
  - cbn [lastChar option_map]. now rewrite (HP a b Hab).
  - exact Hlast.
Qed.

Lemma reserved_shape (r : string) :
  In r SHAREPOINT.RESERVED_NAMES -> r <> ".lock" ->
  allOf (fun c => negb (isInvalidChar c)) r = true /\
  option_map isEdge (firstChar r) = Some false /\
  option_map isEdge (lastChar r) = Some false /\
  (String.length r <=? 11)%nat = true.
Proof.
  intros Hin Hne. unfold SHAREPOINT.RESERVED_NAMES in Hin. simpl in Hin.
  destruct Hin as [<-|Hin]; [congruence|].
  repeat (destruct Hin as [<-|Hin]; [vm_compute; auto|]). destruct Hin.
Qed.

(** X18.  A name that equals a reserved name other than ".lock" up to
    the case of its letters is returned with an underscore in front. *)
Theorem sanitizeName_reserved_prefixed (name r : string) :
  In r SHAREPOINT.RESERVED_NAMES ->
  r <> ".lock" ->
  toUpperCase name = toUpperCase r ->
  sanitizeName name = "_" ++ name.
Proof.
  intros Hin Hne Hup.
  destruct (reserved_shape r Hin Hne) as (Hvalid & Hfirst & Hlast & Hlen).
  assert (Hinv : forall c d, upperChar c = upperChar d ->
                   negb (isInvalidChar c) = negb (isInvalidChar d))
    by (intros c d H; apply upperChar_class in H as (-> & _ & _);
        reflexivity).
  assert (Hedge : forall c d, upperChar c = upperChar d ->
                    isEdge c = isEdge d)
    by (intros c d H; unfold isEdge;
        apply upperChar_class in H as (_ & -> & ->); reflexivity).
  pose proof (upper_allOf _ Hinv name r Hup) as Hv.
  destruct (upper_edges _ Hedge name r Hup) as [Hf Hl].
  rewrite Hvalid in Hv. rewrite Hfirst in Hf. rewrite Hlast in Hl.
  assert (Hlen' : (String.length name <= 11)%nat).
  { apply Nat.leb_le in Hlen.
    rewrite <- (length_toUpperCase name), Hup, length_toUpperCase.
    exact Hlen. }
  unfold sanitizeName. rewrite (valid_name_stripped name Hv).
  - assert (Hres : isReserved name = true).
    { unfold isReserved. apply existsb_exists. exists r.
      split; [exact Hin | now apply String.eqb_eq]. }
    rewrite Hres. apply truncate_short.
    unfold jsLength. rewrite length_app.
    change (String.length "_") with 1%nat. lia.
  - intros c Hc. rewrite Hc in Hf. now injection Hf.
  - intros c Hc. rewrite Hc in Hl. now injection Hl.
Qed.

Lemma sanitizeName_reserved_prefixed_witness :
  sanitizeName "Desktop.INI" = "_" ++ "Desktop.INI".
Proof.
  apply (sanitizeName_reserved_prefixed "Desktop.INI" "desktop.ini").
  - vm_compute. tauto.
  - discriminate.
  - reflexivity.
Defined.

End SanitizeExtras.

(* ===================================================================== *)
(** * More on the sync engine                                             *)
(* ===================================================================== *)

Module EngineExtras.
Import Effects JsString Graph Tracker Engine EngineFacts EngineViews.

Section Loop.
Context {W : Type} (api : Api W) (platform : Platform) (host : Host W).
Variables (tenant : Tenant.Config) (mapping : Mapping.t) (jid : string).
Variables (drive : SharePointDrive) (destFolder : string).

Local Abbreviation run_attempt file n :=
  (attempt api platform host tenant drive destFolder file n).
Local Abbreviation run_attempts files n :=
  (attempts api platform host tenant drive destFolder files n).
Local Abbreviation run_uploadAll files acc s :=
  (uploadAll api platform host tenant mapping jid drive destFolder files
             acc s).

Lemma alterJob_other (d : Db) (f : SyncJob -> SyncJob) (other : string) :
  other <> jid ->
  sync_jobs (alterJob d jid f) !! other = sync_jobs d !! other.
Proof. intros Hne. cbn. now apply lookup_alter_ne. Qed.

(** The loop writes to no other job, however it ends. *)
Lemma uploadAll_jobs_frame (files : list Scanned.File) :
  forall acc s r s' other,
    run_uploadAll files acc s = (r, s') ->
    other <> jid ->
    sync_jobs (db s') !! other = sync_jobs (db s) !! other.
Proof.
  induction files as [|file rest IH]; intros acc s r s' other Hrun Hne.
  - now inversion Hrun; subst.
  - rewrite uploadAll_step in Hrun.
    destruct (dated file); [|now injection Hrun as _ <-].
    destruct (run_attempt file (net s)) as [[e|r0] n1] eqn:Hatt;
      rewrite (IH _ _ _ _ other Hrun Hne); cbn;
      now apply lookup_alter_ne.
Qed.

(** However the loop ends, the row of its job is still there, with its
    identity, its start time, its totals and its status. *)
Lemma uploadAll_row_kept (files : list Scanned.File) :
  forall acc s r s' j,
    run_uploadAll files acc s = (r, s') ->
    sync_jobs (db s) !! jid = Some j ->
    exists j',
      sync_jobs (db s') !! jid = Some j' /\
      jobId j' = jobId j /\ jobTenantId j' = jobTenantId j /\
      jobMappingId j' = jobMappingId j /\ startedAt j' = startedAt j /\
      filesTotal j' = filesTotal j /\ bytesTotal j' = bytesTotal j.
Proof.
  induction files as [|file rest IH]; intros acc s r s' j Hrun Hj.
  - inversion Hrun; subst. exists j. auto 10.
  - rewrite uploadAll_step in Hrun.
    destruct (dated file);
      [|injection Hrun as _ <-; exists j; cbn [db]; auto 10].
    destruct (run_attempt file (net s)) as [[e|r0] n1] eqn:Hatt.
    + destruct (IH _ _ _ _
                  (mkSyncJob (jobId j) (jobTenantId j) (jobMappingId j)
                     (jobStatus j) (startedAt j) (completedAt j)
                     (filesTotal j) (processed acc)
                     (Z.of_nat (length (errorList acc)) + 1)
                     (bytesTotal j) (transferred acc) (errors j))
                  Hrun) as (j' & Hj' & H);
        [cbn; rewrite lookup_alter_eq, Hj; reflexivity|].
      exists j'. auto.
    + destruct (IH _ _ _ _
                  (mkSyncJob (jobId j) (jobTenantId j) (jobMappingId j)
                     (jobStatus j) (startedAt j) (completedAt j)
                     (filesTotal j) (processed acc + 1) (filesFailed j)
                     (bytesTotal j)
                     (transferred acc + Scanned.size file) (errors j))
                  Hrun) as (j' & Hj' & H);
        [cbn; rewrite lookup_alter_eq, Hj; reflexivity|].
      exists j'. auto.
Qed.

(** The job row after the loop: the counters are the loop variables. *)
Lemma uploadAll_row (files : list Scanned.File) :
  forall acc s acc' s' j,
    run_uploadAll files acc s = (inr acc', s') ->
    sync_jobs (db s) !! jid = Some j ->
    filesProcessed j = processed acc ->
    bytesTransferred j = transferred acc ->
    filesFailed j = Z.of_nat (length (errorList acc)) ->
    sync_jobs (db s') !! jid
    = Some (mkSyncJob (jobId j) (jobTenantId j) (jobMappingId j)
              (jobStatus j) (startedAt j) (completedAt j) (filesTotal j)
              (processed acc') (Z.of_nat (length (errorList acc')))
              (bytesTotal j) (transferred acc') (errors j)).
Proof.
  induction files as [|file rest IH];
    intros acc s acc' s' j Hrun Hj Hp Hb Hf.
  - inversion Hrun; subst. rewrite Hj, <- Hp, <- Hb, <- Hf. now destruct j.
  - apply uploadAll_cons_inr in Hrun.
    destruct (run_attempt file (net s)) as [[e|r] n1] eqn:Hatt.
    + rewrite (IH _ _ _ _
                 (mkSyncJob (jobId j) (jobTenantId j) (jobMappingId j)
                    (jobStatus j) (startedAt j) (completedAt j)
                    (filesTotal j) (processed acc)
                    (Z.of_nat (length (errorList acc)) + 1)
                    (bytesTotal j) (transferred acc) (errors j))
                 Hrun); [reflexivity | | reflexivity | reflexivity |].
      * cbn. rewrite lookup_alter_eq, Hj. reflexivity.
      * cbn [filesFailed errorList]. rewrite length_app.
        cbn [length]. lia.
    + rewrite (IH _ _ _ _
                 (mkSyncJob (jobId j) (jobTenantId j) (jobMappingId j)
                    (jobStatus j) (startedAt j) (completedAt j)
                    (filesTotal j) (processed acc + 1) (filesFailed j)
                    (bytesTotal j)
                    (transferred acc + Scanned.size file) (errors j))
                 Hrun); [reflexivity | | reflexivity | reflexivity |].
      * cbn. rewrite lookup_alter_eq, Hj. reflexivity.
      * cbn [filesFailed errorList]. exact Hf.
Qed.

Lemma sumSizes_cons (file : Scanned.File) (files : list Scanned.File) :
  sumSizes (file :: files) = Scanned.size file + sumSizes files.
Proof. rewrite !sumSizes_foldr. reflexivity. Qed.

(** The loop variables count the files whose attempt returned. *)
Lemma uploadAll_totals (files : list Scanned.File) :
  forall acc s acc' s',
    run_uploadAll files acc s = (inr acc', s') ->
    processed acc'
    = processed acc
      + Z.of_nat (length (successesOf files
                            (fst (run_attempts files (net s))))) /\
    transferred acc'
    = transferred acc
      + sumSizes (successesOf files (fst (run_attempts files (net s)))) /\
    Z.of_nat (length (errorList acc'))
    = Z.of_nat (length (errorList acc))
      + Z.of_nat (length (failuresOf files
                            (fst (run_attempts files (net s))))).
Proof.
  induction files as [|file rest IH]; intros acc s acc' s' Hrun.
  - inversion Hrun; subst. cbn. unfold sumSizes. cbn. lia.
  - apply uploadAll_cons_inr in Hrun. rewrite attempts_cons. cbn [fst].
    destruct (run_attempt file (net s)) as [[e|r] n1] eqn:Hatt;
      apply IH in Hrun as (Hp & Ht & He);
      cbn [processed transferred errorList net afterSuccess afterFailure
           fst snd successesOf failuresOf length] in *.
    + rewrite length_app in He. cbn [length] in He.
      repeat split; [exact Hp | exact Ht | lia].
    + rewrite sumSizes_cons. repeat split; lia.
Qed.

End Loop.

Section Runs.
Context {W : Type} (api : Api W) (platform : Platform) (host : Host W).
Variables (tenant : Tenant.Config) (mapping : Mapping.t).

Local Abbreviation run_sync s :=
  (syncMapping api platform host tenant mapping s).
Local Abbreviation needing s files :=
  (filesNeedingSync (db s) tenant mapping files).

(** A call that returns had a job id that was not in use. *)
Lemma run_sync_fresh (s s' : Sys W) (r : Exit * option SyncJob) :
  run_sync s = (inr r, s') ->
  sync_jobs (db s) !! jobIdAt host (ticks s) = None.
Proof.
  rewrite run_start. cbn zeta.
  destruct (sync_jobs (db s) !! jobIdAt host (ticks s));
    [discriminate | reflexivity].
Qed.

Lemma finalStatus_terminal (a b : Z) :
  finalStatus a b = job_completed \/ finalStatus a b = job_failed.
Proof. unfold finalStatus. destruct (a =? 0), (a <? b); auto. Qed.

(** Every way through [syncMapping], for a job id that is not in use. *)
Lemma syncMapping_cases (s : Sys W) :
  sync_jobs (db s) !! jobIdAt host (ticks s) = None ->
  exists exit job s',
    run_sync s = (inr (exit, Some job), s') /\
    getJob (db s') (jobIdAt host (ticks s)) = Some job /\
    (forall other, other <> jobIdAt host (ticks s) ->
                   sync_jobs (db s') !! other = sync_jobs (db s) !! other) /\
    jobId job = jobIdAt host (ticks s) /\
    jobTenantId job = Tenant.id tenant /\
    jobMappingId job = Some (Mapping.id mapping) /\
    startedAt job = isoTime host (S (ticks s)) /\
    finished job /\
    match scan host mapping (world (net s)) with
    | inl e =>
        exit = Aborted /\ abortedJob host mapping job e /\ idleJob job /\
        filesTotal job = 0 /\ bytesTotal job = 0 /\
        net s' = net s /\ synced_files (db s') = synced_files (db s)
    | inr files =>
        filesTotal job = Z.of_nat (length (needing s files)) /\
        bytesTotal job = sumSizes (needing s files) /\
        match needing s files with
        | [] =>
            exit = UpToDate /\ jobStatus job = job_completed /\
            errors job = [] /\ idleJob job /\
            net s' = net s /\ synced_files (db s') = synced_files (db s)
        | _ :: _ =>
            match connect api platform tenant mapping (net s) with
            | (inl e, n1) =>
                exit = Aborted /\ abortedJob host mapping job e /\
                idleJob job /\
                net s' = n1 /\ synced_files (db s') = synced_files (db s)
            | (inr conn, n1) =>
                exists s2,
                  synced_files (db s2) = synced_files (db s) /\
                  net s2 = n1 /\
                  match uploadAll api platform host tenant mapping
                          (jobIdAt host (ticks s)) (fst conn) (snd conn)
                          (needing s files) (mkProgress [] 0 0) s2 with
                  | (inl e, s3) =>
                      exit = Aborted /\ abortedJob host mapping job e /\
                      synced_files (db s') = synced_files (db s3) /\
                      net s' = net s3
                  | (inr acc, s3) =>
                      exit = Finalized /\
                      synced_files (db s') = synced_files (db s3) /\
                      net s' = net s3 /\
                      errors job = errorList acc /\
                      filesProcessed job = processed acc /\
                      filesFailed job = Z.of_nat (length (errorList acc)) /\
                      bytesTransferred job = transferred acc /\
                      jobStatus job
                      = finalStatus (Z.of_nat (length (errorList acc)))
                                    (Z.of_nat (length (needing s files)))
                  end
            end
        end
    end.
Proof.
  intros Hfresh. rewrite run_start. cbn zeta.
  set (jid := jobIdAt host (ticks s)) in *. rewrite Hfresh.
  set (j0 := newJob jid (Tenant.id tenant) (Some (Mapping.id mapping))
                    (isoTime host (S (ticks s)))).
  rewrite body_run. cbn [db net ticks world].
  destruct (scan host mapping (world (net s))) as [e|files].
  { (* the scan throws *)
    eexists _, _, _. split.
    { unfold aborted. cbn [db net ticks]. rewrite completed_row.
      cbn [sync_jobs]. rewrite lookup_insert_eq. reflexivity. }
    unfold aborted. cbn [db net ticks].
    split; [rewrite completed_row; cbn [sync_jobs];
            now rewrite lookup_insert_eq|].
    split.
    { intros other Hne. cbn. rewrite lookup_alter_ne by congruence.
      now rewrite lookup_insert_ne by congruence. }
    cbn. unfold finished, abortedJob, idleJob. cbn.
    repeat split; eauto. }
  cbn zeta.
  rewrite (needing_ext tenant mapping _ (db s) files) by reflexivity.
  assert (Hstarted :
    forall total bytes,
      sync_jobs (setJobTotals
                   (mkDb (synced_files (db s))
                         (<[jid := j0]> (sync_jobs (db s))))
                   jid total bytes) !! jid
      = Some (mkSyncJob jid (Tenant.id tenant) (Some (Mapping.id mapping))
                job_running (isoTime host (S (ticks s))) None total 0 0
                bytes 0 [])).
  { intros total bytes.
    rewrite (started_row _ jid j0) by apply lookup_insert_eq.
    reflexivity. }
  destruct (needing s files) as [|f0 rest] eqn:Hbatch.
  { (* nothing to do *)
    eexists _, _, _. split.
    { rewrite completed_row, Hstarted. reflexivity. }
    cbn [db net ticks]. split; [now rewrite completed_row, Hstarted|].
    split.
    { intros other Hne. cbn. rewrite !lookup_alter_ne by congruence.
      now rewrite lookup_insert_ne by congruence. }
    cbn. unfold finished, idleJob. cbn. repeat split; eauto. }
  cbv iota. set (batch := f0 :: rest) in *. clearbody batch.
  destruct (connect api platform tenant mapping (net s)) as [[e|conn] n1].
  { (* the connection throws *)
    eexists _, _, _. split.
    { unfold aborted. cbn [db net ticks]. rewrite completed_row, Hstarted.
      reflexivity. }
    unfold aborted. cbn [db net ticks].
    split; [now rewrite completed_row, Hstarted|].
    split.
    { intros other Hne. cbn. rewrite !lookup_alter_ne by congruence.
      now rewrite lookup_insert_ne by congruence. }
    cbn. unfold finished, abortedJob, idleJob. cbn.
    repeat split; eauto. }
  match goal with
  | |- context [uploadAll api platform host tenant mapping jid ?a ?b ?c ?d ?st] =>
      set (s2 := st);
      destruct (uploadAll api platform host tenant mapping jid a b c d s2)
        as [[e|acc] s3] eqn:Hup;
      pose proof (fun other =>
                    uploadAll_jobs_frame api platform host tenant mapping jid
                      a b c d s2 _ s3 other Hup) as Hframe
  end.
  { (* the loop throws *)
    destruct (uploadAll_row_kept api platform host tenant mapping jid _ _ _
                _ _ _ _ _ Hup (Hstarted _ _))
      as (j3 & Hj3 & Hid & Htid & Hmid & Hstart & Htot & Hbytes).
    cbn [jobId jobTenantId jobMappingId startedAt filesTotal bytesTotal]
      in Hid, Htid, Hmid, Hstart, Htot, Hbytes.
    eexists _, _, _. split.
    { unfold aborted. cbn [db net ticks]. rewrite completed_row, Hj3.
      reflexivity. }
    unfold aborted. cbn [db net ticks].
    split; [now rewrite completed_row, Hj3|].
    split.
    { intros other Hne. cbn. rewrite lookup_alter_ne by congruence.
      rewrite Hframe by exact Hne. unfold s2. cbn.
      rewrite lookup_alter_ne by congruence.
      now rewrite lookup_insert_ne by congruence. }
    cbn [jobId jobTenantId jobMappingId jobStatus startedAt completedAt
         filesTotal bytesTotal errors filesProcessed filesFailed
         bytesTransferred fmap option_fmap option_map].
    do 4 (split; [assumption|]).
    split; [split; [now right | eauto]|].
    split; [assumption|]. split; [assumption|].
    exists s2. split; [reflexivity|]. split; [reflexivity|].
    rewrite Hup. unfold abortedJob. cbn. repeat split; eauto. }
  pose proof (uploadAll_row api platform host tenant mapping jid _ _ _ _ _ _
                _ _ Hup (Hstarted _ _) eq_refl eq_refl eq_refl) as Hrow.
  cbn [jobId jobTenantId jobMappingId jobStatus startedAt completedAt
       filesTotal bytesTotal errors db] in Hrow.
  eexists _, _, _. split.
  { rewrite completed_row, Hrow. reflexivity. }
  cbn [db net ticks]. split; [now rewrite completed_row, Hrow|].
  split.
  { intros other Hne. cbn. rewrite lookup_alter_ne by congruence.
    rewrite Hframe by exact Hne. unfold s2. cbn.
    rewrite lookup_alter_ne by congruence.
    now rewrite lookup_insert_ne by congruence. }
  cbn [jobId jobTenantId jobMappingId jobStatus startedAt completedAt
       filesTotal bytesTotal errors filesProcessed filesFailed
       bytesTransferred].
  do 4 (split; [reflexivity|]).
  split; [split; [apply finalStatus_terminal | eauto]|].
  split; [reflexivity|]. split; [reflexivity|].
  exists s2. split; [reflexivity|]. split; [reflexivity|].
  rewrite Hup. cbn. repeat split; reflexivity.
Qed.

(** X19.  With a job id that is not in use, [syncMapping] does not throw,
    whatever the scan, the remote service and the uploads do: it returns
    the row of its job, which carries the tenant and the mapping, has a
    completion time, and is [completed] or [failed], never [pending] or
    [running]; the rows of all other jobs are left as they were. *)
Theorem syncMapping_returns_finished_job (s : Sys W) :
  sync_jobs (db s) !! jobIdAt host (ticks s) = None ->
  exists exit job s',
    run_sync s = (inr (exit, Some job), s') /\
    getJob (db s') (jobIdAt host (ticks s)) = Some job /\
    jobId job = jobIdAt host (ticks s) /\
    jobTenantId job = Tenant.id tenant /\
    jobMappingId job = Some (Mapping.id mapping) /\
    finished job /\
    (forall other, other <> jobIdAt host (ticks s) ->
                   sync_jobs (db s') !! other = sync_jobs (db s) !! other).
Proof.
  intros Hfresh.
  destruct (syncMapping_cases s Hfresh)
    as (exit & job & s' & Hrun & Hjob & Hframe & Hid & Ht & Hm & _ & Hdone
        & Hcase).
  exists exit, job, s'. repeat (split; [assumption|]). exact Hframe.
Qed.

(** X20.  A run ends in the top-level [catch] for one of three reasons
    only: the scan threw; the connection threw when some file needed
    sync; or a file of the batch has a modification time that is not a
    valid date, so that [toISOString] throws in the [catch] block of its
    iteration.  The error of an upload alone never aborts the run.  In
    the first two cases nothing was uploaded: the counters of the job are
    0 and no row of the file ledger has changed.  In every case the job is
    [failed] with one error entry, which names the source folder of the
    mapping, carries the message of the error and is stamped one reading
    of the clock before the completion time. *)
Theorem syncMapping_aborted_run (s s' : Sys W) (oj : option SyncJob) :
  run_sync s = (inr (Aborted, oj), s') ->
  exists job e,
    oj = Some job /\
    abortedJob host mapping job e /\
    ((scan host mapping (world (net s)) = inl e /\
      net s' = net s /\ idleJob job /\
      synced_files (db s') = synced_files (db s))
     \/
     (exists files,
         scan host mapping (world (net s)) = inr files /\
         needing s files <> [] /\
         connect api platform tenant mapping (net s) = (inl e, net s') /\
         idleJob job /\
         synced_files (db s') = synced_files (db s))
     \/
     (exists files conn n1 file,
         scan host mapping (world (net s)) = inr files /\
         connect api platform tenant mapping (net s) = (inr conn, n1) /\
         file ∈ needing s files /\
         dated file = false /\
         e = invalidTime)).
Proof.
  intros Hrun. pose proof (run_sync_fresh _ _ _ Hrun) as Hfresh.
  destruct (syncMapping_cases s Hfresh)
    as (exit & job & s1 & Hrun' & _ & _ & _ & _ & _ & _ & _ & Hcase).
  rewrite Hrun' in Hrun. injection Hrun as -> <- <-.
  exists job.
  destruct (scan host mapping (world (net s))) as [e|files].
  - destruct Hcase as (_ & Hj & Hidle & _ & _ & Hnet & Hrows).
    exists e. split; [reflexivity|]. split; [exact Hj|]. left. auto.
  - destruct Hcase as (_ & _ & Hcase).
    destruct (needing s files) as [|f0 rest] eqn:Hbatch.
    + destruct Hcase as (Hexit & _). discriminate Hexit.
    + destruct (connect api platform tenant mapping (net s))
        as [[e|conn] n1].
      * destruct Hcase as (_ & Hj & Hidle & Hnet & Hrows).
        exists e. split; [reflexivity|]. split; [exact Hj|].
        right. left. exists files. rewrite Hnet.
        split; [reflexivity|].
        split; [intros Hnil; unfold needing in *; congruence|].
        split; [reflexivity|]. split; assumption.
      * destruct Hcase as (s2 & _ & _ & Hcase).
        destruct (uploadAll api platform host tenant mapping _ _ _ _ _ s2)
          as [[e|acc] s3] eqn:Hup.
        -- destruct Hcase as (_ & Hj & _).
           apply uploadAll_throws in Hup as (-> & file & Hin & Hd).
           exists invalidTime. split; [reflexivity|]. split; [exact Hj|].
           right. right. exists files, conn, n1, file.
           split; [reflexivity|]. split; [reflexivity|].
           split; [|split; [exact Hd | reflexivity]].
           unfold needing in *. rewrite Hbatch. exact Hin.
        -- destruct Hcase as (Hexit & _). discriminate Hexit.
Qed.

(** A finalized run went through the whole upload loop. *)
Lemma finalized_loop (s s' : Sys W) (oj : option SyncJob)
    (files : list Scanned.File) (conn : SharePointDrive * string)
    (n1 : Net W) :
  run_sync s = (inr (Finalized, oj), s') ->
  scan host mapping (world (net s)) = inr files ->
  connect api platform tenant mapping (net s) = (inr conn, n1) ->
  exists job s2 acc s3,
    oj = Some job /\
    filesTotal job = Z.of_nat (length (needing s files)) /\
    bytesTotal job = sumSizes (needing s files) /\
    synced_files (db s2) = synced_files (db s) /\
    net s2 = n1 /\
    uploadAll api platform host tenant mapping (jobIdAt host (ticks s))
      (fst conn) (snd conn) (needing s files) (mkProgress [] 0 0) s2
    = (inr acc, s3) /\
    synced_files (db s') = synced_files (db s3) /\
    net s' = net s3 /\
    errors job = errorList acc /\
    filesProcessed job = processed acc /\
    filesFailed job = Z.of_nat (length (errorList acc)) /\
    bytesTransferred job = transferred acc.
Proof.
  intros Hrun Hscan Hconn.
  pose proof (run_sync_fresh _ _ _ Hrun) as Hfresh.
  destruct (syncMapping_cases s Hfresh)
    as (exit & job & s1 & Hrun' & _ & _ & _ & _ & _ & _ & _ & Hcase).
  rewrite Hrun' in Hrun. injection Hrun as -> <- <-.
  rewrite Hscan in Hcase. destruct Hcase as (Htotal & Hbytes & Hcase).
  destruct (needing s files) as [|f0 rest] eqn:Hbatch;
    [destruct Hcase as (Hexit & _); discriminate Hexit|].
  rewrite Hconn in Hcase. destruct Hcase as (s2 & Hrows & Hnet & Hcase).
  destruct (uploadAll api platform host tenant mapping _ _ _ _ _ s2)
    as [[e|acc] s3] eqn:Hup;
    [destruct Hcase as (Hexit & _); discriminate Hexit|].
  destruct Hcase as (_ & Hrows' & Hnet' & Herr & Hp & Hf & Hb & _).
  exists job, s2, acc, s3. auto 15.
Qed.

(** X21.  The counters of a finalized job: the totals are those of the
    batch (the scanned files that need sync); [filesProcessed] counts the
    files whose upload returned and [bytesTransferred] adds up their
    sizes; [filesFailed] counts the files whose upload threw, and the
    error list has one entry for each of them, in order, with its path
    and message. *)
Theorem syncMapping_counters (s s' : Sys W) (job : SyncJob)
    (files : list Scanned.File) (conn : SharePointDrive * string)
    (n1 : Net W) :
  let batch := needing s files in
  let outcomes :=
    fst (attempts api platform host tenant (fst conn) (snd conn) batch n1) in
  run_sync s = (inr (Finalized, Some job), s') ->
  scan host mapping (world (net s)) = inr files ->
  connect api platform tenant mapping (net s) = (inr conn, n1) ->
  filesTotal job = Z.of_nat (length batch) /\
  bytesTotal job = sumSizes batch /\
  filesProcessed job = Z.of_nat (length (successesOf batch outcomes)) /\
  bytesTransferred job = sumSizes (successesOf batch outcomes) /\
  filesFailed job = Z.of_nat (length (failuresOf batch outcomes)) /\
  Forall2 reports (errors job) (failuresOf batch outcomes).
Proof.
  intros batch outcomes Hrun Hscan Hconn.
  destruct (finalized_loop s s' (Some job) files conn n1 Hrun Hscan Hconn)
    as (job' & s2 & acc & s3 & Hjob & Htotal & Hbytes & _ & Hnet & Hup & _
        & _ & Herr & Hp & Hf & Hb).
  injection Hjob as <-. fold batch in Htotal, Hbytes, Hup.
  split; [exact Htotal|]. split; [exact Hbytes|].
  pose proof (uploadAll_totals api platform host tenant mapping _ _ _ _ _ _
                _ _ Hup) as (Hp' & Hb' & Hf').
  pose proof (uploadAll_progress api platform host tenant mapping _ _ _ _ _
                _ _ _ Hup) as (_ & (added & Hadded & Hrep) & _).
  rewrite Hnet in Hp', Hb', Hf', Hrep. fold outcomes in Hp', Hb', Hf', Hrep.
  cbn [processed transferred errorList length app] in Hp', Hb', Hf', Hadded.
  rewrite Hp, Hb, Hf, Herr, Hadded. rewrite Hadded in Hf'.
  repeat split; [lia | lia | lia | exact Hrep].
Qed.

(** X22.  The job that a run creates has the totals that a dry run in the
    same state announces: as many files as [toSync] lists and their total
    size; the run returns without connecting exactly when [toSync] is
    empty. *)
Theorem dryRun_predicts_job (s s' : Sys W) (exit : Exit) (job : SyncJob)
    (d : DryRunResult) :
  run_sync s = (inr (exit, Some job), s') ->
  fst (dryRun host tenant mapping s) = inr d ->
  filesTotal job = Z.of_nat (length (toSync d)) /\
  bytesTotal job = totalSize d /\
  (exit = UpToDate <-> toSync d = []).
Proof.
  intros Hrun Hdry. pose proof (run_sync_fresh _ _ _ Hrun) as Hfresh.
  destruct (syncMapping_cases s Hfresh)
    as (exit' & job' & s1 & Hrun' & _ & _ & _ & _ & _ & _ & _ & Hcase).
  rewrite Hrun' in Hrun. injection Hrun as -> -> ->.
  unfold dryRun in Hdry. rewrite bind_scanSource in Hdry.
  destruct (scan host mapping (world (net s))) as [e|files];
    [discriminate|].
  unfold bind in Hdry. rewrite dryLoop_run in Hdry.
  cbn in Hdry. injection Hdry as <-. cbn [toSync totalSize].
  destruct Hcase as (Htotal & Hbytes & Hcase).
  split; [exact Htotal|]. split; [exact Hbytes|].
  destruct (needing s files) as [|f0 rest].
  - destruct Hcase as (-> & _). now split.
  - split; [|discriminate].
    destruct (connect api platform tenant mapping (net s)) as [[e|conn] n1].
    + destruct Hcase as (-> & _). discriminate.
    + destruct Hcase as (s2 & _ & _ & Hcase).
      destruct (uploadAll api platform host tenant mapping _ _ _ _ _ s2)
        as [[e|acc] s3]; destruct Hcase as (-> & _); discriminate.
Qed.

(** X23.  A run of one mapping changes no ledger row of another tenant or
    of another mapping, whatever happens in it. *)
Theorem syncMapping_other_mappings_untouched (s : Sys W) (t m p : string) :
  (t, m) <> (Tenant.id tenant, Mapping.id mapping) ->
  synced_files (db (snd (run_sync s))) !! (t, m, p)
  = synced_files (db s) !! (t, m, p).
Proof.
  intros Hother.
  destruct (sync_jobs (db s) !! jobIdAt host (ticks s)) eqn:Hfresh.
  { rewrite run_start. cbn zeta. rewrite Hfresh. reflexivity. }
  destruct (syncMapping_cases s Hfresh)
    as (exit & job & s1 & Hrun & _ & _ & _ & _ & _ & _ & _ & Hcase).
  rewrite Hrun. cbn [snd].
  destruct (scan host mapping (world (net s))) as [e|files].
  { destruct Hcase as (_ & _ & _ & _ & _ & _ & ->). reflexivity. }
  destruct Hcase as (_ & _ & Hcase).
  destruct (needing s files) as [|f0 rest].
  { destruct Hcase as (_ & _ & _ & _ & _ & ->). reflexivity. }
  destruct (connect api platform tenant mapping (net s)) as [[e|conn] n1].
  { destruct Hcase as (_ & _ & _ & _ & ->). reflexivity. }
  destruct Hcase as (s2 & Hrows & _ & Hcase).
  assert (Hframe : forall r s3,
             uploadAll api platform host tenant mapping
               (jobIdAt host (ticks s)) (fst conn) (snd conn) (f0 :: rest)
               (mkProgress [] 0 0) s2 = (r, s3) ->
             synced_files (db s3) !! (t, m, p)
             = synced_files (db s) !! (t, m, p)).
  { intros r s3 Hup. rewrite <- Hrows.
    apply (uploadAll_ledger_frame api platform host tenant mapping _ _ _ _
             _ _ _ _ _ Hup).
    intros file _ Hkey. unfold keyFor in Hkey. apply Hother. congruence. }
  destruct (uploadAll api platform host tenant mapping _ _ _ _ _ s2)
    as [[e|acc] s3] eqn:Hup.
  - destruct Hcase as (_ & _ & -> & _). now apply (Hframe (inl e)).
  - destruct Hcase as (_ & -> & _). now apply (Hframe (inr acc)).
Qed.

Lemma needsSync_recorded (d : Db) (file : Scanned.File)
    (o : Exn + string * SharePointItem) (r : SyncedFile) (h : string) :
  synced_files d !! keyFor tenant mapping file = Some r ->
  recorded file o r ->
  needsSync d (Tenant.id tenant) (Mapping.id mapping) (Scanned.path file) h
  = match o with
    | inl _ => true
    | inr _ => negb (String.eqb (Scanned.hash file) h)
    end.
Proof.
  intros Hrow (Hhash & _ & Ho). unfold needsSync, getSyncedFile.
  unfold keyFor in Hrow. rewrite Hrow, Hhash.
  destruct o as [e|[remote item]].
  - destruct Ho as (-> & _). reflexivity.
  - destruct Ho as (-> & _). cbn.
    now destruct (String.eqb (Scanned.hash file) h).
Qed.

(** The ledger after a finalized run. *)
Lemma finalized_rows (s s' : Sys W) (oj : option SyncJob)
    (files : list Scanned.File) (conn : SharePointDrive * string)
    (n1 : Net W) :
  run_sync s = (inr (Finalized, oj), s') ->
  scan host mapping (world (net s)) = inr files ->
  connect api platform tenant mapping (net s) = (inr conn, n1) ->
  NoDup (Scanned.path <$> files) ->
  (forall i file o,
      needing s files !! i = Some file ->
      fst (attempts api platform host tenant (fst conn) (snd conn)
                    (needing s files) n1) !! i = Some o ->
      exists r,
        synced_files (db s') !! keyFor tenant mapping file = Some r /\
        recorded file o r) /\
  (forall file,
      file ∈ files -> file ∉ needing s files ->
      synced_files (db s') !! keyFor tenant mapping file
      = synced_files (db s) !! keyFor tenant mapping file).
Proof.
  intros Hrun Hscan Hconn Hnd.
  destruct (finalized_loop s s' oj files conn n1 Hrun Hscan Hconn)
    as (job & s2 & acc & s3 & _ & _ & _ & Hrows & Hnet & Hup & Hrows' & _).
  assert (Hnd' : NoDup (Scanned.path <$> needing s files))
    by (apply NoDup_fmap_filter, Hnd).
  assert (Hsub : forall f, f ∈ needing s files -> f ∈ files).
  { intros f Hf. apply list_elem_of_In in Hf. apply filter_In in Hf as [Hf _].
    now apply list_elem_of_In. }
  rewrite Hrows'. split.
  - intros i file o Hfile Hout. rewrite <- Hnet in Hout.
    exact (uploadAll_ledger_recorded api platform host tenant mapping _ _ _
             _ _ _ _ _ Hup Hnd' i file o Hfile Hout).
  - intros file Hin Hout. rewrite <- Hrows.
    apply (uploadAll_ledger_frame api platform host tenant mapping _ _ _ _ _
             _ _ _ _ Hup).
    intros g Hg Hkey. apply keyFor_inj in Hkey.
    assert (file = g)
      by (apply (NoDup_fmap_eq Scanned.path files); auto).
    subst g. contradiction.
Qed.

(** X24.  After a finalized run over a scan that lists each path once, a
    file whose upload threw needs sync again whatever its digest, a file
    whose upload returned needs sync exactly when its digest differs from
    the one that was uploaded, and for a scanned file that was not in the
    batch nothing has changed. *)
Theorem syncMapping_retries_failed_files (s s' : Sys W)
    (oj : option SyncJob) (files : list Scanned.File)
    (conn : SharePointDrive * string) (n1 : Net W) :
  let batch := needing s files in
  let outcomes :=
    fst (attempts api platform host tenant (fst conn) (snd conn) batch n1) in
  run_sync s = (inr (Finalized, oj), s') ->
  scan host mapping (world (net s)) = inr files ->
  connect api platform tenant mapping (net s) = (inr conn, n1) ->
  NoDup (Scanned.path <$> files) ->
  (forall i file o h,
      batch !! i = Some file -> outcomes !! i = Some o ->
      needsSync (db s') (Tenant.id tenant) (Mapping.id mapping)
                (Scanned.path file) h
      = match o with
        | inl _ => true
        | inr _ => negb (String.eqb (Scanned.hash file) h)
        end) /\
  (forall file h,
      file ∈ files -> file ∉ batch ->
      needsSync (db s') (Tenant.id tenant) (Mapping.id mapping)
                (Scanned.path file) h
      = needsSync (db s) (Tenant.id tenant) (Mapping.id mapping)
                  (Scanned.path file) h).
Proof.
  intros batch outcomes Hrun Hscan Hconn Hnd.
  destruct (finalized_rows s s' oj files conn n1 Hrun Hscan Hconn Hnd)
    as [Hrec Hframe].
  split.
  - intros i file o h Hfile Hout.
    destruct (Hrec i file o Hfile Hout) as (r & Hr & Hrecorded).
    now apply (needsSync_recorded _ file o r).
  - intros file h Hin Hout. apply needsSync_ext. now apply Hframe.
Qed.

Lemma failuresOf_elem {A : Type} (files : list Scanned.File) :
  forall (outcomes : list (Exn + A)) (file : Scanned.File) (e : Exn),
    (file, e) ∈ failuresOf files outcomes <->
    exists i, files !! i = Some file /\ outcomes !! i = Some (inl e).
Proof.
  induction files as [|f rest IH]; intros outcomes file e.
  - cbn. split; [intros H; inversion H | intros (i & H & _); discriminate].
  - destruct outcomes as [|[e0|v] outcomes].
    + cbn. split; [intros H; inversion H|].
      intros (i & _ & H). discriminate.
    + cbn [failuresOf]. rewrite elem_of_cons, IH. split.
      * intros [[= -> ->]|(i & Hf & Ho)]; [now exists 0%nat|].
        now exists (S i).
      * intros ([|i] & Hf & Ho); cbn in Hf, Ho.
        -- left. congruence.
        -- right. now exists i.
    + cbn [failuresOf]. rewrite IH. split.
      * intros (i & Hf & Ho). now exists (S i).
      * intros ([|i] & Hf & Ho); cbn in Hf, Ho; [discriminate|].
        now exists i.
Qed.

(** X25.  After a finalized run over a scan that lists each path once, a
    dry run over the same scan lists exactly the files whose upload
    threw. *)
Theorem dryRun_after_run_lists_failures (s s' : Sys W)
    (oj : option SyncJob) (files : list Scanned.File)
    (conn : SharePointDrive * string) (n1 : Net W) :
  let batch := needing s files in
  let outcomes :=
    fst (attempts api platform host tenant (fst conn) (snd conn) batch n1) in
  run_sync s = (inr (Finalized, oj), s') ->
  scan host mapping (world (net s)) = inr files ->
  connect api platform tenant mapping (net s) = (inr conn, n1) ->
  NoDup (Scanned.path <$> files) ->
  scan host mapping (world (net s')) = inr files ->
  exists d,
    fst (dryRun host tenant mapping s') = inr d /\
    forall file,
      file ∈ toSync d <-> exists e, (file, e) ∈ failuresOf batch outcomes.
Proof.
  intros batch outcomes Hrun Hscan Hconn Hnd Hscan'.
  destruct (finalized_rows s s' oj files conn n1 Hrun Hscan Hconn Hnd)
    as [Hrec Hframe].
  fold batch in Hrec, Hframe. fold outcomes in Hrec.
  unfold dryRun. rewrite bind_scanSource, Hscan'.
  unfold bind. rewrite dryLoop_run. cbn [fst snd ret app].
  eexists. split; [reflexivity|]. cbn [toSync].
  assert (Hlen : length outcomes = length batch)
    by apply attempts_length.
  intros file. rewrite list_elem_of_In. unfold filesNeedingSync.
  rewrite filter_In, <- list_elem_of_In. split.
  - intros [Hin Hneeds].
    destruct (needsSync (db s) (Tenant.id tenant) (Mapping.id mapping)
                        (Scanned.path file) (Scanned.hash file)) eqn:Hbefore.
    + assert (Hb : file ∈ batch).
      { apply list_elem_of_In, filter_In. split; [|exact Hbefore].
        now apply list_elem_of_In. }
      apply list_elem_of_lookup_1 in Hb as [i Hi].
      destruct (lookup_lt_is_Some_2 outcomes i) as [o Ho].
      { rewrite Hlen. now apply lookup_lt_Some in Hi. }
      destruct (Hrec i file o Hi Ho) as (r & Hr & Hrecorded).
      rewrite (needsSync_recorded _ file o r _ Hr Hrecorded) in Hneeds.
      destruct o as [e|v].
      * exists e. apply failuresOf_elem. now exists i.
      * rewrite String.eqb_refl in Hneeds. discriminate.
    + assert (Hb : file ∉ batch).
      { intros Hb. apply list_elem_of_In, filter_In in Hb as [_ Hb].
        congruence. }
      rewrite (needsSync_ext _ (db s)) in Hneeds by now apply Hframe.
      congruence.
  - intros [e He]. apply failuresOf_elem in He as (i & Hi & Ho).
    assert (Hb : file ∈ batch) by (eapply list_elem_of_lookup_2; eauto).
    split.
    + apply list_elem_of_In in Hb. apply filter_In in Hb as [Hb _].
      now apply list_elem_of_In.
    + destruct (Hrec i file (inl e) Hi Ho) as (r & Hr & Hrecorded).
      now rewrite (needsSync_recorded _ file (inl e) r _ Hr Hrecorded).
Qed.

Lemma uploadAll_app (jid : string) (drive : SharePointDrive)
    (destFolder : string) (pre rest : list Scanned.File) :
  forall acc s,
    uploadAll api platform host tenant mapping jid drive destFolder
              (pre ++ rest) acc s
    = match uploadAll api platform host tenant mapping jid drive destFolder
                      pre acc s with
      | (inr acc1, s1) =>
          uploadAll api platform host tenant mapping jid drive destFolder
                    rest acc1 s1
      | (inl e, s1) => (inl e, s1)
      end.
Proof.
  induction pre as [|file pre IH]; intros acc s; [reflexivity|].
  cbn [app uploadAll]. unfold bind.
  destruct (syncFile api platform host tenant mapping jid drive destFolder
                     acc file s) as [[e|acc1] s1]; [reflexivity|].
  apply IH.
Qed.

(** X29.  When the batch reaches a file whose modification time is not a
    valid date, the run is aborted at that file, whatever its upload did:
    the job is [failed] with the single error "Invalid time value" under
    the source folder of the mapping; its counters are those of the files
    before it; the requests end with the attempt on that file; and no
    ledger row is written for it or for the files after it. *)
Theorem syncMapping_invalid_date_aborts (s : Sys W)
    (files : list Scanned.File) (conn : SharePointDrive * string)
    (n1 : Net W) (pre post : list Scanned.File) (file : Scanned.File) :
  let outcomes :=
    fst (attempts api platform host tenant (fst conn) (snd conn) pre n1) in
  sync_jobs (db s) !! jobIdAt host (ticks s) = None ->
  scan host mapping (world (net s)) = inr files ->
  connect api platform tenant mapping (net s) = (inr conn, n1) ->
  needing s files = (pre ++ file :: post)%list ->
  allDated pre = true ->
  dated file = false ->
  exists job s',
    run_sync s = (inr (Aborted, Some job), s') /\
    abortedJob host mapping job invalidTime /\
    filesTotal job = Z.of_nat (length (needing s files)) /\
    filesProcessed job = Z.of_nat (length (successesOf pre outcomes)) /\
    filesFailed job = Z.of_nat (length (failuresOf pre outcomes)) /\
    net s'
    = snd (attempt api platform host tenant (fst conn) (snd conn) file
             (snd (attempts api platform host tenant (fst conn) (snd conn)
                            pre n1))) /\
    (forall k,
        (forall g, g ∈ pre -> k <> keyFor tenant mapping g) ->
        synced_files (db s') !! k = synced_files (db s) !! k).
Proof.
  intros outcomes Hfresh Hscan Hconn Hbatch Hpre Hfile.
  set (jid := jobIdAt host (ticks s)) in *.
  rewrite run_start. cbn zeta. fold jid. rewrite Hfresh.
  set (j0 := newJob jid (Tenant.id tenant) (Some (Mapping.id mapping))
                    (isoTime host (S (ticks s)))).
  rewrite body_run. cbn [db net ticks world]. rewrite Hscan. cbn zeta.
  rewrite (needing_ext tenant mapping _ (db s) files) by reflexivity.
  assert (Hne : exists f0 rest, needing s files = f0 :: rest)
    by (rewrite Hbatch; destruct pre; eauto).
  destruct Hne as (f0 & rest & Heq). rewrite Heq. cbv iota.
  rewrite Hconn. rewrite <- Heq. rewrite !Hbatch.
  set (s2 := mkSys _ n1 _).
  assert (Hstarted :
    sync_jobs (db s2) !! jid
    = Some (mkSyncJob jid (Tenant.id tenant) (Some (Mapping.id mapping))
              job_running (isoTime host (S (ticks s))) None
              (Z.of_nat (length (pre ++ file :: post)))
              0 0 (sumSizes (pre ++ file :: post)) 0 [])).
  { unfold s2. cbn [db].
    rewrite (started_row _ jid j0) by apply lookup_insert_eq.
    reflexivity. }
  rewrite uploadAll_app.
  destruct (uploadAll_returns api platform host tenant mapping jid
              (fst conn) (snd conn) pre Hpre (mkProgress [] 0 0) s2)
    as (acc1 & s3 & Hup).
  rewrite Hup. rewrite uploadAll_step, Hfile.
  pose proof (uploadAll_row api platform host tenant mapping jid _ _ _ _ _ _
                _ _ Hup Hstarted eq_refl eq_refl eq_refl) as Hrow.
  pose proof (uploadAll_totals api platform host tenant mapping jid _ _ _ _
                _ _ _ Hup) as (Hp & _ & Hf).
  pose proof (uploadAll_progress api platform host tenant mapping jid _ _ _
                _ _ _ _ Hup) as (Hnet & _).
  cbn [net processed errorList length] in Hp, Hf, Hnet.
  unfold aborted. cbn [db net ticks].
  rewrite completed_row. cbn [db]. rewrite Hrow.
  cbn [fmap option_fmap option_map jobId jobTenantId jobMappingId jobStatus
       startedAt completedAt filesTotal bytesTotal errors].
  eexists _, _. split; [reflexivity|].
  cbn [filesTotal filesProcessed filesFailed net db].
  split; [unfold abortedJob; cbn; eauto|].
  split; [reflexivity|].
  split; [unfold outcomes; unfold s2 in Hp; cbn [net] in Hp; lia|].
  split; [unfold outcomes; unfold s2 in Hf; cbn [net] in Hf; lia|].
  split; [rewrite Hnet; reflexivity|].
  intros k Hk. cbn [synced_files completeJob alterJob].
  rewrite (uploadAll_ledger_frame api platform host tenant mapping jid _ _
             _ _ _ _ _ k Hup Hk).
  reflexivity.
Qed.

End Runs.

Section Tenants.
Context {W : Type} (api : Api W) (platform : Platform) (host : Host W).
Variable tenant : Tenant.Config.

Lemma syncMappings_jobs (mappings : list Mapping.t) :
  forall acc s jobs s',
    TenantSync.syncMappings api platform host tenant mappings acc s
      = (inr jobs, s') ->
    exists added,
      jobs = (acc ++ added)%list /\
      Forall2 (jobFor tenant) (List.filter Mapping.enabled mappings) added.
Proof.
  induction mappings as [|m rest IH]; intros acc s jobs s' Hrun.
  - cbn in Hrun. injection Hrun as <- <-. exists [].
    split; [now rewrite app_nil_r | constructor].
  - cbn [TenantSync.syncMappings List.filter] in *.
    destruct (Mapping.enabled m); cbn [negb] in Hrun;
      [|exact (IH _ _ _ _ Hrun)].
    unfold bind in Hrun.
    destruct (syncMapping api platform host tenant m s) as [[e|r] s1]
      eqn:Hm; [discriminate|].
    pose proof (run_sync_fresh _ _ _ _ _ _ _ _ Hm) as Hfresh.
    destruct (syncMapping_cases api platform host tenant m s Hfresh)
      as (exit & job & s1' & Hm' & _ & _ & _ & Ht & Hmid & _ & Hdone & _).
    rewrite Hm' in Hm. injection Hm as <- <-.
    apply IH in Hrun as (added & -> & Hall).
    exists (Some job :: added). split; [now rewrite <- app_assoc|].
    constructor; [|exact Hall]. exists job. auto.
Qed.


End Tenants.

Section AllTenants.
Context {W : Type} (api : Api W) (platform : Platform) (host : Host W).

Lemma syncTenants_entries (tenants : list Tenant.Config) :
  forall acc s results s',
    TenantSync.syncTenants api platform host tenants acc s
      = (inr results, s') ->
    NoDup (Tenant.id <$> tenants) ->
    (forall t,
        t ∈ tenants ->
        exists jobs,
          results !! Tenant.id t = Some jobs /\
          Forall2 (jobFor t)
                  (List.filter Mapping.enabled (Tenant.mappings t)) jobs) /\
    (forall k, k ∉ Tenant.id <$> tenants -> results !! k = acc !! k).
Proof.
  induction tenants as [|t rest IH]; intros acc s results s' Hrun Hnd.
  - cbn in Hrun. injection Hrun as <- <-.
    split; [intros t Ht; inversion Ht | reflexivity].
  - cbn [TenantSync.syncTenants] in Hrun. unfold bind in Hrun.
    destruct (TenantSync.syncTenant api platform host t s) as [[e|jobs] s1]
      eqn:Ht; [discriminate|].
    cbn [fmap list_fmap] in Hnd. apply NoDup_cons in Hnd as [Hfresh Hnd].
    destruct (IH _ _ _ _ Hrun Hnd) as [Hrest Hframe].
    split.
    + intros t' Ht'. apply elem_of_cons in Ht' as [->|Ht'];
        [|now apply Hrest].
      exists jobs. split.
      * rewrite (Hframe _ Hfresh). apply lookup_insert_eq.
      * unfold TenantSync.syncTenant in Ht.
        apply (syncMappings_jobs api platform host t) in Ht
          as (added & -> & Hall). exact Hall.
    + intros k Hk. cbn [fmap list_fmap] in Hk.
      apply not_elem_of_cons in Hk as [Hne Hk].
      rewrite (Hframe _ Hk). now apply lookup_insert_ne.
Qed.

(** X27.  When [syncAll] returns for tenants with distinct ids, its map
    has an entry for each tenant and for nothing else, and the entry of a
    tenant is the list of the jobs of its enabled mappings, in order,
    each [completed] or [failed]. *)
Theorem syncAll_one_entry_per_tenant (tenants : list Tenant.Config)
    (s s' : Sys W) (results : gmap string (list (option SyncJob))) :
  TenantSync.syncAll api platform host tenants s = (inr results, s') ->
  NoDup (Tenant.id <$> tenants) ->
  (forall t,
      t ∈ tenants ->
      exists jobs,
        results !! Tenant.id t = Some jobs /\
        Forall2 (jobFor t)
                (List.filter Mapping.enabled (Tenant.mappings t)) jobs) /\
  (forall k, k ∉ Tenant.id <$> tenants -> results !! k = None).
Proof.
  intros Hrun Hnd. unfold TenantSync.syncAll in Hrun.
  destruct (syncTenants_entries tenants _ _ _ _ Hrun Hnd)
    as [Hall Hframe].
  split; [exact Hall|]. intros k Hk. now rewrite (Hframe k Hk).
Qed.

End AllTenants.

(** Witnesses, on the simulated drive. *)

Lemma syncMapping_returns_finished_job_witness :
  exists exit job s',
    Sim.sync Sim.partial = (inr (exit, Some job), s') /\
    getJob (db s') (jobIdAt (Sim.host Sim.sample) (ticks Sim.partial))
      = Some job /\
    jobId job = jobIdAt (Sim.host Sim.sample) (ticks Sim.partial) /\
    jobTenantId job = Tenant.id Sim.tenant /\
    jobMappingId job = Some (Mapping.id Sim.mapping) /\
    finished job /\
    (forall other,
        other <> jobIdAt (Sim.host Sim.sample) (ticks Sim.partial) ->
        sync_jobs (db s') !! other = sync_jobs (db Sim.partial) !! other).
Proof.
  apply (syncMapping_returns_finished_job Sim.api Sim.platform
           (Sim.host Sim.sample) Sim.tenant Sim.mapping Sim.partial).
  reflexivity.
Defined.

Lemma syncMapping_aborted_run_witness :
  exists job e,
    Sim.jobOf (Services.syncUndated Sim.clean) = Some job /\
    abortedJob (Sim.host Services.undatedSample) Sim.mapping job e /\
    ((scan (Sim.host Services.undatedSample) Sim.mapping
           (world (net Sim.clean)) = inl e /\
      net (snd (Services.syncUndated Sim.clean)) = net Sim.clean /\
      idleJob job /\
      synced_files (db (snd (Services.syncUndated Sim.clean)))
      = synced_files (db Sim.clean))
     \/
     (exists files,
         scan (Sim.host Services.undatedSample) Sim.mapping
              (world (net Sim.clean)) = inr files /\
         filesNeedingSync (db Sim.clean) Sim.tenant Sim.mapping files <> [] /\
         connect Sim.api Sim.platform Sim.tenant Sim.mapping (net Sim.clean)
         = (inl e, net (snd (Services.syncUndated Sim.clean))) /\
         idleJob job /\
         synced_files (db (snd (Services.syncUndated Sim.clean)))
         = synced_files (db Sim.clean))
     \/
     (exists files conn n1 file,
         scan (Sim.host Services.undatedSample) Sim.mapping
              (world (net Sim.clean)) = inr files /\
         connect Sim.api Sim.platform Sim.tenant Sim.mapping (net Sim.clean)
         = (inr conn, n1) /\
         file ∈ filesNeedingSync (db Sim.clean) Sim.tenant Sim.mapping files /\
         dated file = false /\
         e = invalidTime)).
Proof.
  apply (syncMapping_aborted_run Sim.api Sim.platform
           (Sim.host Services.undatedSample) Sim.tenant Sim.mapping Sim.clean
           (snd (Services.syncUndated Sim.clean))
           (Sim.jobOf (Services.syncUndated Sim.clean))).
  vm_compute. reflexivity.
Defined.

Lemma syncMapping_counters_witness :
  exists job,
    Sim.jobOf (Sim.sync Sim.partial) = Some job /\
    filesTotal job = 3 /\
    bytesTotal job = 60 /\
    filesProcessed job = 2 /\
    bytesTransferred job = 40 /\
    filesFailed job = 1 /\
    Forall2 reports (errors job)
            [(Sim.file "b.txt" 20 "h2", Sim.serviceUnavailable)].
Proof.
  destruct (Sim.jobOf (Sim.sync Sim.partial)) as [job|] eqn:Hjob;
    [|vm_compute in Hjob; discriminate].
  exists job. split; [reflexivity|].
  apply (syncMapping_counters Sim.api Sim.platform (Sim.host Sim.sample)
           Sim.tenant Sim.mapping Sim.partial (snd (Sim.sync Sim.partial))
           job Sim.sample (mkDrive "d1" "Documents", EmptyString)
           (snd (connect Sim.api Sim.platform Sim.tenant Sim.mapping
                         (net Sim.partial)))).
  - vm_compute in Hjob. injection Hjob as <-. vm_compute. reflexivity.
  - reflexivity.
  - vm_compute. reflexivity.
Defined.

Lemma dryRun_predicts_job_witness :
  exists job,
    Sim.jobOf (Sim.sync Sim.partial) = Some job /\
    filesTotal job = Z.of_nat (length Sim.sample) /\
    bytesTotal job = 60 /\
    (Finalized = UpToDate <-> Sim.sample = []).
Proof.
  destruct (Sim.jobOf (Sim.sync Sim.partial)) as [job|] eqn:Hjob;
    [|vm_compute in Hjob; discriminate].
  exists job. split; [reflexivity|].
  apply (dryRun_predicts_job Sim.api Sim.platform (Sim.host Sim.sample)
           Sim.tenant Sim.mapping Sim.partial (snd (Sim.sync Sim.partial))
           Finalized job (mkDryRun Sim.sample 0 60)).
  - vm_compute in Hjob. injection Hjob as <-. vm_compute. reflexivity.
  - vm_compute. reflexivity.
Defined.

Lemma syncMapping_other_mappings_untouched_witness :
  synced_files (db (snd (Sim.sync Sim.partial))) !! ("t1", "m2", "/data/a.txt")
  = synced_files (db Sim.partial) !! ("t1", "m2", "/data/a.txt").
Proof.
  apply (syncMapping_other_mappings_untouched Sim.api Sim.platform
           (Sim.host Sim.sample) Sim.tenant Sim.mapping Sim.partial
           "t1" "m2" "/data/a.txt").
  vm_compute. discriminate.
Defined.

Lemma syncMapping_retries_failed_files_witness :
  (forall i file o h,
      Sim.sample !! i = Some file ->
      fst (attempts Sim.api Sim.platform (Sim.host Sim.sample) Sim.tenant
             (mkDrive "d1" "Documents") EmptyString Sim.sample
             (snd (connect Sim.api Sim.platform Sim.tenant Sim.mapping
                           (net Sim.partial)))) !! i = Some o ->
      needsSync (db (snd (Sim.sync Sim.partial))) "t1" "m1"
                (Scanned.path file) h
      = match o with
        | inl _ => true
        | inr _ => negb (String.eqb (Scanned.hash file) h)
        end) /\
  (forall file h,
      file ∈ Sim.sample -> file ∉ Sim.sample ->
      needsSync (db (snd (Sim.sync Sim.partial))) "t1" "m1"
                (Scanned.path file) h
      = needsSync (db Sim.partial) "t1" "m1" (Scanned.path file) h).
Proof.
  apply (syncMapping_retries_failed_files Sim.api Sim.platform
           (Sim.host Sim.sample) Sim.tenant Sim.mapping Sim.partial
           (snd (Sim.sync Sim.partial)) (Sim.jobOf (Sim.sync Sim.partial))
           Sim.sample (mkDrive "d1" "Documents", EmptyString)
           (snd (connect Sim.api Sim.platform Sim.tenant Sim.mapping
                         (net Sim.partial)))).
  - vm_compute. reflexivity.
  - reflexivity.
  - vm_compute. reflexivity.
  - refine (@bool_decide_unpack _ (NoDup_dec _) _). vm_compute. exact I.
Defined.

Lemma dryRun_after_run_lists_failures_witness :
  exists d,
    fst (dryRun (Sim.host Sim.sample) Sim.tenant Sim.mapping
                (snd (Sim.sync Sim.partial))) = inr d /\
    forall file,
      file ∈ toSync d <->
      exists e,
        (file, e)
        ∈ failuresOf Sim.sample
            (fst (attempts Sim.api Sim.platform (Sim.host Sim.sample)
                    Sim.tenant (mkDrive "d1" "Documents") EmptyString
                    Sim.sample
                    (snd (connect Sim.api Sim.platform Sim.tenant
                                  Sim.mapping (net Sim.partial))))).
Proof.
  apply (dryRun_after_run_lists_failures Sim.api Sim.platform
           (Sim.host Sim.sample) Sim.tenant Sim.mapping Sim.partial
           (snd (Sim.sync Sim.partial)) (Sim.jobOf (Sim.sync Sim.partial))
           Sim.sample (mkDrive "d1" "Documents", EmptyString)
           (snd (connect Sim.api Sim.platform Sim.tenant Sim.mapping
                         (net Sim.partial)))).
  - vm_compute. reflexivity.
  - reflexivity.
  - vm_compute. reflexivity.
  - refine (@bool_decide_unpack _ (NoDup_dec _) _). vm_compute. exact I.
  - reflexivity.
Defined.


Lemma syncAll_one_entry_per_tenant_witness :
  (forall t,
      t ∈ [Services.contoso; Services.fabrikam] ->
      exists jobs,
        Services.resultsOf
          (TenantSync.syncAll Sim.api Sim.platform (Sim.host Sim.sample)
             [Services.contoso; Services.fabrikam] Sim.partial)
          !! Tenant.id t = Some jobs /\
        Forall2 (jobFor t)
                (List.filter Mapping.enabled (Tenant.mappings t)) jobs) /\
  (forall k,
      k ∉ Tenant.id <$> [Services.contoso; Services.fabrikam] ->
      Services.resultsOf
        (TenantSync.syncAll Sim.api Sim.platform (Sim.host Sim.sample)
           [Services.contoso; Services.fabrikam] Sim.partial) !! k = None).
Proof.
  apply (syncAll_one_entry_per_tenant Sim.api Sim.platform
           (Sim.host Sim.sample) [Services.contoso; Services.fabrikam]
           Sim.partial
           (snd (TenantSync.syncAll Sim.api Sim.platform
                   (Sim.host Sim.sample)
                   [Services.contoso; Services.fabrikam] Sim.partial))).
  - vm_compute. reflexivity.
  - refine (@bool_decide_unpack _ (NoDup_dec _) _). vm_compute. exact I.
Defined.

Lemma syncMapping_invalid_date_aborts_witness :
  exists job s',
    Services.syncUndated Sim.clean = (inr (Aborted, Some job), s') /\
    abortedJob (Sim.host Services.undatedSample) Sim.mapping job
               invalidTime /\
    filesTotal job = 3 /\
    filesProcessed job = 1 /\
    filesFailed job = 0 /\
    net s'
    = snd (attempt Sim.api Sim.platform (Sim.host Services.undatedSample)
             Sim.tenant (mkDrive "d1" "Documents") EmptyString
             Services.undated
             (snd (attempts Sim.api Sim.platform
                     (Sim.host Services.undatedSample) Sim.tenant
                     (mkDrive "d1" "Documents") EmptyString
                     [Sim.file "a.txt" 10 "h1"]
                     (snd (connect Sim.api Sim.platform Sim.tenant
                                   Sim.mapping (net Sim.clean)))))) /\
    (forall k,
        (forall g, g ∈ [Sim.file "a.txt" 10 "h1"] ->
                   k <> keyFor Sim.tenant Sim.mapping g) ->
        synced_files (db s') !! k = synced_files (db Sim.clean) !! k).
Proof.
  apply (syncMapping_invalid_date_aborts Sim.api Sim.platform
           (Sim.host Services.undatedSample) Sim.tenant Sim.mapping Sim.clean
           Services.undatedSample (mkDrive "d1" "Documents", EmptyString)
           (snd (connect Sim.api Sim.platform Sim.tenant Sim.mapping
                         (net Sim.clean)))
           [Sim.file "a.txt" 10 "h1"] [Sim.file "c.txt" 30 "h3"]
           Services.undated).
  - reflexivity.
  - reflexivity.
  - vm_compute. reflexivity.
  - vm_compute. reflexivity.
  - reflexivity.
  - reflexivity.
Defined.

End EngineExtras.

(* ===================================================================== *)
(** * The file scanner                                                    *)
(* ===================================================================== *)

Module ScannerExtras.
Import Scanner.

Section Scan.
Variable minimatch : string -> string -> bool.
Variable pathJoin : string -> string -> string.
Variable pathRelative : string -> string -> string.
Variable pathBasename : string -> string.

Local Abbreviation matches := (matchesFilters minimatch).
Local Abbreviation node :=
  (scanNode minimatch pathJoin pathRelative pathBasename).

Lemma matchesFilters_limits (relativePath : string) (fileSize : Z)
    (f : FileFilters) :
  matches relativePath fileSize (Some f) = true ->
  (forall m, maxFileSize f = Some m -> m <> 0 -> fileSize <= m) /\
  (forall m, minFileSize f = Some m -> m <> 0 -> m <= fileSize) /\
  (forall ps, include f = Some ps -> ps <> [] ->
              exists p, In p ps /\ minimatch relativePath p = true) /\
  (forall ps p, exclude f = Some ps -> In p ps ->
                minimatch relativePath p = false).
Proof.
  unfold matchesFilters, truthy, hasPatterns, someMatch.
  intros H.
  destruct (match maxFileSize f with
            | Some v => negb (v =? 0)
            | None => false
            end && (default 0 (maxFileSize f) <? fileSize)) eqn:Hmax;
    [discriminate|].
  destruct (match minFileSize f with
            | Some v => negb (v =? 0)
            | None => false
            end && (fileSize <? default 0 (minFileSize f))) eqn:Hmin;
    [discriminate|].
  destruct (match include f with
            | Some (_ :: _) => true
            | _ => false
            end && negb (existsb (minimatch relativePath)
                                 (default [] (include f)))) eqn:Hinc;
    [discriminate|].
  destruct (match exclude f with
            | Some (_ :: _) => true
            | _ => false
            end && existsb (minimatch relativePath)
                           (default [] (exclude f))) eqn:Hexc;
    [discriminate|].
  clear H. repeat split.
  - intros m Hm Hne. rewrite Hm in Hmax. cbn in Hmax.
    apply andb_false_iff in Hmax as [Hz|Hlt].
    + apply negb_false_iff, Z.eqb_eq in Hz. contradiction.
    + apply Z.ltb_ge in Hlt. exact Hlt.
  - intros m Hm Hne. rewrite Hm in Hmin. cbn in Hmin.
    apply andb_false_iff in Hmin as [Hz|Hlt].
    + apply negb_false_iff, Z.eqb_eq in Hz. contradiction.
    + apply Z.ltb_ge in Hlt. exact Hlt.
  - intros ps Hps Hne. rewrite Hps in Hinc. cbn in Hinc.
    destruct ps as [|p0 rest]; [contradiction|].
    cbn [andb] in Hinc. apply negb_false_iff in Hinc.
    apply existsb_exists in Hinc as (p & Hin & Hp). now exists p.
  - intros ps p Hps Hin. rewrite Hps in Hexc.
    destruct ps as [|p0 rest]; [contradiction|].
    change (existsb (minimatch relativePath) (p0 :: rest) = false) in Hexc.
    destruct (minimatch relativePath p) eqn:Hp; [|reflexivity].
    assert (existsb (minimatch relativePath) (p0 :: rest) = true)
      by (apply existsb_exists; now exists p).
    congruence.
Qed.

(** Every file that the walk collects under an entry passes the
    filters. *)
Lemma scanNode_accepted (basePath : string) (f : FileFilters) :
  forall (entry : Node) (dirPath : string),
    Forall (accepted minimatch f)
           (fst (node basePath (Some f) dirPath entry)).
Proof.
  fix IH 1. intros [name stats digest|name entries|name] dirPath.
  - cbn [scanNode]. destruct stats as [st|]; [|constructor].
    destruct (matches _ (statSize st) (Some f)) eqn:Hm; [|constructor].
    unfold scanFile. destruct digest as [h|]; [|constructor].
    constructor; [|constructor].
    destruct (matchesFilters_limits _ _ _ Hm) as (H1 & H2 & H3 & H4).
    unfold accepted. cbn. auto.
  - cbn [scanNode fst]. destruct entries as [es|]; [|constructor].
    induction es as [|e rest IHes]; [constructor|].
    cbn [fst]. apply Forall_app. split; [apply IH | exact IHes].
  - constructor.
Qed.

(** X28.  Every file in the result of [scan] passes the filters of the
    mapping: it is within the size limits that are set and not 0, it
    matches one of the include patterns when there are any, it matches no
    exclude pattern (an excluded file is left out even when an include
    pattern matches it), and it is not a directory. *)
Theorem scan_respects_filters (mapping : Mapping.t) (f : FileFilters)
    (source : Source) (r : ScanResult) :
  scan minimatch pathJoin pathRelative pathBasename mapping (Some f) source
    = inr r ->
  Forall (accepted minimatch f) (files r).
Proof.
  unfold scan. destruct source as [| |entries]; try discriminate.
  intros [= <-]. cbn [files]. unfold scanDirectory.
  destruct entries as [es|]; [|constructor]. cbn [fst].
  induction es as [|e rest IHes]; [constructor|].
  cbn [scanEntries fst]. apply Forall_app.
  split; [apply scanNode_accepted | exact IHes].
Qed.

End Scan.

Lemma scan_respects_filters_witness :
  Forall (accepted sampleMatch sampleFilters)
    [Scanned.mkFile "/data/a.txt" "a.txt" "a.txt" 10 "h1"
       (JsDate.Valid "2023-12-30T00:00:00Z")
       (JsDate.Valid "2023-12-31T00:00:00Z") false;
     Scanned.mkFile "/data/sub/d.txt" "sub/d.txt" "d.txt" 40 "h4"
       (JsDate.Valid "2023-12-30T00:00:00Z")
       (JsDate.Valid "2023-12-31T00:00:00Z") false].
Proof.
  apply (scan_respects_filters sampleMatch Sim.simJoin sampleRelative
           sampleBasename Sim.mapping sampleFilters sampleTree
           (mkScanResult "m1" "/data"
              [Scanned.mkFile "/data/a.txt" "a.txt" "a.txt" 10 "h1"
                 (JsDate.Valid "2023-12-30T00:00:00Z")
       (JsDate.Valid "2023-12-31T00:00:00Z") false;
               Scanned.mkFile "/data/sub/d.txt" "sub/d.txt" "d.txt" 40 "h4"
                 (JsDate.Valid "2023-12-30T00:00:00Z")
       (JsDate.Valid "2023-12-31T00:00:00Z") false]
              ["sub"; "locked"] 50)).
  vm_compute. reflexivity.
Defined.

End ScannerExtras.
